(** * ahg: a shallow embedding of [src/ahg/git.py]

    The development follows the layout of the Python module: the
    language-level primitives the module relies on (byte strings, text
    strings, [int], [format], the UTF-8 codec, [hashlib.sha1], [os.path]
    and a file system), then the KVLM codec, the tree codec, the object
    classes, the object store and the commit-graph traversal; the theorems
    come last. *)

From Stdlib Require Import ZArith NArith Ascii String List Lia Bool.
From Stdlib Require Import Sorting.Sorted Sorting.Permutation.
From stdpp Require Import base option list strings gmap.
Import ListNotations.

Set Default Proof Using "Type".
Set Warnings "-register-all".

(** * Python values *)

(** A [bytes] object is a sequence of octets; a [str] is a sequence of
    Unicode code points. *)
Abbreviation bytes := (list ascii).
Abbreviation pystr := (list N).

(** ASCII literals: [b"..."] and ["..."] of the source. *)
Definition b (s : string) : bytes := list_ascii_of_string s.
Definition u (s : string) : pystr := map N_of_ascii (list_ascii_of_string s).

Definition NUL : ascii := "000"%char.
Definition LF : ascii := "010"%char.
Definition SP : ascii := " "%char.
Definition ord (c : ascii) : N := N_of_ascii c.

(** ** Exceptions *)

(** The module raises plain [Exception] objects that differ by message only;
    everything else is raised by the interpreter or the standard library. *)
Inductive exn : Type :=
  | Exception (msg : pystr)
  | AssertionError
  | AttributeError
  | IndexError
  | KeyError
  | TypeError
  | ValueError
  | OverflowError
  | UnicodeDecodeError
  | UnicodeEncodeError
  | zlib_error
  | IsADirectoryError
  | FileExistsError.

Inductive result (A : Type) : Type :=
  | Ok (a : A)
  | Raise (e : exn).
Arguments Ok {A} a.
Arguments Raise {A} e.

Definition rbind {A B} (r : result A) (k : A -> result B) : result B :=
  match r with
  | Ok a => k a
  | Raise e => Raise e
  end.

(** Recursion and [while] loops of the source that are not structural run
    on fuel: [None] means that the fuel ran out before the call returned. *)
Definition M (A : Type) : Type := option (result A).

Definition mret {A} (a : A) : M A := Some (Ok a).
Definition mraise {A} (e : exn) : M A := Some (Raise e).
Definition mbind {A B} (m : M A) (k : A -> M B) : M B :=
  match m with
  | Some (Ok a) => k a
  | Some (Raise e) => Some (Raise e)
  | None => None
  end.
Definition lift {A} (r : result A) : M A := Some r.

Declare Scope py_scope.
Delimit Scope py_scope with py.
Notation "'let*' x := m 'in' k" := (mbind m (fun x => k))
  (at level 10, x name, m at level 200, k at level 200) : py_scope.
Notation "'let+' x := r 'in' k" := (rbind r (fun x => k))
  (at level 10, x name, r at level 200, k at level 200) : py_scope.

(** ** Sequence operations *)

Section Seq.
Context {A : Type} `{EqDecision A}.

(** Python's index normalisation for slices and for the [start] argument
    of [find]: negative indices count from the end, and everything is
    clamped to [0 .. len]. *)
Definition clamp (len i : Z) : Z :=
  if (i <? 0)%Z then Z.max 0 (i + len) else Z.min i len.

Definition len (l : list A) : Z := Z.of_nat (length l).

(** [l[i:j]] *)
Definition slice (l : list A) (i j : Z) : list A :=
  let i' := clamp (len l) i in
  let j' := clamp (len l) j in
  firstn (Z.to_nat (j' - i')) (skipn (Z.to_nat i') l).

(** [l[i:]] *)
Definition slice_from (l : list A) (i : Z) : list A :=
  skipn (Z.to_nat (clamp (len l) i)) l.

(** [l[i]], which raises [IndexError] out of range. *)
Definition getitem (l : list A) (i : Z) : result A :=
  let i' := if (i <? 0)%Z then (i + len l)%Z else i in
  if (i' <? 0)%Z then Raise IndexError
  else match nth_error l (Z.to_nat i') with
       | Some x => Ok x
       | None => Raise IndexError
       end.

Fixpoint find_at (c : A) (l : list A) (i : Z) : Z :=
  match l with
  | [] => (-1)%Z
  | x :: t => if decide (x = c) then i else find_at c t (i + 1)%Z
  end.

(** [l.find(c, start)] for a one-element needle [c]: the least index
    [>= start] holding [c], or [-1]. *)
Definition find (l : list A) (c : A) (start : Z) : Z :=
  let s := if (start <? 0)%Z then Z.max 0 (start + len l) else start in
  find_at c (skipn (Z.to_nat s) l) s.

Fixpoint startswith (l p : list A) : bool :=
  match p, l with
  | [], _ => true
  | _ :: _, [] => false
  | y :: p', x :: l' => if decide (x = y) then startswith l' p' else false
  end.

(** [l.replace(old, new)]: the non-overlapping occurrences of [old],
    scanned from the left, are replaced by [new]. [skip] counts the
    elements of an occurrence that are still to be dropped. *)
Fixpoint replace_from (old new l : list A) (skip : nat) : list A :=
  match l with
  | [] => []
  | x :: t =>
      match skip with
      | S k => replace_from old new t k
      | O =>
          if startswith l old
          then new ++ replace_from old new t (length old - 1)
          else x :: replace_from old new t 0
      end
  end.

Definition replace (l old new : list A) : list A :=
  match old with
  | [] => new ++ flat_map (fun x => x :: new) l
  | _ :: _ => replace_from old new l 0
  end.

Definition contains (l : list A) (c : A) : bool :=
  bool_decide (c ∈ l).

(** [l.index(c)] where the caller has checked [c in l]. *)
Definition index (l : list A) (c : A) : Z := find_at c l 0.
End Seq.

(** ** [str] *)

(** The code points for which [str.isspace] holds; [str.strip] drops them
    at both ends. *)
Definition isspace (c : N) : bool :=
  ((9 <=? c) && (c <=? 13) || (28 <=? c) && (c <=? 32) || (c =? 133)
   || (c =? 160) || (c =? 5760) || (8192 <=? c) && (c <=? 8202)
   || (c =? 8232) || (c =? 8233) || (c =? 8239) || (c =? 8287)
   || (c =? 12288))%N.

Fixpoint lstrip (s : pystr) : pystr :=
  match s with
  | c :: t => if isspace c then lstrip t else s
  | [] => []
  end.

Definition strip (s : pystr) : pystr := rev (lstrip (rev (lstrip s))).

(** Lexicographic order on code points: [s < t] and [s <= t] on [str]. *)
Fixpoint str_lt (s t : pystr) : bool :=
  match s, t with
  | _, [] => false
  | [], _ :: _ => true
  | x :: s', y :: t' => (x <? y)%N || (x =? y)%N && str_lt s' t'
  end.

Definition str_le (s t : pystr) : bool := negb (str_lt t s).

(** ** [int(s, base)] and number formatting *)

Definition digit_value (c : N) : option Z :=
  if ((48 <=? c) && (c <=? 57))%N then Some (Z.of_N (c - 48))
  else if ((97 <=? c) && (c <=? 122))%N then Some (Z.of_N (c - 87))
  else if ((65 <=? c) && (c <=? 90))%N then Some (Z.of_N (c - 55))
  else None.

(** Digits of one literal: single underscores may separate digits, and
    at least one digit is required. [prev] tells whether the previous
    character was a digit. *)
Fixpoint int_digits (base : Z) (s : pystr) (acc : Z) (prev : bool) : option Z :=
  match s with
  | [] => if prev then Some acc else None
  | c :: t =>
      if (c =? 95)%N then
        if prev then
          match t with
          | [] => None
          | _ :: _ => int_digits base t acc false
          end
        else None
      else
        match digit_value c with
        | Some d =>
            if (d <? base)%Z then int_digits base t (acc * base + d)%Z true
            else None
        | None => None
        end
  end.

(** The white space [int] skips at both ends of the text it parses. *)
Definition int_space (c : N) : bool :=
  ((9 <=? c) && (c <=? 13) || (c =? 32))%N.

Fixpoint int_lstrip (s : pystr) : pystr :=
  match s with
  | c :: t => if int_space c then int_lstrip t else s
  | [] => []
  end.

Definition int_strip (s : pystr) : pystr :=
  rev (int_lstrip (rev (int_lstrip s))).

(** The code points of the zero digits of the decimal digits of Unicode
    14.0.0 (the data of CPython 3.11); each is followed by its digits 1
    to 9. *)
Definition decimal_zeros : list N :=
  [48; 1632; 1776; 1984; 2406; 2534; 2662; 2790; 2918; 3046; 3174; 3302;
   3430; 3558; 3664; 3792; 3872; 4160; 4240; 6112; 6160; 6470; 6608;
   6784; 6800; 6992; 7088; 7232; 7248; 42528; 43216; 43264; 43472; 43504;
   43600; 44016; 65296; 66720; 68912; 69734; 69872; 69942; 70096; 70384;
   70736; 70864; 71248; 71360; 71472; 71904; 72016; 72784; 73040; 73120;
   92768; 92864; 93008; 120782; 120792; 120802; 120812; 120822; 123200;
   123632; 125264; 130032]%N.

(** The value of a decimal digit of any script. *)
Definition unicode_decimal (c : N) : option N :=
  match List.find (fun z => (z <=? c) && (c <? z + 10))%N decimal_zeros with
  | Some z => Some (c - z)%N
  | None => None
  end.

(** What [int] makes of a string that is not ASCII before it parses it:
    code points below 127 stay, white space becomes a space, a decimal
    digit its ASCII digit, and the string ends with a question mark at
    the first other character. *)
Fixpoint int_transform (s : pystr) : pystr :=
  match s with
  | [] => []
  | c :: t =>
      if (c <? 127)%N then c :: int_transform t
      else if isspace c then 32%N :: int_transform t
      else match unicode_decimal c with
           | Some d => (48 + d)%N :: int_transform t
           | None => [63%N]
           end
  end.

(** [int(s, base)] for [base] 10 or 16: surrounding white space, an
    optional sign, for base 16 an optional [0x] prefix (which may be
    followed by one underscore), then digits. The interpreter's limit on
    the number of decimal digits ([sys.set_int_max_str_digits], 4300
    unless it is changed) is not applied: [str(len(data))] and [int] of it
    are taken as they are for every length, and a theorem about [int] of
    other decimal text bounds the length of the text. *)
Definition py_int (s : pystr) (base : Z) : result Z :=
  let s0 := if forallb (fun c => (c <? 128)%N) s then s else int_transform s in
  let s1 := int_strip s0 in
  let '(sign, s2) :=
    match s1 with
    | 43%N :: t => (1%Z, t)
    | 45%N :: t => ((-1)%Z, t)
    | _ => (1%Z, s1)
    end in
  let parsed :=
    match s2 with
    | 48%N :: x :: t =>
        if ((base =? 16)%Z && ((x =? 120) || (x =? 88))%N)%bool then
          match t with
          | 95%N :: t' => int_digits base t' 0 false
          | _ => int_digits base t 0 false
          end
        else int_digits base s2 0 false
    | _ => int_digits base s2 0 false
    end in
  match parsed with
  | Some n => Ok (sign * n)%Z
  | None => Raise ValueError
  end.

(** [int(s, base)] as the interpreter evaluates it unless its limit was
    changed: a decimal literal of more than 4300 digits is refused. *)
Definition int_max_str_digits : nat := 4300.

Definition int_default (s : pystr) (base : Z) : result Z :=
  let s0 := if forallb (fun c => (c <? 128)%N) s then s else int_transform s in
  let digits := List.filter (fun c => (48 <=? c) && (c <=? 57))%N s0 in
  if ((base =? 10)%Z && (int_max_str_digits <? length digits)%nat)%bool
  then Raise ValueError
  else py_int s base.

Definition digit_char (d : Z) : N :=
  if (d <? 10)%Z then Z.to_N (48 + d) else Z.to_N (87 + d).

(** The [k] least significant digits of [n] in [base], most significant
    first. *)
Fixpoint digits_fixed (base : Z) (k : nat) (n : Z) : pystr :=
  match k with
  | O => []
  | S k' => digits_fixed base k' (n / base) ++ [digit_char (n mod base)]
  end.

Fixpoint ndigits (base : Z) (fuel : nat) (n : Z) : nat :=
  match fuel with
  | O => O
  | S f => if (n <? base)%Z then 1%nat else S (ndigits base f (n / base))
  end.

(** The number of digits of [n >= 0] in [base]; a number has at most as
    many digits as bits. *)
Definition width (base n : Z) : nat :=
  ndigits base (S (Z.to_nat (Z.log2 n))) n.

(** [str(n)] for a length, [n >= 0]. *)
Definition str_of_nat (n : nat) : pystr :=
  let z := Z.of_nat n in digits_fixed 10 (width 10 z) z.

(** [format(n, "040x")] for [n >= 0]. *)
Definition format_040x (n : Z) : pystr :=
  digits_fixed 16 (Nat.max 40 (width 16 n)) n.

(** [int.from_bytes(bs, "big")] *)
Definition from_bytes (bs : bytes) : Z :=
  fold_left (fun acc c => (acc * 256 + Z.of_N (ord c))%Z) bs 0%Z.

Fixpoint be_bytes (k : nat) (n : Z) : bytes :=
  match k with
  | O => []
  | S k' => be_bytes k' (n / 256) ++ [ascii_of_N (Z.to_N (n mod 256))]
  end.

(** [n.to_bytes(k, byteorder="big")] *)
Definition to_bytes (n : Z) (k : nat) : result bytes :=
  if ((n <? 0) || (256 ^ Z.of_nat k <=? n))%Z then Raise OverflowError
  else Ok (be_bytes k n).

(** ** Text codecs *)

(** [bs.decode("ascii")] *)
Definition decode_ascii (bs : bytes) : result pystr :=
  if forallb (fun c => (ord c <? 128)%N) bs then Ok (map ord bs)
  else Raise UnicodeDecodeError.

Definition cont (c : ascii) : option N :=
  let n := ord c in
  if ((128 <=? n) && (n <=? 191))%N then Some (n - 128)%N else None.

Definition in_range (lo hi : N) (c : ascii) : bool :=
  ((lo <=? ord c) && (ord c <=? hi))%N.

(** The strict UTF-8 decoder: [None] on truncated, overlong, surrogate or
    out-of-range sequences. *)
Fixpoint utf8_decode (bs : bytes) : option pystr :=
  match bs with
  | [] => Some []
  | b0 :: t =>
      let n0 := ord b0 in
      if (n0 <? 128)%N then cons n0 <$> utf8_decode t
      else if in_range 194 223 b0 then
        match t with
        | b1 :: t1 =>
            match cont b1 with
            | Some c1 => cons ((n0 - 192) * 64 + c1)%N <$> utf8_decode t1
            | None => None
            end
        | _ => None
        end
      else if in_range 224 239 b0 then
        match t with
        | b1 :: b2 :: t2 =>
            let lo := if (n0 =? 224)%N then 160%N else 128%N in
            let hi := if (n0 =? 237)%N then 159%N else 191%N in
            if in_range lo hi b1 then
              match cont b1, cont b2 with
              | Some c1, Some c2 =>
                  cons ((n0 - 224) * 4096 + c1 * 64 + c2)%N <$> utf8_decode t2
              | _, _ => None
              end
            else None
        | _ => None
        end
      else if in_range 240 244 b0 then
        match t with
        | b1 :: b2 :: b3 :: t3 =>
            let lo := if (n0 =? 240)%N then 144%N else 128%N in
            let hi := if (n0 =? 244)%N then 143%N else 191%N in
            if in_range lo hi b1 then
              match cont b1, cont b2, cont b3 with
              | Some c1, Some c2, Some c3 =>
                  cons ((n0 - 240) * 262144 + c1 * 4096 + c2 * 64 + c3)%N
                    <$> utf8_decode t3
              | _, _, _ => None
              end
            else None
        | _ => None
        end
      else None
  end.

(** [bs.decode("utf8")] *)
Definition decode_utf8 (bs : bytes) : result pystr :=
  match utf8_decode bs with
  | Some s => Ok s
  | None => Raise UnicodeDecodeError
  end.

Definition chr (n : N) : ascii := ascii_of_N n.

Definition utf8_encode_char (c : N) : option bytes :=
  if (c <? 128)%N then Some [chr c]
  else if (c <? 2048)%N then
    Some [chr (192 + c / 64); chr (128 + c mod 64)]
  else if (c <? 65536)%N then
    if ((55296 <=? c) && (c <=? 57343))%N then None
    else Some [chr (224 + c / 4096); chr (128 + (c / 64) mod 64);
               chr (128 + c mod 64)]
  else if (c <? 1114112)%N then
    Some [chr (240 + c / 262144); chr (128 + (c / 4096) mod 64);
          chr (128 + (c / 64) mod 64); chr (128 + c mod 64)]
  else None.

Fixpoint utf8_encode (s : pystr) : option bytes :=
  match s with
  | [] => Some []
  | c :: t =>
      match utf8_encode_char c, utf8_encode t with
      | Some x, Some y => Some (x ++ y)
      | _, _ => None
      end
  end.

(** [s.encode("utf8")]; lone surrogates cannot be encoded. *)
Definition encode_utf8 (s : pystr) : result bytes :=
  match utf8_encode s with
  | Some bs => Ok bs
  | None => Raise UnicodeEncodeError
  end.

(** ** [hashlib.sha1] *)

Module Sha1.
Local Open Scope Z_scope.

Definition w32 (x : Z) : Z := x mod 4294967296.
Definition rotl (n x : Z) : Z :=
  w32 (Z.lor (Z.shiftl x n) (Z.shiftr (w32 x) (32 - n))).

Record state := State { h0 : Z; h1 : Z; h2 : Z; h3 : Z; h4 : Z }.

Definition init : state :=
  State 0x67452301 0xEFCDAB89 0x98BADCFE 0x10325476 0xC3D2E1F0.

(** Padding: the bit [1], zeros up to 56 modulo 64, then the bit length
    as a 64-bit big-endian number. *)
Definition pad (msg : bytes) : bytes :=
  let n := Z.of_nat (length msg) in
  let zeros := Z.to_nat ((55 - n) mod 64) in
  msg ++ [ascii_of_N 128] ++ repeat NUL zeros ++ be_bytes 8 (8 * n).

Fixpoint words (k : nat) (bs : bytes) : list Z :=
  match k with
  | O => []
  | S k' => from_bytes (firstn 4 bs) :: words k' (skipn 4 bs)
  end.

(** The message schedule, most recent word first. *)
Fixpoint schedule (k : nat) (w : list Z) : list Z :=
  match k with
  | O => w
  | S k' =>
      let x := Z.lxor (Z.lxor (nth 2 w 0) (nth 7 w 0))
                      (Z.lxor (nth 13 w 0) (nth 15 w 0)) in
      schedule k' (rotl 1 x :: w)
  end.

Definition f (t : nat) (x y z : Z) : Z :=
  if (t <? 20)%nat then Z.lor (Z.land x y) (Z.land (Z.lxor x 0xFFFFFFFF) z)
  else if (t <? 40)%nat then Z.lxor (Z.lxor x y) z
  else if (t <? 60)%nat then
    Z.lor (Z.lor (Z.land x y) (Z.land x z)) (Z.land y z)
  else Z.lxor (Z.lxor x y) z.

Definition K (t : nat) : Z :=
  if (t <? 20)%nat then 0x5A827999
  else if (t <? 40)%nat then 0x6ED9EBA1
  else if (t <? 60)%nat then 0x8F1BBCDC
  else 0xCA62C1D6.

Fixpoint rounds (t : nat) (ws : list Z) (s : state) : state :=
  match ws with
  | [] => s
  | w :: ws' =>
      let 'State a b0 c d e := s in
      let tmp := w32 (rotl 5 a + f t b0 c d + e + K t + w) in
      rounds (S t) ws' (State tmp a (rotl 30 b0) c d)
  end.

Definition compress (s : state) (block : bytes) : state :=
  let ws := rev (schedule 64 (rev (words 16 block))) in
  let 'State a b0 c d e := rounds 0 ws s in
  State (w32 (h0 s + a)) (w32 (h1 s + b0)) (w32 (h2 s + c))
        (w32 (h3 s + d)) (w32 (h4 s + e)).

Fixpoint blocks (k : nat) (bs : bytes) (s : state) : state :=
  match k with
  | O => s
  | S k' => blocks k' (skipn 64 bs) (compress s (firstn 64 bs))
  end.

Definition digest (msg : bytes) : state :=
  let p := pad msg in blocks (length p / 64) p init.

Definition hex8 (w : Z) : pystr := digits_fixed 16 8 w.

(** [hashlib.sha1(msg).hexdigest()] *)
Definition hexdigest (msg : bytes) : pystr :=
  let 'State a b0 c d e := digest msg in
  hex8 a ++ hex8 b0 ++ hex8 c ++ hex8 d ++ hex8 e.
End Sha1.

(** ** [os.path] and the file system *)

Definition SLASH : N := 47%N.

(** One step of [os.path.join]: an absolute component restarts the path,
    and a separator is inserted unless the path is empty or already ends
    with one. *)
Definition join1 (path c : pystr) : pystr :=
  if startswith c [SLASH] then c
  else match last path with
       | None => path ++ c
       | Some x => if (x =? SLASH)%N then path ++ c else path ++ [SLASH] ++ c
       end.

(** [os.path.join(a, *p)] *)
Definition os_path_join (a : pystr) (p : list pystr) : pystr :=
  fold_left join1 p a.

(** What a path names. The file system maps the path strings the module
    builds to nodes; it does not relate a path to its parent directory
    (the module creates the directory of an object before it writes the
    object). A string stands for itself: two strings name the same node
    only if they are equal, as it is for the absolute paths of plain
    names that [os.path.realpath] returns, on a file system that
    distinguishes case and has no links. What a call leaves unchanged is
    stated for such paths, and an identity in a path is forty
    hexadecimal digits. *)
Inductive node : Type :=
  | Dir
  | File (content : bytes).

Abbreviation filesystem := (gmap pystr node).

Definition exists_ (fs : filesystem) (p : pystr) : bool :=
  match fs !! p with Some _ => true | None => false end.
Definition isfile (fs : filesystem) (p : pystr) : bool :=
  match fs !! p with Some (File _) => true | _ => false end.

(** [os.makedirs(p)], which the module calls on a path that does not
    exist. *)
Definition makedirs (fs : filesystem) (p : pystr) : result filesystem :=
  match fs !! p with
  | Some _ => Raise FileExistsError
  | None => Ok (<[p := Dir]> fs)
  end.

(** [with open(p, "wb") as f: f.write(data)] *)
Definition write_file (fs : filesystem) (p : pystr) (data : bytes)
  : result filesystem :=
  match fs !! p with
  | Some Dir => Raise IsADirectoryError
  | _ => Ok (<[p := File data]> fs)
  end.

(** The regular files of a file system. *)
Definition is_file (n : node) : bool :=
  match n with File _ => true | Dir => false end.

Definition files (fs : filesystem) : gset pystr :=
  dom (filter (fun kv : pystr * node => is_file kv.2 = true) fs).

(** * The KVLM codec *)

(** A value of the mapping is a byte string or a list. *)
Inductive pyval : Type :=
  | VBytes (v : bytes)
  | VList (vs : list pyval).

(** The [OrderedDict]: keys in insertion order; the key [None] holds the
    message. *)
Abbreviation kvlm := (list (option bytes * pyval)).

Fixpoint dict_get (d : kvlm) (k : option bytes) : option pyval :=
  match d with
  | [] => None
  | (k', v) :: t => if decide (k' = k) then Some v else dict_get t k
  end.

(** [d[k] = v]: an existing key keeps its position. *)
Fixpoint dict_set (d : kvlm) (k : option bytes) (v : pyval) : kvlm :=
  match d with
  | [] => [(k, v)]
  | (k', v') :: t =>
      if decide (k' = k) then (k, v) :: t else (k', v') :: dict_set t k v
  end.

(** The [while True] loop of [kvlm_parse] that looks for the end of the
    value: [end = raw.find(b"\n", end + 1)] until [raw[end + 1]] is not a
    space. *)
Fixpoint scan_end (fuel : nat) (raw : bytes) (e : Z) : M Z :=
  match fuel with
  | O => None
  | S f =>
      let e' := find raw LF (e + 1) in
      (let* c := lift (getitem raw (e' + 1)) in
       if negb (ord c =? ord SP)%N then mret e' else scan_end f raw e')%py
  end.

(** [kvlm_parse(raw, start, dct)]. [if not dct: dct = OrderedDict()] maps
    [None] and the empty mapping to the empty list. [dct[key] is list]
    compares the stored value with the type object [list] and is false for
    every value the parser stores. *)
Fixpoint kvlm_parse (fuel : nat) (raw : bytes) (start : Z) (dct : kvlm)
  : M kvlm :=
  match fuel with
  | O => None
  | S f =>
      let spc := find raw SP start in
      let nl := find raw LF start in
      if ((spc <? 0) || (nl <? spc))%Z then
        if (nl =? start)%Z
        then mret (dict_set dct None (VBytes (slice_from raw (start + 1))))
        else mraise AssertionError
      else
        let key := slice raw start spc in
        (let* e := scan_end f raw start in
         let value := replace (slice raw (spc + 1) e) [LF; SP] [LF] in
         let dct' :=
           match dict_get dct (Some key) with
           | Some old => dict_set dct (Some key) (VList [old; VBytes value])
           | None => dict_set dct (Some key) (VBytes value)
           end in
         kvlm_parse f raw (e + 1) dct')%py
  end.

(** One iteration of the [for k in kvlm.keys()] loop. [val is not list] is
    true for every value, so [val] is always wrapped into a one-element
    list, and [v.replace] is applied to the stored value itself. *)
Definition kvlm_serialize_key (d : kvlm) (ret : bytes) (k : option bytes)
  : result bytes :=
  match k with
  | None | Some [] => Ok ret
  | Some kb =>
      match dict_get d k with
      | None => Raise KeyError
      | Some (VBytes v) => Ok (ret ++ kb ++ [SP] ++ replace v [LF] [LF; SP] ++ [LF])
      | Some (VList _) => Raise AttributeError
      end
  end.

(** [kvlm_serialize(kvlm)] *)
Definition kvlm_serialize (d : kvlm) : result bytes :=
  (let+ ret := fold_left (fun acc k => let+ ret := acc in kvlm_serialize_key d ret k)
                 (map fst d) (Ok []) in
   match dict_get d None with
   | None => Raise KeyError
   | Some (VBytes m) => Ok (ret ++ [LF] ++ m ++ [LF])
   | Some (VList _) => Raise TypeError
   end)%py.

(** * The tree codec *)

Record GitTreeLeaf := { mode : bytes; path : pystr; sha : pystr }.

(** [tree_parse_one(raw, start)] *)
Definition tree_parse_one (raw : bytes) (start : Z) : result (Z * GitTreeLeaf) :=
  let x := find raw SP start in
  if negb ((x - start =? 5) || (x - start =? 6))%Z then Raise AssertionError
  else
    let mode := slice raw start x in
    let mode := if (len mode =? 5)%Z then SP :: mode else mode in
    let y := find raw NUL x in
    let path := slice raw (x + 1) y in
    let sha := format_040x (from_bytes (slice raw (y + 1) (y + 21))) in
    (let+ p := decode_utf8 path in
     Ok ((y + 21)%Z, {| mode := mode; path := p; sha := sha |}))%py.

Fixpoint tree_parse_loop (fuel : nat) (raw : bytes) (pos : Z)
    (ret : list GitTreeLeaf) : M (list GitTreeLeaf) :=
  match fuel with
  | O => None
  | S f =>
      if (pos <? len raw)%Z then
        (let* r := lift (tree_parse_one raw pos) in
         tree_parse_loop f raw r.1 (ret ++ [r.2]))%py
      else mret ret
  end.

(** [tree_parse(raw)] *)
Definition tree_parse (fuel : nat) (raw : bytes) : M (list GitTreeLeaf) :=
  tree_parse_loop fuel raw 0 [].

(** [tree_leaf_sort_key(leaf)] *)
Definition tree_leaf_sort_key (leaf : GitTreeLeaf) : pystr :=
  if startswith (mode leaf) (b "10") then path leaf
  else path leaf ++ u "/".

(** [list.sort(key=...)] is a stable sort: an element goes in front of the
    first element whose key is not smaller. *)
Section Sort.
Context {A : Type} (key : A -> pystr).

Fixpoint insert_by (x : A) (l : list A) : list A :=
  match l with
  | [] => [x]
  | y :: t =>
      if str_le (key x) (key y) then x :: y :: t else y :: insert_by x t
  end.

Definition sort_by (l : list A) : list A := fold_right insert_by [] l.
End Sort.

(** The bytes of one entry, in the order the source appends them. *)
Definition tree_entry (ret : bytes) (i : GitTreeLeaf) : result bytes :=
  (let+ p := encode_utf8 (path i) in
   let+ n := py_int (sha i) 16 in
   let+ s := to_bytes n 20 in
   Ok (ret ++ mode i ++ [SP] ++ p ++ [NUL] ++ s))%py.

(** [tree_serialize(obj)] on [obj.items]: the list is sorted in place, so
    the sorted list is returned along with the bytes. *)
Definition tree_serialize (items : list GitTreeLeaf)
  : list GitTreeLeaf * result bytes :=
  let items' := sort_by tree_leaf_sort_key items in
  (items', fold_left (fun acc i => let+ ret := acc in tree_entry ret i)%py
             items' (Ok [])).

(** * The object classes *)

(** [GitBlob], [GitCommit], [GitTree] and [GitTag] with their instance
    attributes. A blob whose [blobdata] was never assigned carries [None]. *)
Inductive GitObject : Type :=
  | GitBlob (blobdata : option bytes)
  | GitCommit (kvlm_ : kvlm)
  | GitTree (items : list GitTreeLeaf)
  | GitTag (kvlm_ : kvlm).

Definition fmt (obj : GitObject) : bytes :=
  match obj with
  | GitBlob _ => b "blob"
  | GitCommit _ => b "commit"
  | GitTree _ => b "tree"
  | GitTag _ => b "tag"
  end.

(** [if data:] in [GitObject.__init__]: [None] and [b""] are both false. *)
Definition truthy (data : option bytes) : bool :=
  match data with
  | Some (_ :: _) => true
  | _ => false
  end.

Definition payload (data : option bytes) : bytes := default [] data.

(** [GitBlob(data)]: [deserialize] assigns [blobdata] when [data] is true. *)
Definition GitBlob_init (data : option bytes) : M GitObject :=
  if truthy data then mret (GitBlob (Some (payload data)))
  else mret (GitBlob None).

(** [GitCommit(data)]: [super().__init__(data)] runs [deserialize], then
    [self.kvlm = dict()] is assigned. *)
Definition GitCommit_init (fuel : nat) (data : option bytes) : M GitObject :=
  (let* _ := if truthy data then kvlm_parse fuel (payload data) 0 []
             else mret [] in
   mret (GitCommit []))%py.

(** [GitTree(data)]: [super().__init__(data)] runs [deserialize], then
    [self.items = list()] is assigned. *)
Definition GitTree_init (fuel : nat) (data : option bytes) : M GitObject :=
  (let* _ := if truthy data then tree_parse fuel (payload data)
             else mret [] in
   mret (GitTree []))%py.

(** [GitTag(data)] inherits [GitCommit.__init__]. *)
Definition GitTag_init (fuel : nat) (data : option bytes) : M GitObject :=
  (let* _ := if truthy data then kvlm_parse fuel (payload data) 0 []
             else mret [] in
   mret (GitTag []))%py.

(** [obj.serialize()], with the object as the call leaves it. *)
Definition serialize (obj : GitObject) : GitObject * result bytes :=
  match obj with
  | GitBlob (Some data) => (obj, Ok data)
  | GitBlob None => (obj, Raise AttributeError)
  | GitCommit d => (obj, kvlm_serialize d)
  | GitTag d => (obj, kvlm_serialize d)
  | GitTree its => let r := tree_serialize its in (GitTree r.1, r.2)
  end.

(** * The object store *)

Record GitRepository := { worktree : pystr; gitdir : pystr }.

(** [zlib.compress] and [zlib.decompress] *)
Class Zlib := {
  zlib_compress : bytes -> bytes;
  zlib_decompress : bytes -> result bytes
}.

(** [repo_path(repo, *path)] *)
Definition repo_path (repo : GitRepository) (path_ : list pystr) : pystr :=
  os_path_join (gitdir repo) path_.

(** [repo_dir(repo, *path, mkdir)] *)
Definition repo_dir (repo : GitRepository) (path_ : list pystr) (mkdir : bool)
    (fs : filesystem) : filesystem * result (option pystr) :=
  let full_path := repo_path repo path_ in
  match fs !! full_path with
  | Some Dir => (fs, Ok (Some full_path))
  | Some (File _) =>
      (fs, Raise (Exception (u "Not a directory " ++ full_path)))
  | None =>
      if mkdir then
        match makedirs fs full_path with
        | Ok fs' => (fs', Ok (Some full_path))
        | Raise e => (fs, Raise e)
        end
      else (fs, Ok None)
  end.

(** [repo_file(repo, *path, mkdir)]: the path when [repo_dir] returns a
    non-empty string, [None] otherwise. *)
Definition repo_file (repo : GitRepository) (path_ : list pystr) (mkdir : bool)
    (fs : filesystem) : filesystem * result (option pystr) :=
  match repo_dir repo (removelast path_) mkdir fs with
  | (fs', Ok (Some (_ :: _))) => (fs', Ok (Some (repo_path repo path_)))
  | (fs', Ok _) => (fs', Ok None)
  | (fs', Raise e) => (fs', Raise e)
  end.

Definition object_path (sha_ : pystr) : list pystr :=
  [u "objects"; slice sha_ 0 2; slice_from sha_ 2].

Section Store.
Context `{Zlib}.

(** The body of the [with] block of [object_read], from the decompressed
    bytes on. The message of the last [raise] decodes [fmt] first. *)
Definition object_of_raw (fuel : nat) (sha_ : pystr) (raw : bytes)
  : M GitObject :=
  (let x := find raw SP 0 in
   let fmt_ := slice raw 0 x in
   let y := find raw NUL x in
   let* digits := lift (decode_ascii (slice raw x y)) in
   let* size := lift (py_int digits 10) in
   if negb (size =? len raw - y - 1)%Z then
     mraise (Exception (u "Malformed object " ++ sha_ ++ u ": bad length"))
   else
     let data := Some (slice_from raw (y + 1)) in
     if decide (fmt_ = b "commit") then GitCommit_init fuel data
     else if decide (fmt_ = b "tree") then GitTree_init fuel data
     else if decide (fmt_ = b "tag") then GitTag_init fuel data
     else if decide (fmt_ = b "blob") then GitBlob_init data
     else
       let* t := lift (decode_ascii fmt_) in
       mraise (Exception (u "Unknown type " ++ t ++ u " for object " ++ sha_)))%py.

(** [object_read(repo, sha)]. [os.path.isfile(None)] raises [TypeError]. *)
Definition object_read (fuel : nat) (repo : GitRepository) (sha_ : pystr)
    (fs : filesystem) : M GitObject :=
  (let* path_ := lift (repo_file repo (object_path sha_) false fs).2 in
   match path_ with
   | None => mraise TypeError
   | Some p =>
       match fs !! p with
       | Some (File content) =>
           let* raw := lift (zlib_decompress content) in
           object_of_raw fuel sha_ raw
       | _ => mraise (Exception (u "Object " ++ sha_ ++ u " not found!"))
       end
   end)%py.

(** The frame [obj.fmt + b" " + str(len(data)).encode() + b"\x00" + data]. *)
Definition frame (fmt_ data : bytes) : result bytes :=
  (let+ n := encode_utf8 (str_of_nat (length data)) in
   Ok (fmt_ ++ [SP] ++ n ++ [NUL] ++ data))%py.

(** [object_write(obj, repo)]: the object and the file system as the call
    leaves them, and the identity or the exception. *)
Definition object_write (obj : GitObject) (repo : option GitRepository)
    (fs : filesystem) : GitObject * filesystem * result pystr :=
  let '(obj', r) := serialize obj in
  match (let+ data := r in frame (fmt obj) data)%py with
  | Raise e => (obj', fs, Raise e)
  | Ok result_ =>
      let sha_ := Sha1.hexdigest result_ in
      match repo with
      | None => (obj', fs, Ok sha_)
      | Some repo_ =>
          match repo_file repo_ (object_path sha_) true fs with
          | (fs1, Raise e) => (obj', fs1, Raise e)
          | (fs1, Ok None) => (obj', fs1, Raise TypeError)
          | (fs1, Ok (Some p)) =>
              if exists_ fs1 p then (obj', fs1, Ok sha_)
              else
                match write_file fs1 p (zlib_compress result_) with
                | Ok fs2 => (obj', fs2, Ok sha_)
                | Raise e => (obj', fs1, Raise e)
                end
          end
      end
  end.

(** * Commit-graph traversal *)

(** The caller-owned [seen] set and the lines printed so far. *)
Record log_state := { seen : gset pystr; printed : list pystr }.

Definition mark (sha_ : pystr) (st : log_state) : log_state :=
  {| seen := {[sha_]} ∪ seen st; printed := printed st |}.
Definition print (l : pystr) (st : log_state) : log_state :=
  {| seen := seen st; printed := printed st ++ [l] |}.

Definition QUOTE : N := 34%N.
Definition BACKSLASH : N := 92%N.

(** The label text: decoded, stripped, escaped, cut at the first newline. *)
Definition label (m : bytes) : result pystr :=
  (let+ message := decode_utf8 m in
   let message := strip message in
   let message := replace message [BACKSLASH] [BACKSLASH; BACKSLASH] in
   let message := replace message [QUOTE] [BACKSLASH; QUOTE] in
   Ok (if contains message 10%N then slice message 0 (index message 10%N)
       else message))%py.

(** [isinstance(commit, GitCommit)]; [GitTag] is a subclass. *)
Definition commit_kvlm (obj : GitObject) : option kvlm :=
  match obj with
  | GitCommit d | GitTag d => Some d
  | _ => None
  end.

(** [log_graphviz(repo, sha, seen)]. [parents is not list] is true for
    every value, so the loop runs once, on the stored value itself. *)
Fixpoint log_graphviz (fuel : nat) (repo : GitRepository) (sha_ : pystr)
    (st : log_state) (fs : filesystem) : option (log_state * result unit) :=
  match fuel with
  | O => None
  | S f =>
      if decide (sha_ ∈ seen st) then Some (st, Ok tt)
      else
        let st := mark sha_ st in
        match object_read f repo sha_ fs with
        | None => None
        | Some (Raise e) => Some (st, Raise e)
        | Some (Ok commit) =>
            match commit_kvlm commit with
            | None => Some (st, Raise AssertionError)
            | Some d =>
                let short_hash := slice sha_ 0 8 in
                match dict_get d None with
                | None => Some (st, Raise KeyError)
                | Some (VList _) => Some (st, Raise AttributeError)
                | Some (VBytes m) =>
                    match label m with
                    | Raise e => Some (st, Raise e)
                    | Ok message =>
                        let st :=
                          print (u "  c_" ++ sha_ ++ u " [label=" ++ [QUOTE]
                                 ++ short_hash ++ u ": " ++ message
                                 ++ [QUOTE] ++ u "]") st in
                        match dict_get d (Some (b "parent")) with
                        | None => Some (st, Ok tt)
                        | Some parents =>
                            (fix loop (ps : list pyval) (st : log_state) :=
                               match ps with
                               | [] => Some (st, Ok tt)
                               | VList _ :: _ => Some (st, Raise AttributeError)
                               | VBytes pb :: ps' =>
                                   match decode_ascii pb with
                                   | Raise e => Some (st, Raise e)
                                   | Ok p =>
                                       let st :=
                                         print (u "  c_" ++ sha_ ++ u " -> c_" ++ p) st in
                                       match log_graphviz f repo p st fs with
                                       | Some (st', Ok _) => loop ps' st'
                                       | other => other
                                       end
                                   end
                               end) [parents] st
                        end
                    end
                end
            end
        end
  end.
End Store.

(** * The other functions of the module *)

(** [os.mkdir(p)] *)
Definition mkdir (fs : filesystem) (p : pystr) : result filesystem :=
  match fs !! p with
  | Some _ => Raise FileExistsError
  | None => Ok (<[p := Dir]> fs)
  end.

(** [object_find(repo, name, fmt)] *)
Definition object_find (repo : GitRepository) (name : pystr)
    (fmt_ : option bytes) : pystr := name.

(** [repr] of a byte string, as an f-string formats it: [b'...'], in double
    quotes when the bytes hold a single quote and no double quote. *)
Definition repr_byte (quote : N) (c : ascii) : pystr :=
  let n := ord c in
  if ((n =? quote) || (n =? 92))%N then [92%N; n]
  else if (n =? 9)%N then u "\t"
  else if (n =? 10)%N then u "\n"
  else if (n =? 13)%N then u "\r"
  else if ((n <? 32) || (127 <=? n))%N then u "\x" ++ digits_fixed 16 2 (Z.of_N n)
  else [n].

Definition repr_bytes (bs : bytes) : pystr :=
  let quote :=
    if contains (map ord bs) 39%N && negb (contains (map ord bs) 34%N)
    then 34%N else 39%N in
  u "b" ++ [quote] ++ flat_map (repr_byte quote) bs ++ [quote].

(** The type of an entry in [ls_tree]: the first byte of a five-byte mode,
    the first two bytes otherwise, matched against [04], [10], [12], [16]. *)
Definition ls_tree_type (item : GitTreeLeaf) : result pystr :=
  let m := if (len (mode item) =? 5)%Z then slice (mode item) 0 1
           else slice (mode item) 0 2 in
  if decide (m = b "04") then Ok (u "tree")
  else if decide (m = b "10") then Ok (u "blob")
  else if decide (m = b "12") then Ok (u "blob")
  else if decide (m = b "16") then Ok (u "commit")
  else
    (let+ t := decode_ascii (mode item) in
     Raise (Exception (u "Weird tree lead mode " ++ t)))%py.

(** The line [ls_tree] prints for a leaf. *)
Definition ls_tree_line (item : GitTreeLeaf) (type_ prefix : pystr)
  : result pystr :=
  (let+ t := decode_ascii (mode item) in
   Ok (repeat 48%N (Z.to_nat (6 - len (mode item))) ++ t ++ type_ ++ u " "
       ++ sha item ++ [9%N] ++ join1 prefix (path item)))%py.

Section Commands.
Context `{Zlib}.

(** [object_hash(fd, fmt, repo)] on the bytes [fd.read()] returns. The
    object of the result is the one [object_write] leaves, when one was
    made. *)
Definition object_hash (fuel : nat) (data fmt_ : bytes)
    (repo : option GitRepository) (fs : filesystem)
  : option (filesystem * result pystr) :=
  let made :=
    if decide (fmt_ = b "commit") then GitCommit_init fuel (Some data)
    else if decide (fmt_ = b "tree") then GitTree_init fuel (Some data)
    else if decide (fmt_ = b "tag") then GitTag_init fuel (Some data)
    else if decide (fmt_ = b "blob") then GitBlob_init (Some data)
    else mraise (Exception (u "Unknown type " ++ repr_bytes fmt_ ++ u "!")) in
  match made with
  | None => None
  | Some (Raise e) => Some (fs, Raise e)
  | Some (Ok obj) =>
      let r := object_write obj repo fs in Some (r.1.2, r.2)
  end.

(** [cat_file(repo, obj, fmt)]: the bytes written to standard output. *)
Definition cat_file (fuel : nat) (repo : GitRepository) (obj : pystr)
    (fmt_ : option bytes) (fs : filesystem) : M bytes :=
  (let* gobj := object_read fuel repo (object_find repo obj fmt_) fs in
   lift (serialize gobj).2)%py.

(** [ls_tree(repo, ref, recursive, prefix)], with the lines printed. *)
Fixpoint ls_tree (fuel : nat) (repo : GitRepository) (ref : pystr)
    (recursive : bool) (prefix : pystr) (fs : filesystem) (out : list pystr)
  : option (list pystr * result unit) :=
  match fuel with
  | O => None
  | S f =>
      let sha_ := object_find repo ref (Some (b "tree")) in
      match object_read f repo sha_ fs with
      | None => None
      | Some (Raise e) => Some (out, Raise e)
      | Some (Ok (GitTree its)) =>
          (fix loop (its : list GitTreeLeaf) (out : list pystr) :=
             match its with
             | [] => Some (out, Ok tt)
             | item :: rest =>
                 match ls_tree_type item with
                 | Raise e => Some (out, Raise e)
                 | Ok type_ =>
                     if negb (recursive && bool_decide (type_ = u "tree")) then
                       match ls_tree_line item type_ prefix with
                       | Raise e => Some (out, Raise e)
                       | Ok l => loop rest (out ++ [l])
                       end
                     else
                       match ls_tree f repo (sha item) recursive
                               (join1 prefix (path item)) fs out with
                       | Some (out', Ok _) => loop rest out'
                       | other => other
                       end
                 end
             end) its out
      | Some (Ok _) => Some (out, Raise AssertionError)
      end
  end.

(** [tree_checkout(repo, tree, path)] on [tree.items]. Opening the
    destination creates the file before [obj.blobdata] is looked up. *)
Fixpoint tree_checkout (fuel : nat) (repo : GitRepository)
    (its : list GitTreeLeaf) (path_ : pystr) (fs : filesystem)
  : option (filesystem * result unit) :=
  match fuel with
  | O => None
  | S f =>
      (fix loop (its : list GitTreeLeaf) (fs : filesystem) :=
         match its with
         | [] => Some (fs, Ok tt)
         | item :: rest =>
             match object_read f repo (sha item) fs with
             | None => None
             | Some (Raise e) => Some (fs, Raise e)
             | Some (Ok obj) =>
                 let dest := join1 path_ (path item) in
                 match obj with
                 | GitTree sub =>
                     match mkdir fs dest with
                     | Raise e => Some (fs, Raise e)
                     | Ok fs1 =>
                         match tree_checkout f repo sub dest fs1 with
                         | Some (fs2, Ok _) => loop rest fs2
                         | other => other
                         end
                     end
                 | GitBlob None =>
                     match write_file fs dest [] with
                     | Raise e => Some (fs, Raise e)
                     | Ok fs1 => Some (fs1, Raise AttributeError)
                     end
                 | GitBlob (Some data) =>
                     match write_file fs dest data with
                     | Raise e => Some (fs, Raise e)
                     | Ok fs1 => loop rest fs1
                     end
                 | _ => loop rest fs
                 end
             end
         end) its fs
  end.
End Commands.

(** * The text and byte layouts *)

(** One header line: the key, a space, the value with a space after each
    of its newlines, a newline. *)
Definition kvlm_line (k v : bytes) : bytes :=
  k ++ [SP] ++ replace v [LF] [LF; SP] ++ [LF].

(** A message with headers: the lines, a blank line, the body. *)
Definition kvlm_text (hs : list (bytes * bytes)) (m : bytes) : bytes :=
  flat_map (fun kv => kvlm_line kv.1 kv.2) hs ++ [LF] ++ m.

(** What [kvlm_parse] does with one header: a key that is there already
    gets the two-element list of its old value and the new one. *)
Definition kvlm_add (d : kvlm) (kv : bytes * bytes) : kvlm :=
  match dict_get d (Some kv.1) with
  | Some old => dict_set d (Some kv.1) (VList [old; VBytes kv.2])
  | None => dict_set d (Some kv.1) (VBytes kv.2)
  end.

(** A key that a header line can carry. *)
Definition good_key (k : bytes) : Prop := k <> [] /\ (SP ∉ k) /\ (LF ∉ k).

(** The mapping with one byte-string value per key and a message. *)
Definition kvlm_of (hs : list (bytes * bytes)) (m : bytes) : kvlm :=
  map (fun kv => (Some kv.1, VBytes kv.2)) hs ++ [(None, VBytes m)].

(** One tree entry on disk, and the leaf [tree_parse_one] makes of it. *)
Record disk_entry := { e_mode : bytes; e_path : bytes; e_id : bytes }.

Definition entry_bytes (e : disk_entry) : bytes :=
  e_mode e ++ [SP] ++ e_path e ++ [NUL] ++ e_id e.

Definition good_entry (e : disk_entry) : Prop :=
  (length (e_mode e) = 5 \/ length (e_mode e) = 6)
  /\ (SP ∉ e_mode e) /\ (NUL ∉ e_path e) /\ length (e_id e) = 20.

Definition entry_leaf (e : disk_entry) (p : pystr) : GitTreeLeaf :=
  {| mode := if (len (e_mode e) =? 5)%Z then SP :: e_mode e else e_mode e;
     path := p;
     sha := format_040x (from_bytes (e_id e)) |}.

(** The constructor [object_read] and [object_hash] call for a type tag. *)
Definition construct (fmt_ : bytes) (fuel : nat) (data : bytes) : M GitObject :=
  if decide (fmt_ = b "commit") then GitCommit_init fuel (Some data)
  else if decide (fmt_ = b "tree") then GitTree_init fuel (Some data)
  else if decide (fmt_ = b "tag") then GitTag_init fuel (Some data)
  else GitBlob_init (Some data).

Definition hexdigit (c : N) : Prop :=
  (48 <= c <= 57)%N \/ (97 <= c <= 102)%N.

(** A code point that UTF-8 encodes: below [0x110000] and no surrogate. *)
Definition scalar (c : N) : Prop :=
  (c < 55296)%N \/ (57343 < c < 1114112)%N.

(** A leaf with a six-byte mode, a path that can stand in front of a NUL
    byte, and an identity of forty lower-case hexadecimal digits. *)
Definition good_leaf (l : GitTreeLeaf) : Prop :=
  length (mode l) = 6 /\ (SP ∉ mode l)
  /\ Forall scalar (path l) /\ (0%N ∉ path l)
  /\ length (sha l) = 40 /\ Forall hexdigit (sha l).

(** A file name: not empty, without a separator, and not [.] or [..]. *)
Definition plain_name (n : pystr) : Prop :=
  n <> [] /\ (SLASH ∉ n) /\ n <> u "." /\ n <> u "..".

(** The absolute path with the components [names]. *)
Definition abs_path (names : list pystr) : pystr :=
  flat_map (fun n => SLASH :: n) names.

#[local] Instance plain_name_dec n : Decision (plain_name n).
Proof. unfold plain_name. apply _. Defined.
#[local] Instance hexdigit_dec c : Decision (hexdigit c).
Proof. unfold hexdigit. apply _. Defined.
#[local] Instance scalar_dec c : Decision (scalar c).
Proof. unfold scalar. apply _. Defined.
#[local] Instance good_leaf_dec l : Decision (good_leaf l).
Proof. unfold good_leaf. apply _. Defined.

(** * Data for the examples *)

(** A codec with the round-trip law of [zlib], to instantiate the store:
    the marker byte [0x78] followed by the data. *)
Definition stored_compress (x : bytes) : bytes := chr 120 :: x.
Definition stored_decompress (c : bytes) : result bytes :=
  match c with
  | m :: x => if (ord m =? 120)%N then Ok x else Raise zlib_error
  | [] => Raise zlib_error
  end.
Definition stored_zlib : Zlib :=
  {| zlib_compress := stored_compress; zlib_decompress := stored_decompress |}.

Definition header (k v : string) : bytes := b k ++ [SP] ++ b v ++ [LF].

Definition id_tree : string := "29ff16c9c14e2652b22f8b78bb08a5a07930c147".
Definition id_p1 : string := "206941306e8a8af65b66eaaaea388a7ae24d49a0".
Definition id_p2 : string := "8f94139338f9404f26296befa88755fc2598c289".
Definition who : string := "A <a@x> 0 +0000".

(** A commit with one parent, and a merge commit with two. *)
Definition one_parent : bytes :=
  header "tree" id_tree ++ header "parent" id_p1 ++ header "author" who
  ++ header "committer" who ++ [LF] ++ b "fix bug" ++ [LF].

Definition two_parents : bytes :=
  header "tree" id_tree ++ header "parent" id_p1 ++ header "parent" id_p2
  ++ header "author" who ++ header "committer" who ++ [LF] ++ b "merge"
  ++ [LF].

Definition two_parents_kvlm : kvlm :=
  [(Some (b "tree"), VBytes (b id_tree));
   (Some (b "parent"), VList [VBytes (b id_p1); VBytes (b id_p2)]);
   (Some (b "author"), VBytes (b who));
   (Some (b "committer"), VBytes (b who));
   (None, VBytes (b "merge" ++ [LF]))].

Definition one_parent_kvlm (message : bytes) : kvlm :=
  [(Some (b "tree"), VBytes (b id_tree));
   (Some (b "parent"), VBytes (b id_p1));
   (Some (b "author"), VBytes (b who));
   (Some (b "committer"), VBytes (b who));
   (None, VBytes message)].

(** [parse(serialize(parse(x)))] *)
Definition kvlm_roundtrip (fuel : nat) (x : bytes) : M kvlm :=
  (let* d := kvlm_parse fuel x 0 [] in
   let* y := lift (kvlm_serialize d) in
   kvlm_parse fuel y 0 [])%py.

(** [GitBlob(data).serialize()] *)
Definition blob_roundtrip (data : bytes) : M bytes :=
  (let* obj := GitBlob_init (Some data) in lift (serialize obj).2)%py.

(** A tree with one directory entry, as git writes it: a five-digit mode. *)
Definition raw_id : bytes := repeat (chr 171) 20.
Definition dir_entry : bytes := b "40000 bar" ++ [NUL] ++ raw_id.

(** [tree_serialize(tree_parse(raw))] on the parsed list. *)
Definition tree_roundtrip (fuel : nat) (raw : bytes) : M bytes :=
  (let* its := tree_parse fuel raw in lift (tree_serialize its).2)%py.

(** The exception [object_read] raises on a length mismatch. *)
Definition MalformedObject (e : exn) : Prop :=
  exists sha_, e = Exception (u "Malformed object " ++ sha_ ++ u ": bad length").

(** The blank-line check of [kvlm_parse] at cursor [start]: the base case is
    taken, and the cursor is not at a newline. *)
Definition bad_blank_line (raw : bytes) (start : Z) : Prop :=
  ((find raw SP start < 0)%Z \/ (find raw LF start < find raw SP start)%Z)
  /\ find raw LF start <> start.

Definition bar_dir : GitTreeLeaf :=
  {| mode := b "040000"; path := u "bar"; sha := u id_p1 |}.
Definition bar_txt : GitTreeLeaf :=
  {| mode := b "100644"; path := u "bar.txt"; sha := u id_p2 |}.

(** [a] may stand in front of [b] in a list sorted by [key]. *)
Definition key_le {A : Type} (key : A -> pystr) (a b : A) : Prop :=
  str_le (key a) (key b) = true.

(** The directory and the file of an identity in the store. *)
Definition object_dir (repo : GitRepository) (sha_ : pystr) : pystr :=
  repo_path repo (removelast (object_path sha_)).
Definition object_file (repo : GitRepository) (sha_ : pystr) : pystr :=
  repo_path repo (object_path sha_).

(** The object with frame [raw] is in the store under [sha_]. *)
Definition stored `{Zlib} (fs : filesystem) (repo : GitRepository)
    (sha_ : pystr) (raw : bytes) : Prop :=
  fs !! object_dir repo sha_ = Some Dir
  /\ exists c, fs !! object_file repo sha_ = Some (File c)
              /\ zlib_decompress c = Ok raw.

(** The frame of a payload whose length has ASCII digits. *)
Definition frame_of (fmt_ data : bytes) : bytes :=
  match frame fmt_ data with Ok x => x | Raise _ => [] end.

(** The blob [hello\n]. *)
Definition hello : bytes := b "hello" ++ [LF].
Definition hello_frame : bytes := b "blob 6" ++ [NUL] ++ hello.
Definition hello_sha : pystr := u "ce013625030ba8dba906f756967f9e9ca394464a".

(** A tree object with the entry [dir_entry]. *)
Definition tree_frame : bytes := frame_of (b "tree") dir_entry.
Definition tree_sha : pystr := Sha1.hexdigest tree_frame.

(** A diamond: [merge] has the parents [left] and [right], which share the
    parent [root]. *)
Definition commit_text (parents : list pystr) (message : string) : bytes :=
  header "tree" id_tree
  ++ flat_map (fun p => b "parent" ++ [SP] ++ map chr p ++ [LF]) parents
  ++ header "author" who ++ header "committer" who ++ [LF] ++ b message
  ++ [LF].

Definition root_frame : bytes := frame_of (b "commit") (commit_text [] "root").
Definition root_sha : pystr := Sha1.hexdigest root_frame.
Definition left_frame : bytes :=
  frame_of (b "commit") (commit_text [root_sha] "left").
Definition left_sha : pystr := Sha1.hexdigest left_frame.
Definition right_frame : bytes :=
  frame_of (b "commit") (commit_text [root_sha] "right").
Definition right_sha : pystr := Sha1.hexdigest right_frame.
Definition merge_frame : bytes :=
  frame_of (b "commit") (commit_text [left_sha; right_sha] "merge").
Definition merge_sha : pystr := Sha1.hexdigest merge_frame.

(** A tree object with two entries, out of canonical order. *)
Definition tree2 : GitObject := GitTree [bar_dir; bar_txt].

(** A repository and file systems for the examples. *)
Definition repo0 : GitRepository :=
  {| worktree := u "/w"; gitdir := u "/w/.git" |}.

Definition put (sha_ : pystr) (raw : bytes) (fs : filesystem) : filesystem :=
  <[object_file repo0 sha_ := File (stored_compress raw)]>
    (<[object_dir repo0 sha_ := Dir]> fs).

Definition fs_empty : filesystem := {[ u "/w/.git/objects" := Dir ]}.
Definition fs_diamond : filesystem :=
  put merge_sha merge_frame
    (put left_sha left_frame
       (put right_sha right_frame (put root_sha root_frame fs_empty))).

(** The header lines of [one_parent] and of [two_parents]. *)
Definition one_parent_headers : list (bytes * bytes) :=
  [(b "tree", b id_tree); (b "parent", b id_p1); (b "author", b who);
   (b "committer", b who)].
Definition two_parents_headers : list (bytes * bytes) :=
  [(b "tree", b id_tree); (b "parent", b id_p1); (b "parent", b id_p2);
   (b "author", b who); (b "committer", b who)].

(** Two entries on disk: a file, and the directory of [dir_entry]. *)
Definition file_disk_entry : disk_entry :=
  {| e_mode := b "100644"; e_path := b "bar.txt"; e_id := raw_id |}.
Definition dir_disk_entry : disk_entry :=
  {| e_mode := b "40000"; e_path := b "bar"; e_id := raw_id |}.
Definition dir_leaf : GitTreeLeaf :=
  {| mode := SP :: b "40000"; path := u "bar";
     sha := u "abababababababababababababababababababab" |}.

(** Thirty bytes without a NUL byte, with a mode at the cursors 0 and 20. *)
Definition no_nul_bytes : bytes := b "100644 abcdefghijklm100644 xyz".

(** A leaf that names the blob [hello]. *)
Definition hello_leaf : GitTreeLeaf :=
  {| mode := b "100644"; path := u "hello.txt"; sha := hello_sha |}.

(** Frames that [object_read] rejects: a wrong length, an unknown type. *)
Definition bad_length_frame : bytes := b "blob 7" ++ [NUL] ++ hello.
Definition bad_type_frame : bytes := b "blub 6" ++ [NUL] ++ hello.

(** The state of a traversal that has not started. *)
Definition log_start : log_state := {| seen := ∅; printed := [] |}.

(** * Theorems *)

Example sha1_abc :
  Sha1.hexdigest (b "abc") = u "a9993e364706816aba3e25717850c26c9cd0d89d".
Proof. vm_compute. reflexivity. Qed.

(** ** Blobs *)

Lemma blob_roundtrip_nonempty (data : bytes) :
  data <> [] -> blob_roundtrip data = Some (Ok data).
Proof. destruct data; [congruence | reflexivity]. Qed.

(** C8: the constructor tests [if data:], so for the empty payload
    [deserialize] is not called, [blobdata] is never assigned and
    [serialize] raises [AttributeError]; every other payload comes back
    unchanged. *)
Theorem blob_empty_payload_raises :
  GitBlob_init (Some []) = Some (Ok (GitBlob None))
  /\ blob_roundtrip [] = Some (Raise AttributeError)
  /\ forall data : bytes, data <> [] -> blob_roundtrip data = Some (Ok data).
Proof.
  split; [reflexivity | split; [reflexivity |]].
  exact blob_roundtrip_nonempty.
Qed.

(** ** KVLM *)

(** C1: a header with two [parent] lines parses to the list of the two
    identities in their order, but [kvlm_serialize] raises
    [AttributeError] on that list ([val is not list] wraps it again), so
    the round trip has no result; with one parent the round trip returns a
    mapping whose message has gained a newline. *)
Theorem kvlm_roundtrip_fails :
  kvlm_parse 8 two_parents 0 [] = Some (Ok two_parents_kvlm)
  /\ dict_get two_parents_kvlm (Some (b "parent"))
     = Some (VList [VBytes (b id_p1); VBytes (b id_p2)])
  /\ kvlm_serialize two_parents_kvlm = Raise AttributeError
  /\ kvlm_roundtrip 8 two_parents = Some (Raise AttributeError)
  /\ kvlm_parse 8 one_parent 0 []
     = Some (Ok (one_parent_kvlm (b "fix bug" ++ [LF])))
  /\ kvlm_serialize (one_parent_kvlm (b "fix bug" ++ [LF]))
     = Ok (one_parent ++ [LF])
  /\ kvlm_roundtrip 8 one_parent
     = Some (Ok (one_parent_kvlm (b "fix bug" ++ [LF; LF]))).
Proof. repeat split; vm_compute; reflexivity. Qed.

(** The blank-line check fails with [AssertionError], whatever the fuel. *)
Lemma kvlm_parse_bad_blank_line fuel raw start dct :
  bad_blank_line raw start ->
  kvlm_parse (S fuel) raw start dct = Some (Raise AssertionError).
Proof.
  intros [Hbase Hnl]. simpl.
  replace ((find raw SP start <? 0)%Z || (find raw LF start <? find raw SP start)%Z)
    with true.
  - destruct (Z.eqb_spec (find raw LF start) start); [contradiction | reflexivity].
  - symmetry. apply orb_true_iff.
    destruct Hbase; [left | right]; apply Z.ltb_lt; assumption.
Qed.

(** C9 (as amended): when the blank-line check does not land on a bare
    newline, parsing fails with [AssertionError] and returns no mapping;
    a key-value line hands the rest of the input to the recursive call, so
    the parse of a header line that leads to such a cursor fails in the
    same way. *)
Theorem kvlm_parse_malformed_header fuel raw start dct :
  bad_blank_line raw start ->
  kvlm_parse (S fuel) raw start dct = Some (Raise AssertionError)
  /\ forall start0 dct0,
       (0 <= find raw SP start0 <= find raw LF start0)%Z ->
       scan_end (S fuel) raw start0 = Some (Ok (start - 1)%Z) ->
       kvlm_parse (S (S fuel)) raw start0 dct0 = Some (Raise AssertionError).
Proof.
  intros Hbad. split; [apply kvlm_parse_bad_blank_line, Hbad |].
  intros start0 dct0 [Hspc Hnl] Hscan.
  cbn [kvlm_parse].
  replace ((find raw SP start0 <? 0)%Z
           || (find raw LF start0 <? find raw SP start0)%Z) with false.
  - rewrite Hscan. cbn [mbind].
    replace (start - 1 + 1)%Z with start by lia.
    apply kvlm_parse_bad_blank_line, Hbad.
  - symmetry. apply orb_false_iff. split; apply Z.ltb_ge; lia.
Qed.

Lemma kvlm_parse_malformed_header_witness :
  let raw := b "tree abc" ++ [LF] ++ b "foo" in
  kvlm_parse 2 raw 9 [] = Some (Raise AssertionError)
  /\ kvlm_parse 3 raw 0 [] = Some (Raise AssertionError).
Proof.
  intros raw.
  assert (Hbad : bad_blank_line raw 9).
  { split; [left; reflexivity | vm_compute; discriminate]. }
  destruct (kvlm_parse_malformed_header 1 raw 9 [] Hbad) as [H1 H2].
  split; [exact H1 |].
  apply H2; [vm_compute; split; discriminate | reflexivity].
Defined.

(** C9 (as stated) fails: on the input [abc] the check is violated and the
    exception is [AssertionError], not the [Exception] that [object_read]
    raises for a malformed object. *)
Lemma kvlm_parse_not_MalformedObject :
  bad_blank_line (b "abc") 0
  /\ kvlm_parse 1 (b "abc") 0 [] = Some (Raise AssertionError)
  /\ ~ (exists e, kvlm_parse 1 (b "abc") 0 [] = Some (Raise e)
                  /\ MalformedObject e).
Proof.
  split; [split; [left; reflexivity | vm_compute; discriminate] |].
  split; [reflexivity |].
  intros (e & He & sha_ & Hm). vm_compute in He. congruence.
Qed.

(** ** Trees *)

(** C6: a five-digit mode is padded with a space, not with a zero, and
    [tree_serialize] writes the stored mode as it is: the entry
    [40000 bar] comes back as [ 40000 bar], which the parser then rejects. *)
Theorem tree_mode_space_padded :
  tree_parse 2 dir_entry
  = Some (Ok [{| mode := SP :: b "40000"; path := u "bar";
                 sha := u "abababababababababababababababababababab" |}])
  /\ tree_roundtrip 2 dir_entry
     = Some (Ok (SP :: b "40000 bar" ++ [NUL] ++ raw_id))
  /\ tree_roundtrip 2 dir_entry <> Some (Ok (b "040000 bar" ++ [NUL] ++ raw_id))
  /\ tree_parse 2 (SP :: b "40000 bar" ++ [NUL] ++ raw_id)
     = Some (Raise AssertionError).
Proof.
  repeat split; try (vm_compute; reflexivity).
  vm_compute. discriminate.
Qed.

(** *** The sort *)

Lemma str_lt_asym s t : str_lt s t = true -> str_lt t s = false.
Proof.
  revert t. induction s as [|x s IH]; intros [|y t]; simpl; try congruence.
  intros H. apply orb_true_iff in H.
  apply orb_false_iff. destruct H as [H | H].
  - apply N.ltb_lt in H. split.
    + apply N.ltb_ge. lia.
    + replace (y =? x)%N with false; [reflexivity |].
      symmetry. apply N.eqb_neq. lia.
  - apply andb_true_iff in H as [Hxy Hst]. apply N.eqb_eq in Hxy. subst y.
    split; [apply N.ltb_irrefl |].
    rewrite (IH _ Hst). apply andb_false_r.
Qed.

Lemma str_le_total s t : str_le s t = false -> str_le t s = true.
Proof.
  unfold str_le. intros H. apply negb_false_iff in H.
  rewrite (str_lt_asym _ _ H). reflexivity.
Qed.

Section SortFacts.
Context {A : Type} (key : A -> pystr).

Lemma insert_by_perm x l : Permutation (x :: l) (insert_by key x l).
Proof.
  induction l as [|y l IH]; simpl; [reflexivity |].
  destruct (str_le (key x) (key y)); [reflexivity |].
  rewrite perm_swap. apply perm_skip, IH.
Qed.

Lemma sort_by_perm l : Permutation l (sort_by key l).
Proof.
  induction l as [|x l IH]; simpl; [reflexivity |].
  rewrite <- insert_by_perm. apply perm_skip, IH.
Qed.

Lemma insert_by_hd x y l :
  key_le key y x -> HdRel (key_le key) y l -> HdRel (key_le key) y (insert_by key x l).
Proof.
  intros Hyx Hl. destruct l as [|z l]; simpl; [constructor; exact Hyx |].
  destruct (str_le (key x) (key z)); constructor; [exact Hyx |].
  inversion Hl; assumption.
Qed.

Lemma insert_by_sorted x l :
  Sorted (key_le key) l -> Sorted (key_le key) (insert_by key x l).
Proof.
  induction 1 as [|y l Hs IH Hhd]; simpl; [repeat constructor |].
  destruct (str_le (key x) (key y)) eqn:E.
  - constructor; [constructor; assumption | constructor; exact E].
  - constructor; [exact IH |].
    apply insert_by_hd; [apply str_le_total, E | exact Hhd].
Qed.

Lemma sort_by_sorted l : Sorted (key_le key) (sort_by key l).
Proof.
  induction l as [|x l IH]; simpl; [constructor | apply insert_by_sorted, IH].
Qed.

(** Sorting leaves a sorted list as it is. *)
Lemma sort_by_fixed l : Sorted (key_le key) l -> sort_by key l = l.
Proof.
  induction 1 as [|x l Hs IH Hhd]; simpl; [reflexivity |].
  rewrite IH. destruct Hhd as [|y l Hxy]; simpl; [reflexivity |].
  unfold key_le in Hxy. rewrite Hxy. reflexivity.
Qed.

Lemma sort_by_idem l : sort_by key (sort_by key l) = sort_by key l.
Proof. apply sort_by_fixed, sort_by_sorted. Qed.

(** The sort is stable: the elements with one key keep their order. *)
Lemma str_lt_irrefl s : str_lt s s = false.
Proof.
  destruct (str_lt s s) eqn:E; [| reflexivity].
  pose proof (str_lt_asym s s E). congruence.
Qed.

Lemma insert_by_filter k x l :
  List.filter (fun a => bool_decide (key a = k)) (insert_by key x l)
  = List.filter (fun a => bool_decide (key a = k)) (x :: l).
Proof.
  induction l as [|y l IH]; [reflexivity |].
  cbn [insert_by]. destruct (str_le (key x) (key y)) eqn:Hle; [reflexivity |].
  cbn [List.filter] in *. rewrite IH.
  destruct (bool_decide_reflect (key x = k)) as [Hx | Hx];
    destruct (bool_decide_reflect (key y = k)) as [Hy | Hy]; try reflexivity.
  exfalso. unfold str_le in Hle. rewrite Hx, Hy, str_lt_irrefl in Hle.
  discriminate.
Qed.

Lemma sort_by_filter k l :
  List.filter (fun a => bool_decide (key a = k)) (sort_by key l)
  = List.filter (fun a => bool_decide (key a = k)) l.
Proof.
  induction l as [|x l IH]; [reflexivity |].
  cbn [sort_by fold_right]. rewrite insert_by_filter.
  cbn [List.filter]. fold (sort_by key l). rewrite IH. reflexivity.
Qed.
End SortFacts.

(** *** What [tree_serialize] writes *)





(** C10: serializing a tree replaces its entry list by a list of the same
    entries in canonical order: sorted by the path, with a [/] added
    unless the mode starts with [10]; the entries with one key keep their
    order, and a list that is in canonical order is left as it is. A
    second serialization leaves the object as it is and
    returns the same bytes (or raises the same exception), and the type
    tag is kept. The tree [bar] (a directory), [bar.txt] is changed into
    [bar.txt], [bar]. *)
Theorem tree_serialize_sorts_in_place (its : list GitTreeLeaf) :
  let key := fun l : GitTreeLeaf =>
               if startswith (mode l) (b "10") then path l
               else path l ++ u "/" in
  let le := fun a c : GitTreeLeaf => str_le (key a) (key c) = true in
  let bytes2 := b "100644 bar.txt" ++ [NUL]
                ++ be_bytes 20 0x8f94139338f9404f26296befa88755fc2598c289
                ++ b "040000 bar" ++ [NUL]
                ++ be_bytes 20 0x206941306e8a8af65b66eaaaea388a7ae24d49a0 in
  (exists sorted,
     (serialize (GitTree its)).1 = GitTree sorted
     /\ Permutation its sorted
     /\ Sorted le sorted
     /\ (forall k,
           List.filter (fun l => bool_decide (key l = k)) sorted
           = List.filter (fun l => bool_decide (key l = k)) its)
     /\ (Sorted le its -> sorted = its)
     /\ serialize (GitTree sorted)
        = (GitTree sorted, (serialize (GitTree its)).2)
     /\ fmt (GitTree sorted) = fmt (GitTree its))
  /\ key bar_dir = u "bar/"
  /\ key bar_txt = u "bar.txt"
  /\ str_lt (u "bar.txt") (u "bar/") = true
  /\ serialize (GitTree [bar_dir; bar_txt])
     = (GitTree [bar_txt; bar_dir], Ok bytes2)
  /\ GitTree [bar_txt; bar_dir] <> GitTree [bar_dir; bar_txt]
  /\ serialize (GitTree [bar_txt; bar_dir])
     = (GitTree [bar_txt; bar_dir], Ok bytes2).
Proof.
  cbn zeta. split.
  - exists (sort_by tree_leaf_sort_key its).
    split; [reflexivity |].
    split; [apply sort_by_perm |].
    split; [exact (sort_by_sorted tree_leaf_sort_key its) |].
    split; [intros k; exact (sort_by_filter tree_leaf_sort_key k its) |].
    split; [exact (sort_by_fixed tree_leaf_sort_key its) |].
    split; [| reflexivity].
    simpl. unfold tree_serialize. simpl. rewrite sort_by_idem. reflexivity.
  - split; [vm_compute; reflexivity |].
    split; [vm_compute; reflexivity |].
    split; [vm_compute; reflexivity |].
    split; [vm_compute; reflexivity |].
    split; [vm_compute; discriminate |].
    vm_compute; reflexivity.
Qed.

(** ** Fuel *)

(** More fuel does not change a result. *)
Lemma scan_end_mono f f' raw e r :
  scan_end f raw e = Some r -> f <= f' -> scan_end f' raw e = Some r.
Proof.
  revert f' e. induction f as [|f IH]; intros f' e Hr Hle; [discriminate |].
  destruct f' as [|f']; [lia |]. cbn [scan_end] in *.
  destruct (lift (getitem raw (find raw LF (e + 1) + 1))) as [[c|x]|];
    cbn [mbind] in *; try exact Hr.
  destruct (negb _); [exact Hr |].
  apply IH; [exact Hr | lia].
Qed.

Lemma kvlm_parse_mono f f' raw start dct r :
  kvlm_parse f raw start dct = Some r -> f <= f' ->
  kvlm_parse f' raw start dct = Some r.
Proof.
  revert f' start dct. induction f as [|f IH]; intros f' start dct Hr Hle;
    [discriminate |].
  destruct f' as [|f']; [lia |]. cbn [kvlm_parse] in *.
  destruct ((find raw SP start <? 0)%Z || (find raw LF start <? find raw SP start)%Z);
    [exact Hr |].
  destruct (scan_end f raw start) as [[e|x]|] eqn:E; [| |discriminate].
  - rewrite (scan_end_mono f f' raw start _ E) by lia. cbn [mbind] in *.
    apply IH; [exact Hr | lia].
  - rewrite (scan_end_mono f f' raw start _ E) by lia. exact Hr.
Qed.

Lemma tree_parse_loop_mono f f' raw pos ret r :
  tree_parse_loop f raw pos ret = Some r -> f <= f' ->
  tree_parse_loop f' raw pos ret = Some r.
Proof.
  revert f' pos ret. induction f as [|f IH]; intros f' pos ret Hr Hle;
    [discriminate |].
  destruct f' as [|f']; [lia |]. cbn [tree_parse_loop] in *.
  destruct (pos <? len raw)%Z; [| exact Hr].
  destruct (tree_parse_one raw pos) as [[pos' leaf]|x]; cbn in *; [| exact Hr].
  apply IH; [exact Hr | lia].
Qed.

Lemma mbind_some {A B} (m : M A) (k : A -> M B) r :
  mbind m k = Some r ->
  (exists a, m = Some (Ok a) /\ k a = Some r)
  \/ (exists e, m = Some (Raise e) /\ r = Raise e).
Proof.
  destruct m as [[a|e]|]; simpl; intros Hr; [left | right | discriminate].
  - exists a. split; [reflexivity | exact Hr].
  - exists e. split; [reflexivity | congruence].
Qed.

Lemma GitCommit_init_mono f f' data r :
  GitCommit_init f data = Some r -> f <= f' -> GitCommit_init f' data = Some r.
Proof.
  unfold GitCommit_init. intros Hr Hle. destruct (truthy data); [| exact Hr].
  destruct (kvlm_parse f (payload data) 0 []) as [x|] eqn:E; [| discriminate].
  rewrite (kvlm_parse_mono _ f' _ _ _ _ E Hle). exact Hr.
Qed.

Lemma GitTag_init_mono f f' data r :
  GitTag_init f data = Some r -> f <= f' -> GitTag_init f' data = Some r.
Proof.
  unfold GitTag_init. intros Hr Hle. destruct (truthy data); [| exact Hr].
  destruct (kvlm_parse f (payload data) 0 []) as [x|] eqn:E; [| discriminate].
  rewrite (kvlm_parse_mono _ f' _ _ _ _ E Hle). exact Hr.
Qed.

Lemma GitTree_init_mono f f' data r :
  GitTree_init f data = Some r -> f <= f' -> GitTree_init f' data = Some r.
Proof.
  unfold GitTree_init, tree_parse. intros Hr Hle.
  destruct (truthy data); [| exact Hr].
  destruct (tree_parse_loop f (payload data) 0 []) as [x|] eqn:E; [| discriminate].
  rewrite (tree_parse_loop_mono _ f' _ _ _ _ E Hle). exact Hr.
Qed.

Lemma object_of_raw_mono f f' sha_ raw r :
  object_of_raw f sha_ raw = Some r -> f <= f' ->
  object_of_raw f' sha_ raw = Some r.
Proof.
  unfold object_of_raw. intros Hr Hle.
  destruct (lift (decode_ascii (slice raw (find raw SP 0) (find raw NUL (find raw SP 0)))))
    as [[digits|x]|]; cbn [mbind] in *; try exact Hr.
  destruct (lift (py_int digits 10)) as [[size|x]|]; cbn [mbind] in *;
    try exact Hr.
  destruct (negb _); [exact Hr |].
  repeat case_decide; eauto using GitCommit_init_mono, GitTree_init_mono,
    GitTag_init_mono.
Qed.

(** ** Paths of the store *)

Lemma join1_nonempty p c : p <> [] \/ c <> [] -> join1 p c <> [].
Proof.
  unfold join1. intros Hpc.
  destruct (startswith c [SLASH]) eqn:Es.
  { destruct c; [discriminate | discriminate]. }
  destruct (last p) as [x|] eqn:El.
  - assert (p <> []) by (intros ->; discriminate).
    destruct (x =? SLASH)%N; destruct p; simpl; congruence.
  - apply last_None in El. subst p. destruct Hpc as [Hp | Hc]; [congruence |].
    exact Hc.
Qed.

Lemma object_dir_eq repo sha_ :
  object_dir repo sha_
  = join1 (join1 (gitdir repo) (u "objects")) (slice sha_ 0 2).
Proof. reflexivity. Qed.

Lemma object_file_eq repo sha_ :
  object_file repo sha_ = join1 (object_dir repo sha_) (slice_from sha_ 2).
Proof. reflexivity. Qed.

Lemma object_dir_nonempty repo sha_ : object_dir repo sha_ <> [].
Proof.
  rewrite object_dir_eq. apply join1_nonempty. left.
  apply join1_nonempty. right. discriminate.
Qed.

(** [repo_file] on the path of an object, by the state of its directory. *)
Lemma repo_file_object repo sha_ mk fs :
  repo_file repo (object_path sha_) mk fs
  = match fs !! object_dir repo sha_ with
    | Some Dir => (fs, Ok (Some (object_file repo sha_)))
    | Some (File _) =>
        (fs, Raise (Exception (u "Not a directory " ++ object_dir repo sha_)))
    | None =>
        if mk then (<[object_dir repo sha_ := Dir]> fs,
                    Ok (Some (object_file repo sha_)))
        else (fs, Ok None)
    end.
Proof.
  unfold repo_file, repo_dir. fold (object_dir repo sha_).
  pose proof (object_dir_nonempty repo sha_) as Hne.
  destruct (fs !! object_dir repo sha_) as [[|c]|] eqn:E.
  - destruct (object_dir repo sha_); [congruence | reflexivity].
  - reflexivity.
  - destruct mk; [| reflexivity].
    unfold makedirs. rewrite E.
    destruct (object_dir repo sha_); [congruence | reflexivity].
Qed.

Section StoreFacts.
Context `{Zlib}.

Lemma object_read_file fuel repo sha_ fs c :
  fs !! object_dir repo sha_ = Some Dir ->
  fs !! object_file repo sha_ = Some (File c) ->
  object_read fuel repo sha_ fs
  = mbind (lift (zlib_decompress c)) (object_of_raw fuel sha_).
Proof.
  intros Hd Hf. unfold object_read. rewrite repo_file_object, Hd.
  cbn [snd lift mbind]. fold (object_file repo sha_). rewrite Hf. reflexivity.
Qed.

Lemma object_read_stored fuel repo sha_ fs raw :
  stored fs repo sha_ raw ->
  object_read fuel repo sha_ fs = object_of_raw fuel sha_ raw.
Proof.
  intros (Hd & c & Hf & Hz). rewrite (object_read_file _ _ _ _ c Hd Hf), Hz.
  reflexivity.
Qed.

(** Without the two-character directory [repo_file] returns [None], and
    [os.path.isfile(None)] raises [TypeError]. *)
Lemma object_read_no_dir fuel repo sha_ fs :
  fs !! object_dir repo sha_ = None ->
  object_read fuel repo sha_ fs = Some (Raise TypeError).
Proof.
  intros Hd. unfold object_read. rewrite repo_file_object, Hd. reflexivity.
Qed.

Lemma object_read_no_file fuel repo sha_ fs :
  fs !! object_dir repo sha_ = Some Dir ->
  isfile fs (object_file repo sha_) = false ->
  object_read fuel repo sha_ fs
  = Some (Raise (Exception (u "Object " ++ sha_ ++ u " not found!"))).
Proof.
  intros Hd Hf. unfold object_read. rewrite repo_file_object, Hd.
  cbn [snd lift mbind]. fold (object_file repo sha_). unfold isfile in Hf.
  destruct (fs !! object_file repo sha_) as [[|c]|]; try reflexivity.
  discriminate.
Qed.

(** The two exceptions of the frame header, in the order the source
    tests for them: the length first, then the type tag. *)
Lemma object_of_raw_bad_length fuel sha_ raw digits size :
  let x := find raw SP 0 in
  let y := find raw NUL x in
  decode_ascii (slice raw x y) = Ok digits ->
  py_int digits 10 = Ok size ->
  size <> (len raw - y - 1)%Z ->
  object_of_raw fuel sha_ raw
  = Some (Raise (Exception (u "Malformed object " ++ sha_ ++ u ": bad length"))).
Proof.
  intros x y Hd Hi Hne. unfold object_of_raw. fold x. fold y.
  rewrite Hd. cbn [lift mbind]. rewrite Hi. cbn [mbind].
  destruct (Z.eqb_spec size (len raw - y - 1)); [contradiction | reflexivity].
Qed.

Lemma object_of_raw_unknown_type fuel sha_ raw digits t :
  let x := find raw SP 0 in
  let y := find raw NUL x in
  decode_ascii (slice raw x y) = Ok digits ->
  py_int digits 10 = Ok (len raw - y - 1)%Z ->
  slice raw 0 x ∉ [b "commit"; b "tree"; b "tag"; b "blob"] ->
  decode_ascii (slice raw 0 x) = Ok t ->
  object_of_raw fuel sha_ raw
  = Some (Raise (Exception (u "Unknown type " ++ t ++ u " for object " ++ sha_))).
Proof.
  intros x y Hd Hi Hfmt Ht. unfold object_of_raw. fold x. fold y.
  rewrite Hd. cbn [lift mbind]. rewrite Hi. cbn [mbind].
  rewrite Z.eqb_refl. cbn [negb].
  repeat case_decide;
    try (exfalso; apply Hfmt; match goal with E : _ = _ |- _ => rewrite E end;
         set_solver).
  rewrite Ht. reflexivity.
Qed.

(** Whatever the payload, the constructors leave [kvlm] and [items]
    empty, and an empty payload leaves [blobdata] unassigned. *)
Lemma object_of_raw_result fuel sha_ raw obj :
  object_of_raw fuel sha_ raw = Some (Ok obj) ->
  obj = GitCommit [] \/ obj = GitTree [] \/ obj = GitTag []
  \/ obj = GitBlob None
  \/ exists c data, obj = GitBlob (Some (c :: data)).
Proof.
  unfold object_of_raw. intros Hr.
  apply mbind_some in Hr as [(digits & _ & Hr) | (e & _ & [=])].
  apply mbind_some in Hr as [(size & _ & Hr) | (e & _ & [=])].
  destruct (negb _); [discriminate |].
  repeat case_decide.
  - apply mbind_some in Hr as [(x & _ & [= <-]) | (e & _ & [=])]. auto.
  - apply mbind_some in Hr as [(x & _ & [= <-]) | (e & _ & [=])]. auto.
  - apply mbind_some in Hr as [(x & _ & [= <-]) | (e & _ & [=])]. auto.
  - unfold GitBlob_init in Hr. destruct (slice_from raw _) as [|c data];
      simpl in Hr; injection Hr as <-; eauto 10.
  - apply mbind_some in Hr as [(x & _ & [=]) | (e & _ & [=])].
Qed.

Lemma object_read_result fuel repo sha_ fs obj :
  object_read fuel repo sha_ fs = Some (Ok obj) ->
  obj = GitCommit [] \/ obj = GitTree [] \/ obj = GitTag []
  \/ obj = GitBlob None
  \/ exists c data, obj = GitBlob (Some (c :: data)).
Proof.
  unfold object_read. intros Hr.
  apply mbind_some in Hr as [(p & _ & Hr) | (e & _ & [=])].
  destruct p as [p|]; [| discriminate].
  destruct (fs !! p) as [[|c]|]; try discriminate.
  apply mbind_some in Hr as [(raw & _ & Hr) | (e & _ & [=])].
  eapply object_of_raw_result, Hr.
Qed.

(** No call of [log_graphviz] prints anything: the mapping of a commit
    that was read is empty, so [commit.kvlm[None]] raises [KeyError]
    before the first [print]. *)
Lemma log_graphviz_prints_nothing fuel repo sha_ st fs st' r :
  log_graphviz fuel repo sha_ st fs = Some (st', r) ->
  printed st' = printed st /\ r <> Ok tt \/ (sha_ ∈ seen st /\ st' = st).
Proof.
  destruct fuel as [|f]; [discriminate |]. cbn [log_graphviz].
  case_decide as Hseen; [intros [= <- <-]; right; auto |].
  destruct (object_read f repo sha_ fs) as [[obj|e]|] eqn:E; [| |discriminate].
  - apply object_read_result in E
      as [-> | [-> | [-> | [-> | (c & data & ->)]]]]; cbn;
      intros [= <- <-]; left; split; (reflexivity || discriminate).
  - intros [= <- <-]. left. split; [reflexivity | discriminate].
Qed.
End StoreFacts.

(** ** Reading objects *)

Lemma tree_frame_read :
  object_of_raw 2 tree_sha tree_frame = Some (Ok (GitTree [])).
Proof. vm_compute. reflexivity. Qed.

Lemma merge_frame_read :
  object_of_raw 8 merge_sha merge_frame = Some (Ok (GitCommit [])).
Proof. vm_compute. reflexivity. Qed.

Section ReadTheorems.
Context `{Zlib}.

(** C3: [object_read] does not return what the deserializer makes of
    the payload. For a stored tree with one entry, [tree_parse] yields
    that entry, but the object returned has no entries: after
    [deserialize] the constructor assigns [self.items = list()]. For a
    stored commit the mapping is likewise empty. Where the
    two-character directory of the identity is missing, the exception
    is [TypeError], not the one of a missing object. *)
Theorem object_read_discards_payload repo fs fuel :
  stored fs repo tree_sha tree_frame ->
  stored fs repo merge_sha merge_frame ->
  8 <= fuel ->
  tree_frame = b "tree 30" ++ [NUL] ++ dir_entry
  /\ tree_parse fuel dir_entry
     = Some (Ok [{| mode := SP :: b "40000"; path := u "bar";
                    sha := u "abababababababababababababababababababab" |}])
  /\ object_read fuel repo tree_sha fs = Some (Ok (GitTree []))
  /\ object_read fuel repo merge_sha fs = Some (Ok (GitCommit []))
  /\ forall sha_ fs',
       fs' !! object_dir repo sha_ = None ->
       object_read fuel repo sha_ fs' = Some (Raise TypeError).
Proof.
  intros Ht Hm Hfuel. split; [vm_compute; reflexivity |].
  split.
  { apply (tree_parse_loop_mono 2); [vm_compute; reflexivity | lia]. }
  split.
  { rewrite (object_read_stored _ _ _ _ _ Ht).
    apply (object_of_raw_mono 2); [exact tree_frame_read | lia]. }
  split.
  { rewrite (object_read_stored _ _ _ _ _ Hm).
    apply (object_of_raw_mono 8); [exact merge_frame_read | lia]. }
  intros sha_ fs' Hd. apply object_read_no_dir, Hd.
Qed.

(** C2: started at the merge commit of a diamond, [log_graphviz] marks
    the merge commit as seen and raises [KeyError] at
    [commit.kvlm[None]]: no node descriptor and no edge is printed, for
    the merge commit or for the shared ancestor. *)
Theorem log_graphviz_diamond repo fs fuel st :
  stored fs repo merge_sha merge_frame ->
  stored fs repo left_sha left_frame ->
  stored fs repo right_sha right_frame ->
  stored fs repo root_sha root_frame ->
  merge_sha ∉ seen st ->
  9 <= fuel ->
  log_graphviz fuel repo merge_sha st fs
  = Some ({| seen := {[merge_sha]} ∪ seen st; printed := printed st |},
          Raise KeyError).
Proof.
  intros Hm _ _ _ Hseen Hfuel.
  destruct fuel as [|f]; [lia |]. cbn [log_graphviz].
  case_decide; [contradiction |].
  rewrite (object_read_stored _ _ _ _ _ Hm).
  rewrite (object_of_raw_mono 8 f _ _ _ merge_frame_read) by lia.
  reflexivity.
Qed.
End ReadTheorems.

Lemma fs_diamond_stored :
  @stored stored_zlib fs_diamond repo0 merge_sha merge_frame
  /\ @stored stored_zlib fs_diamond repo0 left_sha left_frame
  /\ @stored stored_zlib fs_diamond repo0 right_sha right_frame
  /\ @stored stored_zlib fs_diamond repo0 root_sha root_frame.
Proof.
  split; [| split; [| split]].
  - split; [vm_compute; reflexivity |].
    exists (stored_compress merge_frame). split; vm_compute; reflexivity.
  - split; [vm_compute; reflexivity |].
    exists (stored_compress left_frame). split; vm_compute; reflexivity.
  - split; [vm_compute; reflexivity |].
    exists (stored_compress right_frame). split; vm_compute; reflexivity.
  - split; [vm_compute; reflexivity |].
    exists (stored_compress root_frame). split; vm_compute; reflexivity.
Qed.

Lemma object_read_discards_payload_witness :
  object_read (H := stored_zlib) 8 repo0 tree_sha (put tree_sha tree_frame fs_diamond)
  = Some (Ok (GitTree []))
  /\ object_read (H := stored_zlib) 8 repo0 merge_sha
       (put tree_sha tree_frame fs_diamond)
     = Some (Ok (GitCommit [])).
Proof.
  assert (Ht : @stored stored_zlib (put tree_sha tree_frame fs_diamond) repo0
                 tree_sha tree_frame).
  { split; [vm_compute; reflexivity |].
    exists (stored_compress tree_frame). split; vm_compute; reflexivity. }
  assert (Hm : @stored stored_zlib (put tree_sha tree_frame fs_diamond) repo0
                 merge_sha merge_frame).
  { split; [vm_compute; reflexivity |].
    exists (stored_compress merge_frame). split; vm_compute; reflexivity. }
  destruct (object_read_discards_payload (H := stored_zlib) repo0
              (put tree_sha tree_frame fs_diamond) 8 Ht Hm (le_n 8))
    as (_ & _ & H1 & H2 & _).
  split; [exact H1 | exact H2].
Defined.

Lemma log_graphviz_diamond_witness :
  log_graphviz (H := stored_zlib) 9 repo0 merge_sha
    {| seen := ∅; printed := [] |} fs_diamond
  = Some ({| seen := {[merge_sha]} ∪ ∅; printed := [] |}, Raise KeyError).
Proof.
  destruct fs_diamond_stored as (Hm & Hl & Hr & Ho).
  apply (log_graphviz_diamond (H := stored_zlib) repo0 fs_diamond 9
           {| seen := ∅; printed := [] |} Hm Hl Hr Ho).
  - cbn [seen]. apply not_elem_of_empty.
  - apply le_n.
Defined.

(** ** The shape of an identity *)

Lemma digits_fixed_length base k n : length (digits_fixed base k n) = k.
Proof.
  revert n. induction k as [|k IH]; intros n; simpl; [reflexivity |].
  rewrite length_app, IH. simpl. lia.
Qed.

Lemma digit_char_not_slash d : (0 <= d)%Z -> digit_char d <> SLASH.
Proof.
  unfold digit_char, SLASH. intros Hd. destruct (d <? 10)%Z; lia.
Qed.

Lemma digits_fixed_no_slash base k n :
  (0 < base)%Z -> Forall (fun c => c <> SLASH) (digits_fixed base k n).
Proof.
  intros Hb. revert n. induction k as [|k IH]; intros n; simpl; [constructor |].
  apply Forall_app. split; [apply IH |].
  constructor; [| constructor].
  apply digit_char_not_slash. apply Z.mod_pos_bound. exact Hb.
Qed.

Lemma hexdigest_length msg : length (Sha1.hexdigest msg) = 40.
Proof.
  unfold Sha1.hexdigest, Sha1.hex8. destruct (Sha1.digest msg).
  rewrite !length_app, !digits_fixed_length. reflexivity.
Qed.

Lemma hexdigest_no_slash msg : Forall (fun c => c <> SLASH) (Sha1.hexdigest msg).
Proof.
  unfold Sha1.hexdigest, Sha1.hex8. destruct (Sha1.digest msg).
  rewrite !Forall_app. repeat split; apply digits_fixed_no_slash; lia.
Qed.

(** The file of an object is not its directory. *)
Lemma object_file_ne_dir repo sha_ :
  length sha_ = 40 -> Forall (fun c => c <> SLASH) sha_ ->
  object_file repo sha_ <> object_dir repo sha_.
Proof.
  intros Hlen Hns. rewrite object_file_eq.
  assert (Hrest : exists c rest, slice_from sha_ 2 = c :: rest /\ c <> SLASH).
  { unfold slice_from, clamp, len. rewrite Hlen.
    destruct sha_ as [|x0 [|x1 [|c rest]]]; simpl in Hlen; try lia.
    exists c, rest. split; [reflexivity |].
    inversion Hns as [|? ? _ H1]; inversion H1 as [|? ? _ H2];
      inversion H2; assumption. }
  destruct Hrest as (c & rest & -> & Hc).
  generalize (object_dir repo sha_). intros d Heq.
  unfold join1 in Heq. simpl in Heq.
  destruct (decide (c = SLASH)); [contradiction |].
  apply (f_equal length) in Heq.
  destruct (last d) as [x|]; [destruct (x =? SLASH)%N |];
    rewrite ?length_app in Heq; simpl in Heq; lia.
Qed.

Lemma hexdigest_paths repo msg :
  object_file repo (Sha1.hexdigest msg) <> object_dir repo (Sha1.hexdigest msg).
Proof.
  apply object_file_ne_dir; [apply hexdigest_length | apply hexdigest_no_slash].
Qed.

(** ** Files *)

Lemma elem_of_files (fs : filesystem) p :
  p ∈ files fs <-> exists c, fs !! p = Some (File c).
Proof.
  unfold files. rewrite elem_of_dom. unfold is_Some.
  setoid_rewrite map_lookup_filter_Some. split.
  - intros ([|c] & Hp & Hf); simpl in Hf; [discriminate | eauto].
  - intros (c & Hp). exists (File c). split; [exact Hp | reflexivity].
Qed.


Lemma files_insert_dir (fs : filesystem) d :
  fs !! d = None -> files (<[d := Dir]> fs) = files fs.
Proof.
  intros Hd. apply set_eq. intros q. rewrite !elem_of_files.
  destruct (decide (q = d)) as [-> | Hne].
  - rewrite lookup_insert_eq, Hd. split; intros (c & [=]).
  - rewrite lookup_insert_ne by congruence. reflexivity.
Qed.

(** ** Writing objects *)


Section WriteFacts.
Context `{Zlib}.

(** What a successful write into a repository has done. *)
Lemma object_write_inv obj repo fs obj1 fs1 sha_ :
  object_write obj (Some repo) fs = (obj1, fs1, Ok sha_) ->
  exists data raw fs',
    serialize obj = (obj1, Ok data)
    /\ frame (fmt obj) data = Ok raw
    /\ sha_ = Sha1.hexdigest raw
    /\ (fs !! object_dir repo sha_ = Some Dir /\ fs' = fs
        \/ fs !! object_dir repo sha_ = None
           /\ fs' = <[object_dir repo sha_ := Dir]> fs)
    /\ (is_Some (fs' !! object_file repo sha_) /\ fs1 = fs'
        \/ fs' !! object_file repo sha_ = None
           /\ fs1 = <[object_file repo sha_ := File (zlib_compress raw)]> fs').
Proof.
  unfold object_write. destruct (serialize obj) as [obj' [data|e]];
    cbn [rbind]; [| intros [=]].
  destruct (frame (fmt obj) data) as [raw|e] eqn:Ef; [| intros [=]].
  rewrite repo_file_object.
  set (sha0 := Sha1.hexdigest raw).
  destruct (fs !! object_dir repo sha0) as [[|c]|] eqn:Ed; [| intros [=] |].
  - unfold exists_, write_file.
    destruct (fs !! object_file repo sha0) as [n|] eqn:Ep.
    + intros [= <- <- <-]. exists data, raw, fs. rewrite Ep.
      repeat (split; [done |]). split; [left; done | left; done].
    + intros [= <- <- <-]. exists data, raw, fs. rewrite Ep.
      repeat (split; [done |]). split; [left; done | right; done].
  - unfold exists_, write_file.
    destruct (<[object_dir repo sha0 := Dir]> fs !! object_file repo sha0)
      as [n|] eqn:Ep.
    + intros [= <- <- <-].
      exists data, raw, (<[object_dir repo sha0 := Dir]> fs). rewrite Ep.
      repeat (split; [done |]). split; [right; done | left; done].
    + intros [= <- <- <-].
      exists data, raw, (<[object_dir repo sha0 := Dir]> fs). rewrite Ep.
      repeat (split; [done |]). split; [right; done | right; done].
Qed.


(** A write succeeds when the directory of the identity is not taken by a
    regular file: afterwards the directory is there, and at the path of the
    object is what was there before or, if nothing was, the compressed
    frame. *)
Lemma object_write_ok obj repo fs obj1 data raw :
  serialize obj = (obj1, Ok data) ->
  frame (fmt obj) data = Ok raw ->
  (forall c, fs !! object_dir repo (Sha1.hexdigest raw) <> Some (File c)) ->
  exists fs1,
    object_write obj (Some repo) fs = (obj1, fs1, Ok (Sha1.hexdigest raw))
    /\ fs1 !! object_dir repo (Sha1.hexdigest raw) = Some Dir
    /\ fs1 !! object_file repo (Sha1.hexdigest raw)
       = match fs !! object_file repo (Sha1.hexdigest raw) with
         | Some n => Some n
         | None => Some (File (zlib_compress raw))
         end.
Proof.
  intros Hs Hf Hd. unfold object_write. rewrite Hs. cbn [rbind].
  rewrite Hf, repo_file_object.
  pose proof (hexdigest_paths repo raw) as Hne.
  set (sha0 := Sha1.hexdigest raw) in *.
  set (d := object_dir repo sha0) in *.
  set (p := object_file repo sha0) in *.
  unfold exists_, write_file.
  destruct (fs !! d) as [[|c]|] eqn:Ed.
  - destruct (fs !! p) as [n|] eqn:Ep.
    + exists fs. rewrite Ed, Ep. done.
    + eexists. split; [reflexivity |].
      rewrite lookup_insert_ne by congruence. rewrite lookup_insert_eq. done.
  - exfalso. apply (Hd c). reflexivity.
  - destruct (decide (p = d)) as [Hpd | Hpd]; [contradiction |].
    rewrite lookup_insert_ne by congruence.
    destruct (fs !! p) as [n|] eqn:Ep.
    + eexists. split; [reflexivity |].
      rewrite lookup_insert_eq, lookup_insert_ne by congruence. done.
    + eexists. split; [reflexivity |].
      rewrite lookup_insert_ne by congruence.
      rewrite lookup_insert_eq, lookup_insert_eq. done.
Qed.
End WriteFacts.

Section WriteTheorems.
Context `{Zlib}.


(** C4: the frame of the blob [hello\n] is [blob 6\x00hello\n], and
    writing the blob returns the SHA-1 of that frame in hexadecimal,
    [ce013625030ba8dba906f756967f9e9ca394464a], without a repository
    and with one; in a store where the directory of the identity is not
    taken by a regular file and the path of the object is free or holds
    that object, the object read back under the identity is the blob, and
    it serializes to [hello\n]. *)
Theorem hello_blob_identity repo fs :
  (forall x, zlib_decompress (zlib_compress x) = Ok x) ->
  (forall c, fs !! object_dir repo hello_sha <> Some (File c)) ->
  (fs !! object_file repo hello_sha = None
   \/ exists c, fs !! object_file repo hello_sha = Some (File c)
               /\ zlib_decompress c = Ok hello_frame) ->
  GitBlob_init (Some hello) = Some (Ok (GitBlob (Some hello)))
  /\ frame (b "blob") hello = Ok (b "blob 6" ++ [NUL] ++ hello)
  /\ Sha1.hexdigest (b "blob 6" ++ [NUL] ++ hello) = hello_sha
  /\ object_write (GitBlob (Some hello)) None fs
     = (GitBlob (Some hello), fs, Ok hello_sha)
  /\ exists fs1,
      object_write (GitBlob (Some hello)) (Some repo) fs
      = (GitBlob (Some hello), fs1, Ok hello_sha)
      /\ forall fuel,
          object_read fuel repo hello_sha fs1
          = Some (Ok (GitBlob (Some hello)))
          /\ serialize (GitBlob (Some hello))
             = (GitBlob (Some hello), Ok hello).
Proof.
  intros Hz Hd Hp.
  assert (Hframe : frame (b "blob") hello = Ok hello_frame)
    by (vm_compute; reflexivity).
  assert (Hsha : Sha1.hexdigest hello_frame = hello_sha)
    by (vm_compute; reflexivity).
  split; [reflexivity |]. split; [exact Hframe |]. split; [exact Hsha |].
  split.
  { unfold object_write. cbn [serialize rbind fmt]. rewrite Hframe.
    fold hello_frame. rewrite Hsha. reflexivity. }
  rewrite <- Hsha in *.
  destruct (object_write_ok (GitBlob (Some hello)) repo fs _ hello hello_frame
              eq_refl Hframe Hd) as (fs1 & Hw & Hd1 & Hp1).
  exists fs1. split; [exact Hw |].
  intros fuel. split; [| reflexivity].
  rewrite object_read_stored with (raw := hello_frame).
  - apply (object_of_raw_mono 0); [vm_compute; reflexivity | lia].
  - split; [exact Hd1 |].
    destruct Hp as [Hnone | (c & Hc & Hdec)].
    + rewrite Hnone in Hp1. eexists. split; [exact Hp1 | apply Hz].
    + rewrite Hc in Hp1. exists c. split; [exact Hp1 | exact Hdec].
Qed.
End WriteTheorems.

Lemma hello_blob_identity_witness :
  object_write (H := stored_zlib) (GitBlob (Some hello)) (Some repo0) fs_empty
  = (GitBlob (Some hello), put hello_sha hello_frame fs_empty, Ok hello_sha)
  /\ object_read (H := stored_zlib) 0 repo0 hello_sha
       (put hello_sha hello_frame fs_empty)
     = Some (Ok (GitBlob (Some hello))).
Proof.
  assert (Hz : forall x, stored_decompress (stored_compress x) = Ok x)
    by reflexivity.
  assert (Hd : forall c, fs_empty !! object_dir repo0 hello_sha <> Some (File c))
    by (intros c; vm_compute; discriminate).
  assert (Hp : fs_empty !! object_file repo0 hello_sha = None
               \/ exists c, fs_empty !! object_file repo0 hello_sha
                             = Some (File c)
                           /\ stored_decompress c = Ok hello_frame)
    by (left; vm_compute; reflexivity).
  destruct (hello_blob_identity (H := stored_zlib) repo0 fs_empty Hz Hd Hp)
    as (_ & _ & _ & _ & fs1 & Hw & Hr).
  assert (Hfs : fs1 = put hello_sha hello_frame fs_empty).
  { assert (Hw' : object_write (H := stored_zlib) (GitBlob (Some hello))
                    (Some repo0) fs_empty
                  = (GitBlob (Some hello), put hello_sha hello_frame fs_empty,
                     Ok hello_sha)) by (vm_compute; reflexivity).
    congruence. }
  subst fs1. split; [exact Hw | exact (proj1 (Hr 0%nat))].
Defined.

(** * Further properties *)

(** Decidable side conditions on concrete data. *)
Ltac by_compute := apply (bool_decide_unpack _); vm_compute; exact I.
Ltac good_keys :=
  repeat (apply List.Forall_cons;
          [repeat split; [discriminate | by_compute ..] |]);
  apply List.Forall_nil.

(** ** Sequences *)

Section SeqFacts.
Context {A : Type} `{EqDecision A}.
Implicit Types l pre : list A.

Lemma len_app l1 l2 : len (l1 ++ l2) = (len l1 + len l2)%Z.
Proof. unfold len. rewrite length_app. lia. Qed.

Lemma len_nonneg l : (0 <= len l)%Z.
Proof. unfold len. lia. Qed.

Lemma find_at_notin (c : A) l i : c ∉ l -> find_at c l i = (-1)%Z.
Proof.
  revert i. induction l as [|x l IH]; intros i Hc; simpl; [reflexivity |].
  apply not_elem_of_cons in Hc as [Hx Hl].
  destruct (decide (x = c)); [congruence | apply IH, Hl].
Qed.

Lemma find_at_app (c : A) a r i :
  c ∉ a -> find_at c (a ++ c :: r) i = (i + len a)%Z.
Proof.
  revert i. induction a as [|x a IH]; intros i Hc; simpl.
  - destruct (decide (c = c)); [unfold len; simpl; lia | congruence].
  - apply not_elem_of_cons in Hc as [Hx Ha].
    destruct (decide (x = c)); [congruence |].
    rewrite IH by exact Ha. unfold len. simpl. lia.
Qed.

Lemma find_at_skip (c : A) a r i :
  c ∉ a -> find_at c (a ++ r) i = find_at c r (i + len a).
Proof.
  revert i. induction a as [|x a IH]; intros i Hc; simpl.
  - f_equal. unfold len. simpl. lia.
  - apply not_elem_of_cons in Hc as [Hx Ha].
    destruct (decide (x = c)); [congruence |].
    rewrite IH by exact Ha. f_equal. unfold len. simpl. lia.
Qed.

Lemma find_at_lower (c : A) r i :
  c ∈ r -> (i <= find_at c r i)%Z.
Proof.
  intros Hc. apply list_elem_of_split_l in Hc as (r1 & r2 & -> & Hr1).
  rewrite find_at_app by exact Hr1. pose proof (len_nonneg r1). lia.
Qed.

Lemma find_at_range (c : A) l i :
  find_at c l i = (-1)%Z \/ (i <= find_at c l i < i + len l)%Z.
Proof.
  revert i. induction l as [|x l IH]; intros i; simpl; [left; reflexivity |].
  destruct (decide (x = c)).
  - right. unfold len. simpl. lia.
  - destruct (IH (i + 1)%Z) as [-> | Hr]; [left; reflexivity |].
    right. unfold len in *. simpl. lia.
Qed.

(** [find] returns [-1] or an index at or after the cursor. *)
Lemma find_range l (c : A) s :
  (0 <= s)%Z -> find l c s = (-1)%Z \/ (s <= find l c s < len l)%Z.
Proof.
  intros Hs. unfold find. destruct (Z.ltb_spec s 0); [lia |].
  destruct (find_at_range c (drop (Z.to_nat s) l) s) as [-> | Hr];
    [left; reflexivity |].
  right. unfold len in *. rewrite length_drop in Hr. lia.
Qed.

Lemma slice_length l i j :
  (0 <= i <= j)%Z -> (j <= len l)%Z -> length (slice l i j) = Z.to_nat (j - i).
Proof.
  intros Hij Hj. unfold slice, clamp.
  destruct (Z.ltb_spec i 0); [lia |]. destruct (Z.ltb_spec j 0); [lia |].
  rewrite !Z.min_l by lia. rewrite length_take, length_drop.
  unfold len in Hj. lia.
Qed.

Lemma slice_length_le l i j :
  (0 <= i)%Z -> (0 <= j)%Z -> length (slice l i j) <= Z.to_nat (j - i).
Proof.
  intros Hi Hj. unfold slice, clamp. destruct (Z.ltb_spec i 0); [lia |].
  rewrite length_take. destruct (Z.ltb_spec j 0); lia.
Qed.

Lemma find_pre pre l (c : A) : find (pre ++ l) c (len pre) = find_at c l (len pre).
Proof.
  unfold find. pose proof (len_nonneg pre).
  destruct (Z.ltb_spec (len pre) 0); [lia |].
  unfold len at 1. rewrite Nat2Z.id, drop_app_length. reflexivity.
Qed.

(** The first [c] at or after the cursor. *)
Lemma find_from pre a (c : A) r :
  c ∉ a -> find (pre ++ a ++ c :: r) c (len pre) = (len pre + len a)%Z.
Proof. intros Hc. rewrite find_pre. apply find_at_app, Hc. Qed.

Lemma find_here pre (c : A) r : find (pre ++ c :: r) c (len pre) = len pre.
Proof.
  pose proof (find_from pre [] c r (not_elem_of_nil c)) as Hf.
  cbn [app] in Hf. rewrite Hf. change (len []) with 0%Z. lia.
Qed.

(** Elements other than [c] between two cursors do not matter. *)
Lemma find_skip pre a r (c : A) :
  c ∉ a ->
  find (pre ++ a ++ r) c (len pre) = find (pre ++ a ++ r) c (len pre + len a).
Proof.
  intros Hc. rewrite find_pre, find_at_skip by exact Hc.
  rewrite (app_assoc pre a r), <- len_app. symmetry. apply find_pre.
Qed.

Lemma find_lower pre a r (c : A) :
  c ∉ a -> c ∈ r -> (len pre + len a <= find (pre ++ a ++ r) c (len pre))%Z.
Proof.
  intros Ha Hr. rewrite find_pre, find_at_skip by exact Ha.
  apply find_at_lower, Hr.
Qed.

Lemma find_notin l (c : A) s : c ∉ l -> find l c s = (-1)%Z.
Proof.
  intros Hc. unfold find. apply find_at_notin. intros Hin. apply Hc.
  eapply subseteq_drop, Hin.
Qed.

Lemma slice_mid pre m r :
  slice (pre ++ m ++ r) (len pre) (len pre + len m) = m.
Proof.
  unfold slice, clamp. rewrite !len_app.
  pose proof (len_nonneg pre). pose proof (len_nonneg m).
  pose proof (len_nonneg r).
  destruct (Z.ltb_spec (len pre) 0); [lia |].
  destruct (Z.ltb_spec (len pre + len m) 0); [lia |].
  rewrite Z.min_l, Z.min_l by lia.
  replace (len pre + len m - len pre)%Z with (len m) by lia.
  unfold len. rewrite !Nat2Z.id, drop_app_length. apply take_app_length.
Qed.

Lemma slice_from_app pre r : slice_from (pre ++ r) (len pre) = r.
Proof.
  unfold slice_from, clamp. rewrite len_app.
  pose proof (len_nonneg pre). pose proof (len_nonneg r).
  destruct (Z.ltb_spec (len pre) 0); [lia |].
  rewrite Z.min_l by lia. unfold len. rewrite Nat2Z.id. apply drop_app_length.
Qed.

Lemma getitem_app pre (c : A) r : getitem (pre ++ c :: r) (len pre) = Ok c.
Proof.
  unfold getitem. pose proof (len_nonneg pre).
  destruct (Z.ltb_spec (len pre) 0); [lia |].
  destruct (Z.ltb_spec (len pre) 0); [lia |].
  unfold len. rewrite Nat2Z.id, nth_error_app2, Nat.sub_diag by lia.
  reflexivity.
Qed.
End SeqFacts.

(** ** Line folding *)

Lemma startswith_nil {A} `{EqDecision A} (l : list A) : startswith l [] = true.
Proof. destruct l; reflexivity. Qed.

Lemma fold_cons (x : ascii) v :
  replace (x :: v) [LF] [LF; SP]
  = if decide (x = LF) then LF :: SP :: replace v [LF] [LF; SP]
    else x :: replace v [LF] [LF; SP].
Proof.
  unfold replace. cbn [replace_from startswith length Nat.sub].
  destruct (decide (x = LF)); [| reflexivity].
  rewrite startswith_nil. reflexivity.
Qed.

Lemma unfold_LF v :
  replace (LF :: SP :: v) [LF; SP] [LF] = LF :: replace v [LF; SP] [LF].
Proof.
  unfold replace. cbn [replace_from startswith length Nat.sub].
  rewrite !decide_True by reflexivity. rewrite startswith_nil. reflexivity.
Qed.

Lemma unfold_other x v :
  x <> LF -> replace (x :: v) [LF; SP] [LF] = x :: replace v [LF; SP] [LF].
Proof.
  intros Hx. unfold replace. cbn [replace_from startswith].
  rewrite decide_False by exact Hx. reflexivity.
Qed.

(** Unfolding undoes folding. *)
Lemma unfold_fold v : replace (replace v [LF] [LF; SP]) [LF; SP] [LF] = v.
Proof.
  induction v as [|x v IH]; [reflexivity |].
  rewrite fold_cons. destruct (decide (x = LF)) as [-> | Hx].
  - rewrite unfold_LF, IH. reflexivity.
  - rewrite unfold_other, IH by exact Hx. reflexivity.
Qed.

(** ** Parsing header lines *)

Lemma ord_neq (c d : ascii) : c <> d -> (ord c =? ord d)%N = false.
Proof.
  intros Hne. apply N.eqb_neq. intros Heq. apply Hne.
  rewrite <- (ascii_N_embedding c), <- (ascii_N_embedding d).
  unfold ord in Heq. rewrite Heq. reflexivity.
Qed.

(** The loop of [kvlm_parse] stops at the newline that ends a folded
    value, when the next line does not start with a space. *)
Lemma scan_fold v : forall fuel pre rest e c raw,
  length v < fuel -> c <> SP ->
  raw = pre ++ replace v [LF] [LF; SP] ++ LF :: c :: rest ->
  find raw LF (e + 1) = find raw LF (len pre) ->
  scan_end fuel raw e
  = Some (Ok (len pre + len (replace v [LF] [LF; SP]))%Z).
Proof.
  induction v as [|x v IH]; intros fuel pre rest e c raw Hfuel Hc -> He.
  - destruct fuel as [|f]; [simpl in Hfuel; lia |]. cbn [scan_end].
    rewrite He. change (replace [] [LF] [LF; SP]) with (@nil ascii) in *.
    cbn [app]. rewrite find_here. rewrite Z.add_0_r.
    replace (pre ++ LF :: c :: rest) with ((pre ++ [LF]) ++ c :: rest)
      by (rewrite <- app_assoc; reflexivity).
    replace (len pre + 1)%Z with (len (pre ++ [LF]))
      by (rewrite len_app; reflexivity).
    rewrite getitem_app. cbn [lift mbind]. rewrite (ord_neq c SP Hc).
    reflexivity.
  - rewrite fold_cons in *. destruct (decide (x = LF)) as [-> | Hx].
    + destruct fuel as [|f]; [simpl in Hfuel; lia |]. cbn [scan_end].
      rewrite He.
      set (F := replace v [LF] [LF; SP]) in *.
      assert (Hraw : pre ++ (LF :: SP :: F) ++ LF :: c :: rest
                     = (pre ++ [LF; SP]) ++ F ++ LF :: c :: rest)
        by (rewrite <- app_assoc; reflexivity).
      assert (Hnl : find (pre ++ (LF :: SP :: F) ++ LF :: c :: rest) LF (len pre)
                    = len pre).
      { apply find_here. }
      rewrite Hnl.
      replace (pre ++ (LF :: SP :: F) ++ LF :: c :: rest)
        with ((pre ++ [LF]) ++ SP :: F ++ LF :: c :: rest) at 1
        by (rewrite <- app_assoc; reflexivity).
      replace (len pre + 1)%Z with (len (pre ++ [LF]))
        by (rewrite len_app; reflexivity).
      rewrite getitem_app. cbn [lift mbind]. rewrite N.eqb_refl. cbn [negb].
      rewrite (IH f (pre ++ [LF; SP]) rest (len pre) c _ ltac:(simpl in Hfuel; lia)
                 Hc Hraw).
      * f_equal. f_equal. rewrite len_app. unfold len. simpl. lia.
      * replace (pre ++ (LF :: SP :: F) ++ LF :: c :: rest)
          with ((pre ++ [LF]) ++ [SP] ++ F ++ LF :: c :: rest)
          by (rewrite <- app_assoc; reflexivity).
        replace (len pre + 1)%Z with (len (pre ++ [LF]))
          by (rewrite len_app; reflexivity).
        rewrite find_skip by (apply not_elem_of_cons; split;
                              [discriminate | apply not_elem_of_nil]).
        f_equal. rewrite !len_app. unfold len. simpl. lia.
    + set (F := replace v [LF] [LF; SP]) in *.
      assert (Hraw : pre ++ (x :: F) ++ LF :: c :: rest
                     = (pre ++ [x]) ++ F ++ LF :: c :: rest)
        by (rewrite <- app_assoc; reflexivity).
      rewrite (IH fuel (pre ++ [x]) rest e c _ ltac:(simpl in Hfuel; lia)
                 Hc Hraw).
      * f_equal. f_equal. rewrite len_app. unfold len. simpl. lia.
      * rewrite He.
        replace (pre ++ (x :: F) ++ LF :: c :: rest)
          with (pre ++ [x] ++ F ++ LF :: c :: rest) by reflexivity.
        rewrite find_skip by (apply not_elem_of_cons; split;
                              [congruence | apply not_elem_of_nil]).
        f_equal. rewrite len_app. reflexivity.
Qed.

Lemma kvlm_line_length k v : length v + 2 <= length (kvlm_line k v).
Proof.
  unfold kvlm_line. rewrite !length_app. cbn [length].
  assert (length v <= length (replace v [LF] [LF; SP])).
  { induction v as [|x v IH]; [cbn; lia |].
    rewrite fold_cons. destruct (decide (x = LF)); cbn [length]; lia. }
  lia.
Qed.

(** One header line, followed by a line that does not start with a space,
    is stored, and the parse goes on behind it. *)
Lemma kvlm_parse_line fuel pre k v c rest dct raw :
  good_key k -> c <> SP -> length v < fuel ->
  raw = pre ++ kvlm_line k v ++ c :: rest ->
  kvlm_parse (S fuel) raw (len pre) dct
  = kvlm_parse fuel raw (len pre + len (kvlm_line k v)) (kvlm_add dct (k, v)).
Proof.
  intros (Hne & Hsp & Hlf) Hc Hfuel ->. unfold kvlm_line.
  set (F := replace v [LF] [LF; SP]).
  set (raw := pre ++ (k ++ [SP] ++ F ++ [LF]) ++ c :: rest).
  assert (Hraw1 : raw = pre ++ k ++ SP :: (F ++ LF :: c :: rest)).
  { unfold raw. rewrite <- !app_assoc. reflexivity. }
  assert (Hraw2 : raw = (pre ++ k ++ [SP]) ++ F ++ LF :: c :: rest).
  { unfold raw. rewrite <- !app_assoc. reflexivity. }
  assert (Hspc : find raw SP (len pre) = (len pre + len k)%Z).
  { rewrite Hraw1. apply find_from, Hsp. }
  assert (Hnl : (len pre + len k <= find raw LF (len pre))%Z).
  { rewrite Hraw1. apply find_lower; [exact Hlf |].
    apply elem_of_cons. right. apply elem_of_app. right. apply elem_of_cons.
    left. reflexivity. }
  cbn [kvlm_parse]. rewrite Hspc.
  pose proof (len_nonneg pre). pose proof (len_nonneg k).
  replace ((len pre + len k <? 0)%Z || (find raw LF (len pre) <? len pre + len k)%Z)
    with false
    by (symmetry; apply orb_false_iff; split; apply Z.ltb_ge; lia).
  assert (Hscan : scan_end fuel raw (len pre)
                  = Some (Ok (len (pre ++ k ++ [SP]) + len F)%Z)).
  { apply (scan_fold v fuel (pre ++ k ++ [SP]) rest (len pre) c raw Hfuel Hc Hraw2).
    destruct k as [|k0 k']; [congruence |].
    apply not_elem_of_cons in Hlf as [Hk0 Hk'].
    assert (Hraw3 : raw = (pre ++ [k0]) ++ (k' ++ [SP]) ++ F ++ LF :: c :: rest).
    { unfold raw. rewrite <- !app_assoc. reflexivity. }
    replace (len pre + 1)%Z with (len (pre ++ [k0]))
      by (rewrite len_app; reflexivity).
    rewrite Hraw3 at 1. rewrite find_skip.
    - rewrite <- Hraw3. f_equal. rewrite !len_app. unfold len. simpl. lia.
    - intros Hin. apply elem_of_app in Hin as [Hin | Hin]; [contradiction |].
      apply list_elem_of_singleton in Hin. discriminate. }
  rewrite Hscan. cbn [mbind].
  assert (Hkey : slice raw (len pre) (len pre + len k) = k)
    by (rewrite Hraw1; apply slice_mid).
  rewrite Hkey.
  assert (Hval : slice raw (len pre + len k + 1) (len (pre ++ k ++ [SP]) + len F)
                 = F).
  { replace (len pre + len k + 1)%Z with (len (pre ++ k ++ [SP]))
      by (rewrite !len_app; unfold len; simpl; lia).
    rewrite Hraw2. apply slice_mid. }
  fold raw. rewrite Hval.
  replace (replace F [LF; SP] [LF]) with v by (symmetry; apply unfold_fold).
  unfold kvlm_add. cbn [fst snd]. f_equal.
  rewrite !len_app. unfold len. simpl. lia.
Qed.

(** The blank line: the rest of the input is the message. *)
Lemma kvlm_parse_blank fuel pre m dct :
  kvlm_parse (S fuel) (pre ++ LF :: m) (len pre) dct
  = Some (Ok (dict_set dct None (VBytes m))).
Proof.
  cbn [kvlm_parse]. rewrite find_here.
  assert (Hspc : let spc := find (pre ++ LF :: m) SP (len pre) in
                 ((spc <? 0)%Z || (len pre <? spc)%Z) = true).
  { cbn zeta. rewrite find_pre. cbn [find_at].
    rewrite decide_False by discriminate.
    destruct (decide (SP ∈ m)) as [Hin | Hin].
    - pose proof (find_at_lower SP m (len pre + 1) Hin).
      apply orb_true_iff. right. apply Z.ltb_lt. lia.
    - rewrite find_at_notin by exact Hin. reflexivity. }
  cbn zeta in Hspc. rewrite Hspc, Z.eqb_refl.
  replace (pre ++ LF :: m) with ((pre ++ [LF]) ++ m)
    by (rewrite <- app_assoc; reflexivity).
  replace (len pre + 1)%Z with (len (pre ++ [LF]))
    by (rewrite len_app; reflexivity).
  rewrite slice_from_app. reflexivity.
Qed.

Lemma kvlm_text_head hs m :
  Forall (fun kv => good_key kv.1) hs ->
  exists c rest, kvlm_text hs m = c :: rest /\ c <> SP.
Proof.
  intros Hhs. destruct hs as [|[k v] hs].
  - exists LF, m. split; [reflexivity | discriminate].
  - inversion Hhs as [|? ? (Hne & Hsp & _) _]; subst. cbn [fst] in *.
    destruct k as [|k0 k']; [congruence |].
    eexists k0, _. split; [reflexivity |].
    intros ->. apply Hsp. apply elem_of_cons. left. reflexivity.
Qed.

Lemma kvlm_parse_text_at hs : forall fuel pre m dct,
  Forall (fun kv => good_key kv.1) hs ->
  length (kvlm_text hs m) <= fuel ->
  kvlm_parse fuel (pre ++ kvlm_text hs m) (len pre) dct
  = Some (Ok (dict_set (fold_left kvlm_add hs dct) None (VBytes m))).
Proof.
  induction hs as [|[k v] hs IH]; intros fuel pre m dct Hhs Hfuel.
  - destruct fuel as [|f]; [simpl in Hfuel; lia |]. apply kvlm_parse_blank.
  - inversion Hhs as [|? ? Hk Hhs']; subst. cbn [fst] in Hk.
    destruct (kvlm_text_head hs m Hhs') as (c & rest & Hrest & Hc).
    assert (Htext : kvlm_text ((k, v) :: hs) m
                    = kvlm_line k v ++ kvlm_text hs m).
    { unfold kvlm_text. cbn [flat_map fst snd]. rewrite <- app_assoc. reflexivity. }
    rewrite Htext in *. rewrite length_app in Hfuel.
    pose proof (kvlm_line_length k v).
    assert (Hlen : 1 <= length (kvlm_text hs m))
      by (rewrite Hrest; simpl; lia).
    destruct fuel as [|f]; [lia |].
    rewrite Hrest.
    rewrite (kvlm_parse_line f pre k v c rest dct (pre ++ kvlm_line k v ++ c :: rest) Hk Hc)
      by (lia || reflexivity).
    replace (pre ++ kvlm_line k v ++ c :: rest)
      with ((pre ++ kvlm_line k v) ++ c :: rest)
      by (rewrite <- app_assoc; reflexivity).
    rewrite <- len_app, <- Hrest. rewrite IH; [reflexivity | exact Hhs' | lia].
Qed.

Lemma kvlm_parse_lines hs m fuel :
  Forall (fun kv => good_key kv.1) hs ->
  length (kvlm_text hs m) <= fuel ->
  kvlm_parse fuel (kvlm_text hs m) 0 []
  = Some (Ok (dict_set (fold_left kvlm_add hs []) None (VBytes m))).
Proof. intros Hhs Hfuel. exact (kvlm_parse_text_at hs fuel [] m [] Hhs Hfuel). Qed.

(** X1: [kvlm_parse] reads a message with headers as the mapping that
    holds the headers, inserted in their order, and the body under [None].
    A key that comes again gets the list of its old value and the new
    value; a value of several lines is unfolded. *)
Theorem kvlm_parse_text hs m fuel :
  Forall (fun kv => good_key kv.1) hs ->
  length (kvlm_text hs m) <= fuel ->
  kvlm_parse fuel (kvlm_text hs m) 0 []
  = Some (Ok (dict_set (fold_left kvlm_add hs []) None (VBytes m))).
Proof. exact (kvlm_parse_lines hs m fuel). Qed.

Lemma kvlm_parse_text_witness :
  kvlm_text two_parents_headers (b "merge" ++ [LF]) = two_parents
  /\ kvlm_parse 300 (kvlm_text two_parents_headers (b "merge" ++ [LF])) 0 []
     = Some (Ok (dict_set (fold_left kvlm_add two_parents_headers []) None
                   (VBytes (b "merge" ++ [LF])))).
Proof.
  split; [reflexivity |].
  apply (kvlm_parse_text two_parents_headers (b "merge" ++ [LF]) 300);
    [good_keys | vm_compute; lia].
Defined.

(** ** Mappings *)

Lemma dict_get_set d k v k' :
  dict_get (dict_set d k v) k' = if decide (k = k') then Some v else dict_get d k'.
Proof.
  induction d as [|[k0 v0] d IH]; simpl.
  - destruct (decide (k = k')); reflexivity.
  - destruct (decide (k0 = k)) as [-> | Hne]; simpl.
    + destruct (decide (k = k')); reflexivity.
    + destruct (decide (k0 = k')) as [-> | Hne'].
      * rewrite decide_False by congruence. reflexivity.
      * exact IH.
Qed.

Lemma dict_get_app d1 d2 k :
  dict_get (d1 ++ d2) k
  = match dict_get d1 k with Some v => Some v | None => dict_get d2 k end.
Proof.
  induction d1 as [|[k0 v0] d1 IH]; simpl; [reflexivity |].
  destruct (decide (k0 = k)); [reflexivity | exact IH].
Qed.

Lemma dict_set_fresh d k v : dict_get d k = None -> dict_set d k v = d ++ [(k, v)].
Proof.
  induction d as [|[k0 v0] d IH]; simpl; [reflexivity |].
  destruct (decide (k0 = k)); [discriminate |].
  intros Hd. rewrite IH by exact Hd. reflexivity.
Qed.

Lemma dict_get_keys d k : dict_get d k = None <-> k ∉ map fst d.
Proof.
  induction d as [|[k0 v0] d IH]; simpl.
  - split; [intros _; apply not_elem_of_nil | reflexivity].
  - rewrite not_elem_of_cons. destruct (decide (k0 = k)) as [-> | Hne].
    + split; [discriminate | intros [Hk _]; congruence].
    + rewrite IH. split; [intros Hk; split; [congruence | exact Hk] | intros [_ Hk]; exact Hk].
Qed.

Lemma kvlm_of_keys hs m :
  map fst (kvlm_of hs m) = map (fun kv => Some kv.1) hs ++ [None].
Proof.
  unfold kvlm_of. rewrite map_app, map_map. reflexivity.
Qed.

Lemma dict_get_headers hs k :
  k ∉ map fst hs ->
  dict_get (map (fun kv : bytes * bytes => (Some kv.1, VBytes kv.2)) hs) (Some k)
  = None.
Proof.
  intros Hk. apply dict_get_keys. rewrite map_map. cbn [fst].
  intros Hin. apply Hk. apply list_elem_of_fmap in Hin as (kv & [= ->] & Hkv).
  apply list_elem_of_fmap. exists kv. split; [reflexivity | exact Hkv].
Qed.

(** Distinct keys are stored one after the other. *)
Lemma kvlm_add_distinct hs : forall d,
  NoDup (map fst hs) ->
  (forall k, k ∈ map fst hs -> dict_get d (Some k) = None) ->
  fold_left kvlm_add hs d
  = d ++ map (fun kv => (Some kv.1, VBytes kv.2)) hs.
Proof.
  induction hs as [|[k v] hs IH]; intros d Hnd Hd; simpl.
  - symmetry. apply app_nil_r.
  - apply NoDup_cons in Hnd as [Hk Hnd].
    assert (Hdk : dict_get d (Some k) = None).
    { apply Hd. apply elem_of_cons. left. reflexivity. }
    unfold kvlm_add at 2. cbn [fst snd]. rewrite Hdk.
    rewrite dict_set_fresh by exact Hdk. rewrite IH.
    + rewrite <- app_assoc. reflexivity.
    + exact Hnd.
    + intros k' Hk'. rewrite dict_get_app, Hd by (apply elem_of_cons; right; exact Hk').
      simpl. rewrite decide_False; [reflexivity |].
      intros [= ->]. contradiction.
Qed.

(** ** Serializing a mapping *)

Lemma kvlm_fold_raise d e ks :
  fold_left (fun acc k => rbind acc (fun ret => kvlm_serialize_key d ret k)) ks
    (Raise e) = Raise e.
Proof. induction ks as [|k ks IH]; simpl; [reflexivity | exact IH]. Qed.

Lemma kvlm_fold_headers d hs : forall acc,
  (forall k v, (k, v) ∈ hs -> k <> [] /\ dict_get d (Some k) = Some (VBytes v)) ->
  fold_left (fun acc k => rbind acc (fun ret => kvlm_serialize_key d ret k))
    (map (fun kv => Some kv.1) hs) (Ok acc)
  = Ok (acc ++ flat_map (fun kv => kvlm_line kv.1 kv.2) hs).
Proof.
  induction hs as [|[k v] hs IH]; intros acc Hd;
    cbn [map fold_left rbind fst snd flat_map].
  - rewrite app_nil_r. reflexivity.
  - destruct (Hd k v) as [Hne Hget]; [apply elem_of_cons; left; reflexivity |].
    destruct k as [|c k]; [congruence |].
    assert (Hstep : kvlm_serialize_key d acc (Some (c :: k))
                    = Ok (acc ++ (c :: k) ++ [SP] ++ replace v [LF] [LF; SP] ++ [LF])).
    { unfold kvlm_serialize_key. rewrite Hget. reflexivity. }
    rewrite Hstep. rewrite IH.
    + unfold kvlm_line. rewrite <- !app_assoc. reflexivity.
    + intros k' v' Hin. apply Hd. apply elem_of_cons. right. exact Hin.
Qed.

Lemma kvlm_serialize_of hs m :
  Forall (fun kv => good_key kv.1) hs ->
  NoDup (map fst hs) ->
  kvlm_serialize (kvlm_of hs m) = Ok (kvlm_text hs (m ++ [LF])).
Proof.
  intros Hhs Hnd. unfold kvlm_serialize. rewrite kvlm_of_keys, fold_left_app.
  rewrite kvlm_fold_headers.
  - simpl. unfold kvlm_of. rewrite dict_get_app.
    assert (Hnone : dict_get (map (fun kv : bytes * bytes => (Some kv.1, VBytes kv.2)) hs)
                      None = None).
    { apply dict_get_keys. rewrite map_map. intros Hin.
      apply list_elem_of_fmap in Hin as (kv & [=] & _). }
    rewrite Hnone. simpl. unfold kvlm_text. rewrite <- ?app_assoc. reflexivity.
  - intros k v Hin. split.
    + rewrite Forall_forall in Hhs. apply (Hhs (k, v) Hin).
    + unfold kvlm_of. rewrite dict_get_app.
      clear Hhs. induction hs as [|[k0 v0] hs IH]; [inversion Hin |].
      apply NoDup_cons in Hnd as [Hk0 Hnd]. simpl.
      apply elem_of_cons in Hin as [[= -> ->] | Hin].
      * rewrite decide_True by reflexivity. reflexivity.
      * rewrite decide_False.
        -- apply IH; assumption.
        -- intros [= ->]. apply Hk0. apply list_elem_of_fmap.
           exists (k, v). split; [reflexivity | exact Hin].
Qed.

(** X2: a mapping with one value per key is serialized to its text, with
    a newline after the body, and the text is parsed back to the mapping,
    the newline now part of the body. *)
Theorem kvlm_serialize_parse hs m fuel :
  Forall (fun kv => good_key kv.1) hs ->
  NoDup (map fst hs) ->
  length (kvlm_text hs (m ++ [LF])) <= fuel ->
  kvlm_serialize (kvlm_of hs m) = Ok (kvlm_text hs (m ++ [LF]))
  /\ kvlm_parse fuel (kvlm_text hs (m ++ [LF])) 0 []
     = Some (Ok (kvlm_of hs (m ++ [LF]))).
Proof.
  intros Hhs Hnd Hfuel. split; [apply kvlm_serialize_of; assumption |].
  rewrite kvlm_parse_lines by assumption.
  rewrite kvlm_add_distinct by (exact Hnd || reflexivity).
  rewrite dict_set_fresh; [reflexivity |].
  apply dict_get_keys. cbn [app]. rewrite map_map. intros Hin.
  apply list_elem_of_fmap in Hin as (kv & [=] & _).
Qed.

Lemma kvlm_serialize_parse_witness :
  kvlm_serialize (kvlm_of one_parent_headers (b "fix bug"))
  = Ok (kvlm_text one_parent_headers (b "fix bug" ++ [LF]))
  /\ kvlm_parse 300 (kvlm_text one_parent_headers (b "fix bug" ++ [LF])) 0 []
     = Some (Ok (kvlm_of one_parent_headers (b "fix bug" ++ [LF]))).
Proof.
  apply (kvlm_serialize_parse one_parent_headers (b "fix bug") 300);
    [good_keys | by_compute | vm_compute; lia].
Defined.

Lemma kvlm_serialize_key_cases d acc k :
  dict_get d k <> None ->
  (exists out, kvlm_serialize_key d acc k = Ok out
               /\ forall c kb vs, k = Some (c :: kb) ->
                    dict_get d k <> Some (VList vs))
  \/ kvlm_serialize_key d acc k = Raise AttributeError.
Proof.
  intros Hk. unfold kvlm_serialize_key. destruct k as [[|c kb]|].
  - left. eexists. split; [reflexivity | discriminate].
  - destruct (dict_get d (Some (c :: kb))) as [[v|vs]|]; [| | congruence].
    + left. eexists. split; [reflexivity | discriminate].
    + right. reflexivity.
  - left. eexists. split; [reflexivity | discriminate].
Qed.

Lemma kvlm_fold_list d ks : forall acc,
  (forall k, k ∈ ks -> dict_get d k <> None) ->
  (exists out, fold_left (fun acc k => rbind acc (fun ret => kvlm_serialize_key d ret k))
                 ks (Ok acc) = Ok out
               /\ forall c k vs, Some (c :: k) ∈ ks ->
                    dict_get d (Some (c :: k)) <> Some (VList vs))
  \/ fold_left (fun acc k => rbind acc (fun ret => kvlm_serialize_key d ret k))
       ks (Ok acc) = Raise AttributeError.
Proof.
  induction ks as [|k ks IH]; intros acc Hks; cbn [fold_left rbind].
  - left. exists acc. split; [reflexivity |]. intros c k vs Hin. inversion Hin.
  - assert (Hk : dict_get d k <> None) by (apply Hks, elem_of_cons; left; reflexivity).
    assert (Hks' : forall k', k' ∈ ks -> dict_get d k' <> None)
      by (intros k' Hin; apply Hks, elem_of_cons; right; exact Hin).
    destruct (kvlm_serialize_key_cases d acc k Hk) as [(out1 & -> & Hno1) | ->];
      [| right; apply kvlm_fold_raise].
    destruct (IH out1 Hks') as [(out & Hout & Hno) | Hraise];
      [left | right; exact Hraise].
    exists out. split; [exact Hout |]. intros c k' vs Hin.
    apply elem_of_cons in Hin as [<- | Hin]; [eapply Hno1; reflexivity |].
    eapply Hno, Hin.
Qed.

Lemma kvlm_serialize_list_raises d c k vs :
  dict_get d (Some (c :: k)) = Some (VList vs) ->
  kvlm_serialize d = Raise AttributeError.
Proof.
  intros Hget. unfold kvlm_serialize.
  destruct (kvlm_fold_list d (map fst d) []) as [(out & _ & Hno) | ->].
  - intros k' Hin Hnone. apply dict_get_keys in Hnone. contradiction.
  - exfalso. apply (Hno c k vs); [| exact Hget].
    destruct (decide (Some (c :: k) ∈ map fst d)) as [Hin | Hnin]; [exact Hin |].
    apply dict_get_keys in Hnin. congruence.
  - reflexivity.
Qed.

(** X3: a mapping that holds a list under a non-empty key cannot be
    serialized: [kvlm_serialize] raises [AttributeError]. *)
Theorem kvlm_serialize_list d c k vs :
  dict_get d (Some (c :: k)) = Some (VList vs) ->
  kvlm_serialize d = Raise AttributeError.
Proof. exact (kvlm_serialize_list_raises d c k vs). Qed.

Lemma kvlm_serialize_list_witness :
  kvlm_serialize two_parents_kvlm = Raise AttributeError.
Proof.
  apply (kvlm_serialize_list two_parents_kvlm "p"%char (b "arent")
           [VBytes (b id_p1); VBytes (b id_p2)]).
  reflexivity.
Defined.

Lemma kvlm_add_present d kv k :
  dict_get d (Some k) <> None -> dict_get (kvlm_add d kv) (Some k) <> None.
Proof.
  intros Hk. unfold kvlm_add.
  destruct (dict_get d (Some kv.1)); rewrite dict_get_set;
    destruct (decide (Some kv.1 = Some k)); congruence.
Qed.

Lemma kvlm_add_list d kv k :
  (exists vs, dict_get d (Some k) = Some (VList vs)) ->
  exists vs, dict_get (kvlm_add d kv) (Some k) = Some (VList vs).
Proof.
  intros [vs Hk]. unfold kvlm_add.
  destruct (dict_get d (Some kv.1)) eqn:Hget; rewrite dict_get_set;
    destruct (decide (Some kv.1 = Some k)) as [Heq | Hne]; eauto.
  rewrite Heq in Hget. congruence.
Qed.

Lemma kvlm_add_again d k v :
  dict_get d (Some k) <> None ->
  exists vs, dict_get (kvlm_add d (k, v)) (Some k) = Some (VList vs).
Proof.
  intros Hk. unfold kvlm_add. cbn [fst snd].
  destruct (dict_get d (Some k)) as [old|]; [| congruence].
  rewrite dict_get_set, decide_True by reflexivity. eauto.
Qed.

Lemma kvlm_add_self d k v : dict_get (kvlm_add d (k, v)) (Some k) <> None.
Proof.
  unfold kvlm_add. cbn [fst snd].
  destruct (dict_get d (Some k)); rewrite dict_get_set, decide_True;
    congruence.
Qed.

Lemma fold_kvlm_add_list hs : forall d k,
  (exists vs, dict_get d (Some k) = Some (VList vs)) ->
  exists vs, dict_get (fold_left kvlm_add hs d) (Some k) = Some (VList vs).
Proof.
  induction hs as [|kv hs IH]; intros d k Hk; [exact Hk |].
  simpl. apply IH, kvlm_add_list, Hk.
Qed.

Lemma fold_kvlm_add_present hs : forall d k,
  dict_get d (Some k) <> None ->
  dict_get (fold_left kvlm_add hs d) (Some k) <> None.
Proof.
  induction hs as [|kv hs IH]; intros d k Hk; [exact Hk |].
  simpl. apply IH, kvlm_add_present, Hk.
Qed.

(** X4: a message in which a key comes twice is parsed, but what is
    parsed cannot be serialized again. *)
Theorem kvlm_repeated_key_not_serializable h1 h2 h3 k v1 v2 m fuel :
  let hs := h1 ++ (k, v1) :: h2 ++ (k, v2) :: h3 in
  Forall (fun kv => good_key kv.1) hs ->
  length (kvlm_text hs m) <= fuel ->
  exists d, kvlm_parse fuel (kvlm_text hs m) 0 [] = Some (Ok d)
            /\ kvlm_serialize d = Raise AttributeError.
Proof.
  intros hs Hhs Hfuel. eexists. split; [apply kvlm_parse_lines; assumption |].
  assert (Hk : good_key k).
  { rewrite Forall_forall in Hhs. apply (Hhs (k, v1)).
    apply elem_of_app. right. apply elem_of_cons. left. reflexivity. }
  destruct k as [|c k]; [destruct Hk; congruence |].
  assert (Hlist : exists vs,
             dict_get (fold_left kvlm_add hs []) (Some (c :: k)) = Some (VList vs)).
  { unfold hs. rewrite fold_left_app. cbn [fold_left].
    rewrite fold_left_app. cbn [fold_left].
    apply fold_kvlm_add_list, kvlm_add_again, fold_kvlm_add_present.
    apply kvlm_add_self. }
  destruct Hlist as [vs Hvs].
  apply (kvlm_serialize_list_raises _ c k vs).
  rewrite dict_get_set, decide_False by discriminate. exact Hvs.
Qed.

Lemma kvlm_repeated_key_not_serializable_witness :
  exists d, kvlm_parse 300 two_parents 0 [] = Some (Ok d)
            /\ kvlm_serialize d = Raise AttributeError.
Proof.
  apply (kvlm_repeated_key_not_serializable
           [(b "tree", b id_tree)] [] [(b "author", b who); (b "committer", b who)]
           (b "parent") (b id_p1) (b id_p2) (b "merge" ++ [LF]) 300);
    [good_keys | vm_compute; lia].
Defined.

(** X5: without a newline in the input, the parse fails at the
    blank-line check; the empty input is such an input. *)
Theorem kvlm_parse_no_newline raw dct fuel :
  LF ∉ raw -> kvlm_parse (S fuel) raw 0 dct = Some (Raise AssertionError).
Proof.
  intros Hlf. cbn [kvlm_parse]. rewrite (find_notin raw LF 0 Hlf).
  destruct (Z.ltb_spec (find raw SP 0) 0) as [Hs | Hs]; [reflexivity |].
  replace (-1 <? find raw SP 0)%Z with true by (symmetry; apply Z.ltb_lt; lia).
  reflexivity.
Qed.

Lemma kvlm_parse_no_newline_witness :
  kvlm_parse 1 [] 0 [] = Some (Raise AssertionError)
  /\ kvlm_parse 1 (b "tree abc") 0 [] = Some (Raise AssertionError).
Proof.
  split.
  - apply (kvlm_parse_no_newline [] [] 0). by_compute.
  - apply (kvlm_parse_no_newline (b "tree abc") [] 0). by_compute.
Defined.

(** X6: whatever [kvlm_parse] returns holds a message under [None], and
    the message is the end of the input. *)
Theorem kvlm_parse_message fuel : forall raw start dct d,
  kvlm_parse fuel raw start dct = Some (Ok d) ->
  exists m, dict_get d None = Some (VBytes m) /\ m `suffix_of` raw.
Proof.
  induction fuel as [|f IH]; intros raw start dct d Hd; [discriminate |].
  cbn [kvlm_parse] in Hd.
  destruct ((find raw SP start <? 0)%Z || (find raw LF start <? find raw SP start)%Z).
  - destruct (find raw LF start =? start)%Z; [| discriminate].
    injection Hd as <-. eexists. split.
    + rewrite dict_get_set, decide_True by reflexivity. reflexivity.
    + unfold slice_from. apply suffix_drop.
  - apply mbind_some in Hd as [(e & _ & Hd) | (e & _ & [=])].
    eapply IH, Hd.
Qed.

Lemma kvlm_parse_message_witness :
  exists m, dict_get two_parents_kvlm None = Some (VBytes m)
            /\ m `suffix_of` two_parents.
Proof.
  apply (kvlm_parse_message 300 two_parents 0 [] two_parents_kvlm).
  vm_compute. reflexivity.
Defined.

(** ** Numbers and their digits *)

Lemma hexdigit_cases c :
  hexdigit c ->
  c ∈ [48; 49; 50; 51; 52; 53; 54; 55; 56; 57; 97; 98; 99; 100; 101; 102]%N.
Proof.
  unfold hexdigit. intros Hc.
  assert (Hn : (c = 48 \/ c = 49 \/ c = 50 \/ c = 51 \/ c = 52 \/ c = 53
                \/ c = 54 \/ c = 55 \/ c = 56 \/ c = 57 \/ c = 97 \/ c = 98
                \/ c = 99 \/ c = 100 \/ c = 101 \/ c = 102)%N) by lia.
  repeat (destruct Hn as [-> | Hn]; [repeat constructor |]). subst. repeat constructor.
Qed.

Lemma digit_char_hex d : (0 <= d < 16)%Z -> hexdigit (digit_char d).
Proof.
  unfold hexdigit, digit_char. intros Hd. destruct (Z.ltb_spec d 10); lia.
Qed.

Lemma digit_value_char d : (0 <= d < 16)%Z -> digit_value (digit_char d) = Some d.
Proof.
  intros Hd.
  assert (Hn : (d = 0 \/ d = 1 \/ d = 2 \/ d = 3 \/ d = 4 \/ d = 5 \/ d = 6
                \/ d = 7 \/ d = 8 \/ d = 9 \/ d = 10 \/ d = 11 \/ d = 12
                \/ d = 13 \/ d = 14 \/ d = 15)%Z) by lia.
  repeat (destruct Hn as [-> | Hn]; [reflexivity |]). subst. reflexivity.
Qed.

Lemma hexdigit_not_space c : hexdigit c -> int_space c = false.
Proof.
  intros Hc. apply hexdigit_cases in Hc.
  repeat (apply elem_of_cons in Hc as [-> | Hc]; [reflexivity |]).
  inversion Hc.
Qed.

Lemma digits_fixed_hex base k n :
  (2 <= base <= 16)%Z -> Forall hexdigit (digits_fixed base k n).
Proof.
  intros Hb. revert n. induction k as [|k IH]; intros n; simpl; [constructor |].
  apply Forall_app. split; [apply IH |].
  constructor; [| constructor]. apply digit_char_hex.
  pose proof (Z.mod_pos_bound n base). lia.
Qed.

(** [int] reads the digits that [digits_fixed] writes. *)
Lemma int_digits_fixed base k : forall n acc prev rest,
  (2 <= base <= 16)%Z ->
  int_digits base (digits_fixed base k n ++ rest) acc prev
  = int_digits base rest (acc * base ^ Z.of_nat k + n mod base ^ Z.of_nat k)%Z
      (prev || (0 <? k)%nat).
Proof.
  induction k as [|k IH]; intros n acc prev rest Hb.
  - cbn [digits_fixed app]. change (Z.of_nat 0) with 0%Z.
    rewrite Z.pow_0_r, Z.mod_1_r, orb_false_r. f_equal. lia.
  - cbn [digits_fixed]. rewrite <- app_assoc. cbn [app].
    rewrite IH by exact Hb. cbn [int_digits].
    pose proof (Z.mod_pos_bound n base ltac:(lia)) as Hmod.
    pose proof (digit_char_hex (n mod base) ltac:(lia)) as Hhex.
    replace (digit_char (n mod base) =? 95)%N with false
      by (symmetry; apply N.eqb_neq; unfold hexdigit in Hhex; lia).
    rewrite digit_value_char by lia.
    replace (n mod base <? base)%Z with true by (symmetry; apply Z.ltb_lt; lia).
    replace (prev || (0 <? S k)%nat) with true by (rewrite orb_true_r; reflexivity).
    f_equal. rewrite Nat2Z.inj_succ, Z.pow_succ_r by lia.
    rewrite (Z.rem_mul_r n base (base ^ Z.of_nat k)) by lia. ring.
Qed.

Lemma ndigits_pos base fuel n : 1 <= ndigits base (S fuel) n.
Proof. cbn [ndigits]. destruct (n <? base)%Z; lia. Qed.

(** A number is below the power of the base its digits count. *)
Lemma ndigits_enough base : forall fuel n,
  (2 <= base)%Z -> (0 <= n)%Z -> (Z.log2 n < Z.of_nat fuel)%Z ->
  (n < base ^ Z.of_nat (ndigits base fuel n))%Z.
Proof.
  intros fuel. induction fuel as [|f IH]; intros n Hb Hn Hlog.
  - pose proof (Z.log2_nonneg n). lia.
  - cbn [ndigits]. destruct (Z.ltb_spec n base) as [Hlt | Hge].
    + change (Z.of_nat 1) with 1%Z. rewrite Z.pow_1_r. exact Hlt.
    + rewrite Nat2Z.inj_succ, Z.pow_succ_r by lia.
      assert (Hdiv : (0 <= n / base)%Z) by (apply Z.div_pos; lia).
      assert (Hle : (n / base <= n / 2)%Z)
        by (apply Z.div_le_compat_l; lia).
      assert (Hlog2 : (Z.log2 (n / 2) = Z.log2 n - 1)%Z).
      { replace (n / 2)%Z with (Z.shiftr n 1)
          by (rewrite Z.shiftr_div_pow2 by lia; reflexivity).
        rewrite Z.log2_shiftr by lia.
        assert (1 <= Z.log2 n)%Z by (apply Z.log2_le_pow2; simpl; lia). lia. }
      pose proof (Z.log2_le_mono _ _ Hle) as Hmono.
      specialize (IH (n / base)%Z Hb Hdiv ltac:(lia)).
      pose proof (Z.mul_succ_div_gt n base ltac:(lia)). nia.
Qed.

(** A number below a power of the base has no more digits than that. *)
Lemma ndigits_bound base : forall fuel n k,
  (2 <= base)%Z -> (0 <= n < base ^ Z.of_nat k)%Z -> 1 <= k ->
  ndigits base fuel n <= k.
Proof.
  intros fuel. induction fuel as [|f IH]; intros n k Hb Hn Hk; [simpl; lia |].
  cbn [ndigits]. destruct (Z.ltb_spec n base) as [Hlt | Hge]; [exact Hk |].
  destruct k as [|k]; [lia |].
  destruct k as [|k].
  { change (Z.of_nat 1) with 1%Z in Hn. rewrite Z.pow_1_r in Hn. lia. }
  apply le_n_S. apply IH; [exact Hb | | lia]. split.
  - apply Z.div_pos; lia.
  - rewrite (Nat2Z.inj_succ (S k)), Z.pow_succ_r in Hn by lia.
    apply Z.div_lt_upper_bound; lia.
Qed.

Lemma width_pos base n : 1 <= width base n.
Proof. apply ndigits_pos. Qed.

Lemma str_of_nat_hex n : Forall hexdigit (str_of_nat n).
Proof. apply digits_fixed_hex. lia. Qed.

Lemma str_of_nat_nonempty n : str_of_nat n <> [].
Proof.
  unfold str_of_nat. intros Hnil. apply (f_equal length) in Hnil.
  rewrite digits_fixed_length in Hnil. pose proof (width_pos 10 (Z.of_nat n)).
  simpl in Hnil. lia.
Qed.

Lemma lstrip_head c s :
  int_space c = false -> int_lstrip (c :: s) = c :: s.
Proof. intros Hc. simpl. rewrite Hc. reflexivity. Qed.

Lemma hexdigit_below c : hexdigit c -> (c <? 128)%N = true.
Proof. unfold hexdigit. intros Hc. apply N.ltb_lt. lia. Qed.

Lemma hex_is_ascii s :
  Forall hexdigit s -> forallb (fun c => (c <? 128)%N) s = true.
Proof.
  induction 1 as [|c s Hc _ IH]; [reflexivity |].
  cbn [forallb]. rewrite (hexdigit_below c Hc), IH. reflexivity.
Qed.

Lemma strip_hex s : Forall hexdigit s -> int_strip s = s.
Proof.
  intros Hs. unfold int_strip.
  assert (Hl : forall t, Forall hexdigit t -> int_lstrip t = t).
  { intros [|c t] Ht; [reflexivity |]. inversion Ht; subst.
    apply lstrip_head, hexdigit_not_space. assumption. }
  rewrite (Hl s Hs), Hl by (apply Forall_rev, Hs). apply rev_involutive.
Qed.

(** On a string of digits, [int] is the value of the digits. *)
Lemma py_int_digits s base :
  s <> [] -> Forall hexdigit s ->
  py_int s base
  = match int_digits base s 0 false with
    | Some n => Ok n
    | None => Raise ValueError
    end.
Proof.
  intros Hne Hs. unfold py_int. rewrite (hex_is_ascii s Hs), (strip_hex s Hs).
  destruct s as [|c t]; [congruence |].
  inversion Hs as [|? ? Hc Ht]; subst.
  assert (Hx : forall x, hexdigit x -> ((x =? 120) || (x =? 88))%N = false).
  { intros x Hxh. unfold hexdigit in Hxh. apply orb_false_iff.
    split; apply N.eqb_neq; lia. }
  apply hexdigit_cases in Hc.
  repeat (apply elem_of_cons in Hc as [-> | Hc];
          [try (destruct t as [|x t']; [| inversion Ht; subst; rewrite Hx by assumption;
                                          rewrite andb_false_r]);
           destruct (int_digits base _ 0 false) as [n|]; try reflexivity;
           f_equal; lia |]).
  inversion Hc.
Qed.

Lemma py_int_space s base : py_int (32%N :: s) base = py_int s base.
Proof.
  unfold py_int. cbn [forallb int_transform].
  replace (32 <? 128)%N with true by reflexivity.
  replace (32 <? 127)%N with true by reflexivity. cbn [andb].
  destruct (forallb _ s); unfold int_strip; reflexivity.
Qed.

(** [int(str(n))] *)
Lemma py_int_str_of_nat n : py_int (32%N :: str_of_nat n) 10 = Ok (Z.of_nat n).
Proof.
  rewrite py_int_space, py_int_digits
    by (apply str_of_nat_nonempty || apply str_of_nat_hex).
  unfold str_of_nat.
  rewrite <- (app_nil_r (digits_fixed _ _ _)), int_digits_fixed by lia.
  cbn [int_digits].
  pose proof (width_pos 10 (Z.of_nat n)) as Hw.
  replace (false || (0 <? width 10 (Z.of_nat n))%nat) with true
    by (symmetry; apply Nat.ltb_lt; lia).
  f_equal. rewrite Z.mod_small; [lia |]. split; [lia |].
  apply ndigits_enough; [lia | lia |].
  pose proof (Z.log2_nonneg (Z.of_nat n)). lia.
Qed.

(** ** Frames *)

Lemma ord_chr n : (n < 256)%N -> ord (chr n) = n.
Proof. intros Hn. apply N_ascii_embedding, Hn. Qed.

Lemma hexdigit_ascii c : hexdigit c -> (c < 128)%N.
Proof. unfold hexdigit. lia. Qed.

Lemma utf8_encode_ascii s :
  Forall (fun c => (c < 128)%N) s -> utf8_encode s = Some (map chr s).
Proof.
  induction 1 as [|c s Hc Hs IH]; [reflexivity |].
  cbn [utf8_encode map]. rewrite IH. unfold utf8_encode_char.
  replace (c <? 128)%N with true by (symmetry; apply N.ltb_lt; exact Hc).
  reflexivity.
Qed.

Lemma decode_ascii_chr s :
  Forall (fun c => (c < 128)%N) s -> decode_ascii (map chr s) = Ok s.
Proof.
  intros Hs. unfold decode_ascii.
  assert (Hmap : map ord (map chr s) = s).
  { induction Hs as [|c s Hc Hs IH]; [reflexivity |].
    cbn [map]. rewrite IH, ord_chr by lia. reflexivity. }
  rewrite Hmap.
  replace (forallb (fun c => (ord c <? 128)%N) (map chr s)) with true;
    [reflexivity |].
  symmetry. apply forallb_forall. intros c Hin.
  apply in_map_iff in Hin as (n & <- & Hn).
  rewrite Forall_forall in Hs. specialize (Hs n (proj2 (list_elem_of_In _ _) Hn)).
  rewrite ord_chr by lia. apply N.ltb_lt. exact Hs.
Qed.

Lemma str_of_nat_ascii n : Forall (fun c => (c < 128)%N) (str_of_nat n).
Proof.
  eapply Forall_impl; [apply str_of_nat_hex |]. intros c. apply hexdigit_ascii.
Qed.

(** The frame of a payload: the type tag, a space, the length in decimal
    digits, a NUL byte, the payload. Building it never fails. *)
Lemma frame_eq fmt_ data :
  frame fmt_ data
  = Ok (fmt_ ++ [SP] ++ map chr (str_of_nat (length data)) ++ [NUL] ++ data).
Proof.
  unfold frame, encode_utf8.
  rewrite utf8_encode_ascii by apply str_of_nat_ascii. reflexivity.
Qed.

Lemma fmt_clean obj :
  (SP ∉ fmt obj) /\ fmt obj ∈ [b "commit"; b "tree"; b "tag"; b "blob"].
Proof.
  destruct obj; (split; [| cbn; repeat constructor]);
    intros Hin; cbn in Hin;
    repeat (apply elem_of_cons in Hin as [Hin | Hin]; [discriminate |]);
    inversion Hin.
Qed.

Lemma digits_no_nul s : Forall hexdigit s -> NUL ∉ SP :: map chr s.
Proof.
  intros Hs Hin. apply elem_of_cons in Hin as [Hin | Hin]; [discriminate |].
  apply list_elem_of_fmap in Hin as (c & Hc & Hin).
  rewrite Forall_forall in Hs. specialize (Hs c Hin).
  apply (f_equal ord) in Hc. rewrite ord_chr in Hc;
    unfold hexdigit in Hs; [| lia].
  change (ord NUL) with 0%N in Hc. lia.
Qed.

(** [object_read] takes a frame apart into what [object_write] put
    together, and calls the constructor of the type on the payload. *)
Lemma object_of_raw_frame fuel sha_ fmt_ data :
  SP ∉ fmt_ -> fmt_ ∈ [b "commit"; b "tree"; b "tag"; b "blob"] ->
  object_of_raw fuel sha_
    (fmt_ ++ [SP] ++ map chr (str_of_nat (length data)) ++ [NUL] ++ data)
  = construct fmt_ fuel data.
Proof.
  intros Hsp Hfmt.
  set (ds := str_of_nat (length data)).
  set (raw := fmt_ ++ [SP] ++ map chr ds ++ [NUL] ++ data).
  assert (Hx : find raw SP 0 = len fmt_).
  { pose proof (find_from [] fmt_ SP (map chr ds ++ [NUL] ++ data) Hsp) as Hf.
    cbn [app] in Hf. change (len []) with 0%Z in Hf. rewrite Z.add_0_l in Hf.
    exact Hf. }
  assert (Hy : find raw NUL (len fmt_) = (len fmt_ + len (SP :: map chr ds))%Z).
  { pose proof (find_from fmt_ (SP :: map chr ds) NUL data
                  (digits_no_nul ds (str_of_nat_hex _))) as Hf.
    unfold raw. rewrite <- Hf. reflexivity. }
  assert (Hfmt_ : slice raw 0 (len fmt_) = fmt_).
  { pose proof (slice_mid [] fmt_ ([SP] ++ map chr ds ++ [NUL] ++ data)) as Hs.
    cbn [app] in Hs. change (len []) with 0%Z in Hs. rewrite Z.add_0_l in Hs.
    exact Hs. }
  assert (Hdig : slice raw (len fmt_) (len fmt_ + len (SP :: map chr ds))
                 = SP :: map chr ds).
  { pose proof (slice_mid fmt_ (SP :: map chr ds) ([NUL] ++ data)) as Hs.
    exact Hs. }
  assert (Hdata : slice_from raw (len fmt_ + len (SP :: map chr ds) + 1) = data).
  { pose proof (slice_from_app (fmt_ ++ [SP] ++ map chr ds ++ [NUL]) data) as Hs.
    replace (len fmt_ + len (SP :: map chr ds) + 1)%Z
      with (len (fmt_ ++ [SP] ++ map chr ds ++ [NUL]))
      by (rewrite !len_app; unfold len; simpl; lia).
    unfold raw. rewrite <- Hs at 2. f_equal. rewrite <- !app_assoc. reflexivity. }
  unfold object_of_raw. fold raw. rewrite Hx, Hfmt_, Hy, Hdig, Hdata.
  assert (Hdec : decode_ascii (SP :: map chr ds) = Ok (32%N :: ds)).
  { change (SP :: map chr ds) with (map chr (32%N :: ds)).
    apply decode_ascii_chr. constructor; [lia | apply str_of_nat_ascii]. }
  rewrite Hdec. cbn [lift mbind]. unfold ds at 1. rewrite py_int_str_of_nat.
  cbn [mbind].
  replace (Z.of_nat (length data) =? len raw - (len fmt_ + len (SP :: map chr ds)) - 1)%Z
    with true.
  - cbn [negb]. unfold construct.
    repeat (apply elem_of_cons in Hfmt as [-> | Hfmt]; [reflexivity |]).
    inversion Hfmt.
  - symmetry. apply Z.eqb_eq. unfold raw. rewrite !len_app. unfold len.
    simpl. lia.
Qed.

(** ** The store *)

Lemma hexdigest_hex msg : Forall hexdigit (Sha1.hexdigest msg).
Proof.
  unfold Sha1.hexdigest, Sha1.hex8. destruct (Sha1.digest msg).
  rewrite !Forall_app. repeat split; apply digits_fixed_hex; lia.
Qed.

Section StoreProperties.
Context `{Zlib}.

(** The identity of a write is the SHA-1 of the frame of what the object
    was serialized to, with a repository or without. *)
Lemma object_write_sha obj repo fs obj1 fs1 sha_ :
  object_write obj repo fs = (obj1, fs1, Ok sha_) ->
  exists data,
    serialize obj = (obj1, Ok data)
    /\ sha_ = Sha1.hexdigest
               (fmt obj ++ [SP] ++ map chr (str_of_nat (length data))
                ++ [NUL] ++ data).
Proof.
  unfold object_write. destruct (serialize obj) as [obj' [data|e]];
    cbn [rbind]; [| intros [=]].
  rewrite frame_eq.
  remember (Sha1.hexdigest
              (fmt obj ++ [SP] ++ map chr (str_of_nat (length data))
               ++ [NUL] ++ data)) as sha0 eqn:Hsha0.
  intros Hw. exists data. rewrite <- Hsha0.
  destruct repo as [repo|]; [| injection Hw as <- _ <-; split; reflexivity].
  destruct (repo_file repo (object_path sha0) true fs) as [fs' [[p|]|e]];
    [| congruence | congruence].
  destruct (exists_ fs' p); [injection Hw as <- _ <-; split; reflexivity |].
  destruct (write_file fs' p (zlib_compress _)); [| congruence].
  injection Hw as <- _ <-. split; reflexivity.
Qed.

(** X7: an identity that [object_write] returns is forty lower-case
    hexadecimal digits, with a repository or without. *)
Theorem object_write_identity obj repo fs obj1 fs1 sha_ :
  object_write obj repo fs = (obj1, fs1, Ok sha_) ->
  length sha_ = 40 /\ Forall hexdigit sha_.
Proof.
  intros Hw. apply object_write_sha in Hw as (data & _ & ->).
  split; [apply hexdigest_length | apply hexdigest_hex].
Qed.

(** X8: what was written into a free place of the store is read back:
    under the identity the write returned, [object_read] calls the
    constructor of the object's type on the bytes the object was
    serialized to. A blob with data comes back as it was. *)
Theorem object_read_after_write obj repo fs obj1 fs1 sha_ :
  (forall x, zlib_decompress (zlib_compress x) = Ok x) ->
  object_write obj (Some repo) fs = (obj1, fs1, Ok sha_) ->
  fs !! object_file repo sha_ = None ->
  exists data,
    serialize obj = (obj1, Ok data)
    /\ (forall fuel,
         object_read fuel repo sha_ fs1 = construct (fmt obj) fuel data)
    /\ (forall fuel c d,
         obj = GitBlob (Some (c :: d)) ->
         object_read fuel repo sha_ fs1 = Some (Ok obj)).
Proof.
  intros Hz Hw Hfree.
  apply object_write_inv in Hw
    as (data & raw & fs' & Hs & Hf & -> & Hdir & Hfile).
  pose proof (hexdigest_paths repo raw) as Hne.
  set (sha0 := Sha1.hexdigest raw) in *.
  assert (Hd' : fs' !! object_dir repo sha0 = Some Dir).
  { destruct Hdir as [[Hd ->] | [Hd ->]]; [exact Hd | apply lookup_insert_eq]. }
  assert (Hp' : fs' !! object_file repo sha0 = None).
  { destruct Hdir as [[_ ->] | [_ ->]]; [exact Hfree |].
    rewrite lookup_insert_ne by congruence. exact Hfree. }
  destruct Hfile as [[[n Hn] _] | [_ ->]]; [congruence |].
  assert (Hstored : stored (<[object_file repo sha0 := File (zlib_compress raw)]> fs')
                      repo sha0 raw).
  { split.
    - rewrite lookup_insert_ne by exact Hne. exact Hd'.
    - eexists. split; [apply lookup_insert_eq | apply Hz]. }
  assert (Hread : forall fuel,
            object_read fuel repo sha0
              (<[object_file repo sha0 := File (zlib_compress raw)]> fs')
            = construct (fmt obj) fuel data).
  { intros fuel. rewrite (object_read_stored _ _ _ _ _ Hstored).
    rewrite frame_eq in Hf. injection Hf as <-.
    destruct (fmt_clean obj) as [Hsp Hfmt].
    apply object_of_raw_frame; assumption. }
  exists data. split; [exact Hs |]. split; [exact Hread |].
  intros fuel c d ->. rewrite Hread. cbn in Hs. injection Hs as <- <-.
  reflexivity.
Qed.

(** X9: what [cat_file] writes for an object that [object_read] returns:
    the data of a blob that has data, nothing for a tree; for a commit or
    a tag it raises [KeyError], for a blob without data
    [AttributeError]. *)
Theorem cat_file_output fuel repo name fmt_ fs obj :
  object_read fuel repo name fs = Some (Ok obj) ->
  cat_file fuel repo name fmt_ fs
  = match obj with
    | GitBlob (Some data) => Some (Ok data)
    | GitBlob None => Some (Raise AttributeError)
    | GitTree _ => Some (Ok [])
    | GitCommit _ | GitTag _ => Some (Raise KeyError)
    end.
Proof.
  intros Hr. unfold cat_file, object_find. rewrite Hr. cbn [mbind].
  apply object_read_result in Hr
    as [-> | [-> | [-> | [-> | (c & data & ->)]]]]; reflexivity.
Qed.

(** X10: [object_hash] by type: for [tree] every identity it returns is
    the identity of the empty tree, whatever the data; for [commit] and
    [tag] it returns no identity; for [blob] it raises [AttributeError] on
    empty data and otherwise returns the SHA-1 of the frame of the
    data. *)
Theorem object_hash_by_type fuel data repo fs :
  (forall fs' sha_,
     object_hash fuel data (b "tree") repo fs = Some (fs', Ok sha_) ->
     sha_ = u "4b825dc642cb6eb9a060e54bf8d69288fbee4904")
  /\ (forall fs' r,
      object_hash fuel data (b "commit") repo fs = Some (fs', r)
      \/ object_hash fuel data (b "tag") repo fs = Some (fs', r) ->
      exists e, r = Raise e)
  /\ object_hash fuel [] (b "blob") repo fs = Some (fs, Raise AttributeError)
  /\ (data <> [] ->
      object_hash fuel data (b "blob") None fs
      = Some (fs, Ok (Sha1.hexdigest
                        (b "blob" ++ [SP] ++ map chr (str_of_nat (length data))
                         ++ [NUL] ++ data)))).
Proof.
  split; [| split; [| split]].
  - intros fs' sha_. unfold object_hash.
    rewrite decide_False by discriminate. rewrite decide_True by reflexivity.
    unfold GitTree_init.
    destruct (if truthy (Some data) then tree_parse fuel (payload (Some data))
              else mret []) as [[x|e]|]; cbn [mbind mret]; try congruence.
    destruct (object_write (GitTree []) repo fs) as [[o f] r] eqn:Hw.
    cbn [fst snd]. intros [= _ ->].
    apply object_write_sha in Hw as (d & Hs & ->).
    change (serialize (GitTree [])) with (GitTree [], @Ok bytes []) in Hs.
    injection Hs as _ <-. vm_compute. reflexivity.
  - assert (Hw : forall obj, obj = GitCommit [] \/ obj = GitTag [] ->
                 exists e o f, object_write obj repo fs = (o, f, Raise e)).
    { intros obj [-> | ->]; eexists _, _, _; reflexivity. }
    intros fs' r [Hh | Hh]; unfold object_hash in Hh.
    + rewrite decide_True in Hh by reflexivity. unfold GitCommit_init in Hh.
      destruct (if truthy (Some data) then kvlm_parse fuel (payload (Some data)) 0 []
                else mret []) as [[x|e]|]; cbn [mbind mret] in Hh; try discriminate.
      * destruct (Hw (GitCommit []) (or_introl eq_refl)) as (e & o & f & He).
        rewrite He in Hh. injection Hh as _ <-. eauto.
      * injection Hh as _ <-. eauto.
    + rewrite decide_False in Hh by discriminate.
      rewrite decide_False in Hh by discriminate.
      rewrite decide_True in Hh by reflexivity. unfold GitTag_init in Hh.
      destruct (if truthy (Some data) then kvlm_parse fuel (payload (Some data)) 0 []
                else mret []) as [[x|e]|]; cbn [mbind mret] in Hh; try discriminate.
      * destruct (Hw (GitTag []) (or_intror eq_refl)) as (e & o & f & He).
        rewrite He in Hh. injection Hh as _ <-. eauto.
      * injection Hh as _ <-. eauto.
  - reflexivity.
  - intros Hne. unfold object_hash.
    repeat (rewrite decide_False by discriminate).
    rewrite decide_True by reflexivity.
    destruct data as [|c data]; [congruence |].
    cbn [GitBlob_init truthy payload default mret]. unfold object_write.
    cbn [serialize rbind fmt]. rewrite frame_eq. reflexivity.
Qed.

Lemma hex_plain_name s :
  Forall hexdigit s -> s <> [] -> length s <> 1 -> plain_name s.
Proof.
  intros Hs Hne Hlen.
  assert (Hdot : forall t, (46%N :: t) <> s).
  { intros t <-. inversion Hs as [|? ? Hc _]. unfold hexdigit in Hc. lia. }
  split; [exact Hne |]. split; [| split].
  - intros Hin. rewrite Forall_forall in Hs. apply Hs in Hin.
    unfold hexdigit, SLASH in Hin. lia.
  - intros ->. apply (Hdot []). reflexivity.
  - intros ->. apply (Hdot [46%N]). reflexivity.
Qed.

(** X11: for an identity of forty hexadecimal digits the object is looked
    up at [objects], the first two digits, the other 38 digits below the
    git directory, two plain names. When no regular file is stored there,
    [object_read] raises: [TypeError] when the two-character directory is
    missing ([repo_file] returns [None], and [os.path.isfile(None)]
    raises), the exception of [repo_dir] when the path of the directory
    is a regular file, and [Object ... not found!] otherwise. *)
Theorem object_read_missing fuel repo sha_ fs :
  length sha_ = 40 -> Forall hexdigit sha_ ->
  isfile fs (object_file repo sha_) = false ->
  object_dir repo sha_
  = join1 (join1 (gitdir repo) (u "objects")) (take 2 sha_)
  /\ object_file repo sha_ = join1 (object_dir repo sha_) (drop 2 sha_)
  /\ plain_name (take 2 sha_) /\ plain_name (drop 2 sha_)
  /\ object_read fuel repo sha_ fs
     = Some (Raise match fs !! object_dir repo sha_ with
                   | None => TypeError
                   | Some Dir =>
                       Exception (u "Object " ++ sha_ ++ u " not found!")
                   | Some (File _) =>
                       Exception (u "Not a directory " ++ object_dir repo sha_)
                   end).
Proof.
  intros Hlen Hhex Hf.
  assert (Hdir : slice sha_ 0 2 = take 2 sha_)
    by (unfold slice, clamp, len; rewrite Hlen; reflexivity).
  assert (Hfile : slice_from sha_ 2 = drop 2 sha_)
    by (unfold slice_from, clamp, len; rewrite Hlen; reflexivity).
  split; [rewrite object_dir_eq, Hdir; reflexivity |].
  split; [rewrite object_file_eq, Hfile; reflexivity |].
  split.
  { apply hex_plain_name; [apply Forall_take, Hhex | |];
      destruct sha_ as [|c0 [|c1 t]]; simpl in *; (discriminate || lia). }
  split.
  { apply hex_plain_name; [apply Forall_drop, Hhex | |].
    - intros Hnil. apply (f_equal length) in Hnil.
      rewrite length_drop, Hlen in Hnil. simpl in Hnil. lia.
    - rewrite length_drop, Hlen. lia. }
  destruct (fs !! object_dir repo sha_) as [[|c]|] eqn:Hd.
  - apply object_read_no_file; assumption.
  - unfold object_read. rewrite repo_file_object, Hd. reflexivity.
  - apply object_read_no_dir, Hd.
Qed.

Lemma int_default_ok s base n :
  int_default s base = Ok n -> py_int s base = Ok n.
Proof.
  unfold int_default. destruct (_ && _)%bool; [discriminate | auto].
Qed.

(** X12: the two exceptions of a stored frame whose length field [int]
    accepts, in the order the source tests for them: a length that is not
    the number of bytes behind the NUL, then a type tag that is none of
    the four. *)
Theorem object_read_bad_frame fuel repo sha_ fs raw digits size :
  let x := find raw SP 0 in
  let y := find raw NUL x in
  stored fs repo sha_ raw ->
  decode_ascii (slice raw x y) = Ok digits ->
  int_default digits 10 = Ok size ->
  (size <> (len raw - y - 1)%Z ->
   object_read fuel repo sha_ fs
   = Some (Raise (Exception
                    (u "Malformed object " ++ sha_ ++ u ": bad length"))))
  /\ (size = (len raw - y - 1)%Z ->
      slice raw 0 x ∉ [b "commit"; b "tree"; b "tag"; b "blob"] ->
      forall t, decode_ascii (slice raw 0 x) = Ok t ->
      object_read fuel repo sha_ fs
      = Some (Raise (Exception
                       (u "Unknown type " ++ t ++ u " for object " ++ sha_)))).
Proof.
  intros x y Hst Hd Hi. apply int_default_ok in Hi.
  rewrite (object_read_stored _ _ _ _ _ Hst). split.
  - intros Hne. exact (object_of_raw_bad_length _ _ _ _ _ Hd Hi Hne).
  - intros -> Hfmt t Ht.
    exact (object_of_raw_unknown_type _ _ _ _ _ Hd Hi Hfmt Ht).
Qed.

(** X13: what [object_read] returns carries nothing of a commit, a tree or
    a tag: the mapping and the list of entries are empty; and it is no
    blob with empty data. *)
Theorem object_read_returns fuel repo sha_ fs obj :
  object_read fuel repo sha_ fs = Some (Ok obj) ->
  match obj with
  | GitCommit d | GitTag d => d = []
  | GitTree its => its = []
  | GitBlob o => o <> Some []
  end.
Proof.
  intros Hr. apply object_read_result in Hr
    as [-> | [-> | [-> | [-> | (c & data & ->)]]]];
    try reflexivity; discriminate.
Qed.

(** X14: no call of [log_graphviz] prints a line, whatever the store
    holds, and what was seen stays seen. *)
Theorem log_graphviz_never_prints fuel repo sha_ st fs st' r :
  log_graphviz fuel repo sha_ st fs = Some (st', r) ->
  printed st' = printed st /\ seen st ⊆ seen st'.
Proof.
  intros Hl. destruct fuel as [|f]; [discriminate |].
  pose proof (log_graphviz_prints_nothing _ _ _ _ _ _ _ Hl)
    as [[Hp _] | [_ ->]]; [| split; reflexivity].
  split; [exact Hp |].
  cbn [log_graphviz] in Hl.
  case_decide as Hseen; [injection Hl as <- _; reflexivity |].
  assert (Hm : seen st ⊆ seen (mark sha_ st))
    by (cbn [mark seen]; apply union_subseteq_r).
  destruct (object_read f repo sha_ fs) as [[obj|e]|] eqn:E; [| |discriminate].
  - apply object_read_result in E
      as [-> | [-> | [-> | [-> | (c & data & ->)]]]]; cbn in Hl;
      injection Hl as <- _; exact Hm.
  - injection Hl as <- _. exact Hm.
Qed.

End StoreProperties.


Lemma object_write_identity_witness :
  length hello_sha = 40 /\ Forall hexdigit hello_sha.
Proof.
  apply (object_write_identity (H := stored_zlib) (GitBlob (Some hello)) None
           fs_empty (GitBlob (Some hello)) fs_empty hello_sha).
  vm_compute. reflexivity.
Defined.

Lemma object_read_after_write_witness :
  object_read (H := stored_zlib) 8 repo0 hello_sha
    (put hello_sha hello_frame fs_empty)
  = Some (Ok (GitBlob (Some hello))).
Proof.
  assert (Hz : forall x, stored_decompress (stored_compress x) = Ok x)
    by (intros x; reflexivity).
  assert (Hw : object_write (H := stored_zlib) (GitBlob (Some hello))
                 (Some repo0) fs_empty
               = (GitBlob (Some hello), put hello_sha hello_frame fs_empty,
                  Ok hello_sha)) by (vm_compute; reflexivity).
  assert (Hfree : fs_empty !! object_file repo0 hello_sha = None)
    by (vm_compute; reflexivity).
  destruct (object_read_after_write (H := stored_zlib) _ _ _ _ _ _ Hz Hw Hfree)
    as (data & _ & _ & Hblob).
  eapply Hblob. reflexivity.
Defined.

Lemma cat_file_output_witness :
  cat_file (H := stored_zlib) 8 repo0 hello_sha None
    (put hello_sha hello_frame fs_empty)
  = Some (Ok hello).
Proof.
  apply (cat_file_output (H := stored_zlib) 8 repo0 hello_sha None
           (put hello_sha hello_frame fs_empty) (GitBlob (Some hello))).
  vm_compute. reflexivity.
Defined.

Lemma object_read_missing_witness :
  object_file repo0 hello_sha
  = u "/w/.git/objects/ce/013625030ba8dba906f756967f9e9ca394464a"
  /\ object_read (H := stored_zlib) 8 repo0 hello_sha fs_empty
     = Some (Raise TypeError).
Proof.
  split; [vm_compute; reflexivity |].
  apply (object_read_missing (H := stored_zlib) 8 repo0 hello_sha fs_empty);
    [reflexivity | by_compute | vm_compute; reflexivity].
Defined.

Lemma object_read_bad_frame_witness :
  object_read (H := stored_zlib) 8 repo0 hello_sha
    (put hello_sha bad_length_frame fs_empty)
  = Some (Raise (Exception
                   (u "Malformed object " ++ hello_sha ++ u ": bad length")))
  /\ object_read (H := stored_zlib) 8 repo0 hello_sha
       (put hello_sha bad_type_frame fs_empty)
     = Some (Raise (Exception
                      (u "Unknown type " ++ u "blub" ++ u " for object "
                       ++ hello_sha))).
Proof.
  split.
  - assert (Hst : @stored stored_zlib (put hello_sha bad_length_frame fs_empty)
                    repo0 hello_sha bad_length_frame).
    { split; [vm_compute; reflexivity |].
      exists (stored_compress bad_length_frame).
      split; vm_compute; reflexivity. }
    apply (proj1 (object_read_bad_frame (H := stored_zlib) 8 repo0 hello_sha _
                    bad_length_frame (u " 7") 7%Z Hst eq_refl eq_refl)).
    vm_compute. discriminate.
  - assert (Hst : @stored stored_zlib (put hello_sha bad_type_frame fs_empty)
                    repo0 hello_sha bad_type_frame).
    { split; [vm_compute; reflexivity |].
      exists (stored_compress bad_type_frame).
      split; vm_compute; reflexivity. }
    apply (proj2 (object_read_bad_frame (H := stored_zlib) 8 repo0 hello_sha _
                    bad_type_frame (u " 6") 6%Z Hst eq_refl eq_refl));
      [reflexivity | by_compute | reflexivity].
Defined.

Lemma object_read_returns_witness :
  object_read (H := stored_zlib) 8 repo0 tree_sha
    (put tree_sha tree_frame fs_empty)
  = Some (Ok (GitTree []))
  /\ tree_parse 8 dir_entry = Some (Ok [dir_leaf])
  /\ ([] : list GitTreeLeaf) = [].
Proof.
  assert (Hr : object_read (H := stored_zlib) 8 repo0 tree_sha
                 (put tree_sha tree_frame fs_empty)
               = Some (Ok (GitTree []))) by (vm_compute; reflexivity).
  split; [exact Hr |]. split; [vm_compute; reflexivity |].
  exact (object_read_returns (H := stored_zlib) _ _ _ _ _ Hr).
Defined.

Lemma log_graphviz_never_prints_witness :
  log_graphviz (H := stored_zlib) 9 repo0 root_sha log_start
    (put root_sha root_frame fs_empty)
  = Some (mark root_sha log_start, Raise KeyError)
  /\ printed (mark root_sha log_start) = [].
Proof.
  assert (Hl : log_graphviz (H := stored_zlib) 9 repo0 root_sha log_start
                 (put root_sha root_frame fs_empty)
               = Some (mark root_sha log_start, Raise KeyError))
    by (vm_compute; reflexivity).
  split; [exact Hl |].
  exact (proj1 (log_graphviz_never_prints (H := stored_zlib) _ _ _ _ _ _ _ Hl)).
Defined.

(** ** Parsing trees *)

Lemma from_bytes_acc bs : forall acc,
  (0 <= acc)%Z ->
  (0 <= fold_left (fun acc c => acc * 256 + Z.of_N (ord c)) bs acc
   < (acc + 1) * 256 ^ len bs)%Z.
Proof.
  induction bs as [|c bs IH]; intros acc Hacc.
  - cbn [fold_left]. change (len []) with 0%Z. lia.
  - cbn [fold_left].
    pose proof (N_ascii_bounded c) as Hc. fold (ord c) in Hc.
    specialize (IH (acc * 256 + Z.of_N (ord c))%Z ltac:(lia)).
    replace (len (c :: bs)) with (Z.succ (len bs)) by (unfold len; simpl; lia).
    rewrite Z.pow_succ_r by apply len_nonneg.
    assert (0 < 256 ^ len bs)%Z by (apply Z.pow_pos_nonneg; [lia | apply len_nonneg]).
    nia.
Qed.

Lemma from_bytes_bound bs : (0 <= from_bytes bs < 256 ^ len bs)%Z.
Proof.
  pose proof (from_bytes_acc bs 0 ltac:(lia)) as Hb. unfold from_bytes. lia.
Qed.

Lemma format_040x_small n :
  (0 <= n < 16 ^ 40)%Z -> format_040x n = digits_fixed 16 40 n.
Proof.
  intros Hn. unfold format_040x, width.
  rewrite Nat.max_l; [reflexivity |].
  apply ndigits_bound; [lia | exact Hn | lia].
Qed.

Lemma tree_parse_one_leaf raw start pos leaf :
  (0 <= start)%Z ->
  tree_parse_one raw start = Ok (pos, leaf) ->
  length (mode leaf) = 6
  /\ length (sha leaf) = 40 /\ Forall hexdigit (sha leaf)
  /\ pos = (find raw NUL (find raw SP start) + 21)%Z /\ (20 <= pos)%Z.
Proof.
  intros Hstart. unfold tree_parse_one.
  set (x := find raw SP start). set (y := find raw NUL x).
  destruct ((x - start =? 5)%Z || (x - start =? 6)%Z) eqn:Hx; cbn [negb];
    [| discriminate].
  destruct (decode_utf8 (slice raw (x + 1) y)) as [p|]; cbn [rbind];
    [| discriminate].
  intros [= <- <-]. cbn [mode sha].
  assert (Hx' : (x - start = 5 \/ x - start = 6)%Z)
    by (apply orb_true_iff in Hx as [Hx | Hx]; apply Z.eqb_eq in Hx; lia).
  destruct (find_range raw SP start Hstart) as [Hneg | Hrange];
    fold x in Hneg || fold x in Hrange; [lia |].
  assert (Hy : (-1 <= y)%Z).
  { destruct (find_range raw NUL x ltac:(lia)) as [Hy | Hy]; fold y in Hy; lia. }
  assert (Hmode : length (slice raw start x) = Z.to_nat (x - start))
    by (apply slice_length; lia).
  assert (Hid : (0 <= from_bytes (slice raw (y + 1) (y + 21)) < 16 ^ 40)%Z).
  { pose proof (from_bytes_bound (slice raw (y + 1) (y + 21))) as Hb.
    pose proof (slice_length_le raw (y + 1) (y + 21) ltac:(lia) ltac:(lia)) as Hl.
    assert (256 ^ len (slice raw (y + 1) (y + 21)) <= 256 ^ 20)%Z
      by (apply Z.pow_le_mono_r; unfold len; lia).
    change (16 ^ 40)%Z with (256 ^ 20)%Z. lia. }
  split; [| split; [| split; [| split]]].
  - unfold len. rewrite Hmode.
    destruct (Z.eqb_spec (Z.of_nat (Z.to_nat (x - start))) 5);
      cbn [length]; lia.
  - rewrite format_040x_small by exact Hid. apply digits_fixed_length.
  - rewrite format_040x_small by exact Hid. apply digits_fixed_hex. lia.
  - reflexivity.
  - lia.
Qed.

(** X15: what [tree_parse_one] returns: a mode of six bytes, an identity
    of forty lower-case hexadecimal digits, and the cursor 21 bytes behind
    the NUL it found (or at 20, if it found none). *)
Theorem tree_parse_one_shape raw start pos leaf :
  (0 <= start)%Z ->
  tree_parse_one raw start = Ok (pos, leaf) ->
  length (mode leaf) = 6
  /\ length (sha leaf) = 40 /\ Forall hexdigit (sha leaf)
  /\ pos = (find raw NUL (find raw SP start) + 21)%Z /\ (20 <= pos)%Z.
Proof. exact (tree_parse_one_leaf raw start pos leaf). Qed.

Lemma tree_parse_one_shape_witness :
  tree_parse_one dir_entry 0 = Ok (30%Z, dir_leaf)
  /\ length (mode dir_leaf) = 6
  /\ length (sha dir_leaf) = 40 /\ Forall hexdigit (sha dir_leaf).
Proof.
  assert (Hp : tree_parse_one dir_entry 0 = Ok (30%Z, dir_leaf))
    by (vm_compute; reflexivity).
  destruct (tree_parse_one_shape dir_entry 0 30 dir_leaf (Z.le_refl 0) Hp)
    as (Hm & Hl & Hh & _).
  repeat split; assumption.
Defined.

Lemma tree_parse_loop_shape fuel : forall raw pos ret its,
  (0 <= pos)%Z ->
  Forall (fun l => length (mode l) = 6 /\ length (sha l) = 40
                   /\ Forall hexdigit (sha l)) ret ->
  tree_parse_loop fuel raw pos ret = Some (Ok its) ->
  Forall (fun l => length (mode l) = 6 /\ length (sha l) = 40
                   /\ Forall hexdigit (sha l)) its.
Proof.
  induction fuel as [|f IH]; intros raw pos ret its Hpos Hret; [discriminate |].
  cbn [tree_parse_loop]. destruct (pos <? len raw)%Z; [| intros [= <-]; exact Hret].
  destruct (tree_parse_one raw pos) as [[pos' leaf]|e] eqn:Hone; cbn;
    [| discriminate].
  destruct (tree_parse_one_leaf raw pos pos' leaf Hpos Hone)
    as (Hm & Hs & Hh & _ & Hp).
  apply IH; [lia |]. apply Forall_app. split; [exact Hret |].
  constructor; [auto | constructor].
Qed.

(** X16: every entry that [tree_parse] returns has a mode of six bytes
    and an identity of forty lower-case hexadecimal digits. *)
Theorem tree_parse_shape fuel raw its :
  tree_parse fuel raw = Some (Ok its) ->
  Forall (fun l => length (mode l) = 6 /\ length (sha l) = 40
                   /\ Forall hexdigit (sha l)) its.
Proof.
  apply tree_parse_loop_shape; [lia | constructor].
Qed.

Lemma tree_parse_shape_witness :
  tree_parse 8 (dir_entry ++ dir_entry) = Some (Ok [dir_leaf; dir_leaf])
  /\ Forall (fun l => length (mode l) = 6 /\ length (sha l) = 40
                      /\ Forall hexdigit (sha l)) [dir_leaf; dir_leaf].
Proof.
  assert (Hp : tree_parse 8 (dir_entry ++ dir_entry)
               = Some (Ok [dir_leaf; dir_leaf])) by (vm_compute; reflexivity).
  split; [exact Hp |].
  exact (tree_parse_shape 8 (dir_entry ++ dir_entry) [dir_leaf; dir_leaf] Hp).
Defined.

(** One entry on disk, at the cursor. *)
Lemma tree_parse_one_entry pre e rest p :
  good_entry e -> decode_utf8 (e_path e) = Ok p ->
  tree_parse_one (pre ++ entry_bytes e ++ rest) (len pre)
  = Ok ((len pre + len (entry_bytes e))%Z, entry_leaf e p).
Proof.
  intros (Hlen & Hsp & Hnul & Hid) Hdec. unfold entry_bytes.
  set (m := e_mode e) in *. set (pb := e_path e) in *. set (id := e_id e) in *.
  set (raw := pre ++ (m ++ [SP] ++ pb ++ [NUL] ++ id) ++ rest).
  assert (Hraw1 : raw = pre ++ m ++ SP :: (pb ++ [NUL] ++ id ++ rest))
    by (unfold raw; rewrite <- !app_assoc; reflexivity).
  assert (Hraw2 : raw = (pre ++ m) ++ (SP :: pb) ++ NUL :: (id ++ rest))
    by (unfold raw; rewrite <- !app_assoc; reflexivity).
  assert (Hraw3 : raw = (pre ++ m ++ [SP]) ++ pb ++ ([NUL] ++ id ++ rest))
    by (unfold raw; rewrite <- !app_assoc; reflexivity).
  assert (Hraw4 : raw = (pre ++ m ++ [SP] ++ pb ++ [NUL]) ++ id ++ rest)
    by (unfold raw; rewrite <- !app_assoc; reflexivity).
  assert (Hx : find raw SP (len pre) = (len pre + len m)%Z)
    by (rewrite Hraw1; apply find_from, Hsp).
  assert (Hy : find raw NUL (len pre + len m)
               = (len pre + len m + 1 + len pb)%Z).
  { rewrite <- len_app, Hraw2, find_from.
    - rewrite len_app. unfold len. simpl. lia.
    - intros Hin. apply elem_of_cons in Hin as [Hin | Hin];
        [discriminate | contradiction]. }
  assert (Hmode : slice raw (len pre) (len pre + len m) = m)
    by (rewrite Hraw1; apply slice_mid).
  assert (Hpath : slice raw (len pre + len m + 1) (len pre + len m + 1 + len pb)
                  = pb).
  { replace (len pre + len m + 1)%Z with (len (pre ++ m ++ [SP]))
      by (rewrite !len_app; unfold len; simpl; lia).
    rewrite Hraw3. apply slice_mid. }
  assert (Hsha : slice raw (len pre + len m + 1 + len pb + 1)
                   (len pre + len m + 1 + len pb + 21) = id).
  { replace (len pre + len m + 1 + len pb + 1)%Z
      with (len (pre ++ m ++ [SP] ++ pb ++ [NUL]))
      by (rewrite !len_app; unfold len; simpl; lia).
    replace (len pre + len m + 1 + len pb + 21)%Z
      with (len (pre ++ m ++ [SP] ++ pb ++ [NUL]) + len id)%Z
      by (rewrite !len_app; unfold len; rewrite Hid; simpl; lia).
    rewrite Hraw4. apply slice_mid. }
  unfold tree_parse_one. fold raw. rewrite Hx.
  replace (len pre + len m - len pre)%Z with (len m) by lia.
  replace ((len m =? 5)%Z || (len m =? 6)%Z) with true
    by (symmetry; apply orb_true_iff; unfold len;
        destruct Hlen as [-> | ->]; [left | right]; reflexivity).
  cbn [negb]. rewrite Hy, Hmode, Hpath, Hsha, Hdec. cbn [rbind].
  unfold entry_leaf. fold m id. f_equal. f_equal.
  rewrite !len_app. unfold len. rewrite Hid. simpl. lia.
Qed.

Lemma entry_bytes_nonempty e : (0 < len (entry_bytes e))%Z.
Proof. unfold entry_bytes. rewrite !len_app. unfold len. simpl. lia. Qed.

Lemma tree_parse_entries_at es : forall ps fuel pre ret,
  Forall good_entry es ->
  Forall2 (fun e p => decode_utf8 (e_path e) = Ok p) es ps ->
  length es < fuel ->
  tree_parse_loop fuel (pre ++ flat_map entry_bytes es) (len pre) ret
  = Some (Ok (ret ++ zip_with entry_leaf es ps)).
Proof.
  induction es as [|e es IH]; intros ps fuel pre ret Hes Hps Hfuel.
  - inversion Hps; subst. destruct fuel as [|f]; [simpl in Hfuel; lia |].
    cbn [tree_parse_loop flat_map zip_with]. rewrite !app_nil_r.
    rewrite Z.ltb_irrefl. reflexivity.
  - inversion Hps as [|? p ? ps' Hp Hps']; subst.
    inversion Hes as [|? ? He Hes']; subst.
    destruct fuel as [|f]; [simpl in Hfuel; lia |].
    cbn [tree_parse_loop flat_map].
    pose proof (entry_bytes_nonempty e). pose proof (len_nonneg pre).
    replace (len pre <? len (pre ++ entry_bytes e ++ flat_map entry_bytes es))%Z
      with true
      by (symmetry; apply Z.ltb_lt; rewrite !len_app;
          pose proof (len_nonneg (flat_map entry_bytes es)); lia).
    rewrite (tree_parse_one_entry pre e _ p He Hp). cbn [lift mbind fst snd].
    rewrite <- len_app, app_assoc.
    rewrite IH with (ps := ps') by (assumption || (simpl in Hfuel; lia)).
    cbn [zip_with]. rewrite <- app_assoc. reflexivity.
Qed.

(** X17: [tree_parse] reads entries laid out one after the other as the
    list of their leaves, in the order on disk; a five-byte mode gets a
    space in front. *)
Theorem tree_parse_entries es ps fuel :
  Forall good_entry es ->
  Forall2 (fun e p => decode_utf8 (e_path e) = Ok p) es ps ->
  length es < fuel ->
  tree_parse fuel (flat_map entry_bytes es)
  = Some (Ok (zip_with entry_leaf es ps)).
Proof.
  intros Hes Hps Hfuel.
  exact (tree_parse_entries_at es ps fuel [] [] Hes Hps Hfuel).
Qed.

Lemma tree_parse_entries_witness :
  tree_parse 3 (flat_map entry_bytes [file_disk_entry; dir_disk_entry])
  = Some (Ok (zip_with entry_leaf [file_disk_entry; dir_disk_entry]
                [u "bar.txt"; u "bar"])).
Proof.
  apply (tree_parse_entries [file_disk_entry; dir_disk_entry]
           [u "bar.txt"; u "bar"] 3).
  - apply List.Forall_cons;
      [split; [right; reflexivity | split; [by_compute | split; [by_compute | reflexivity]]] |].
    apply List.Forall_cons;
      [split; [left; reflexivity | split; [by_compute | split; [by_compute | reflexivity]]] |].
    apply List.Forall_nil.
  - repeat constructor.
  - simpl. lia.
Defined.

(** In an input without a NUL byte every entry ends at cursor 20. *)
Lemma tree_parse_one_no_nul raw pos pos' leaf :
  NUL ∉ raw -> tree_parse_one raw pos = Ok (pos', leaf) -> pos' = 20%Z.
Proof.
  intros Hnul. unfold tree_parse_one.
  destruct (negb _); [discriminate |].
  rewrite (find_notin raw NUL _ Hnul).
  destruct (decode_utf8 _); cbn [rbind]; [| discriminate].
  intros [= <- _]. reflexivity.
Qed.

Lemma tree_parse_loop_no_nul fuel : forall raw pos ret r,
  NUL ∉ raw -> (20 < len raw)%Z -> (pos < len raw)%Z ->
  tree_parse_loop fuel raw pos ret = Some r -> exists e, r = Raise e.
Proof.
  induction fuel as [|f IH]; intros raw pos ret r Hnul Hlen Hpos; [discriminate |].
  cbn [tree_parse_loop].
  replace (pos <? len raw)%Z with true by (symmetry; apply Z.ltb_lt; exact Hpos).
  destruct (tree_parse_one raw pos) as [[pos' leaf]|e] eqn:Hone; cbn.
  - rewrite (tree_parse_one_no_nul raw pos pos' leaf Hnul Hone).
    apply IH; assumption.
  - intros [= <-]. eauto.
Qed.

(** X18: on an input of more than 20 bytes without a NUL byte,
    [tree_parse] returns no list: it raises or does not return; it does
    not return when the entries at the cursors 0 and 20 are accepted. *)
Theorem tree_parse_no_nul raw :
  NUL ∉ raw -> (20 < len raw)%Z ->
  (forall fuel r, tree_parse fuel raw = Some r -> exists e, r = Raise e)
  /\ (forall r0 r20,
      tree_parse_one raw 0 = Ok r0 -> tree_parse_one raw 20 = Ok r20 ->
      forall fuel, tree_parse fuel raw = None).
Proof.
  intros Hnul Hlen. split.
  - intros fuel r. apply tree_parse_loop_no_nul; [assumption | assumption | lia].
  - intros [p0 l0] [p20 l20] H0 H20.
    assert (Hloop : forall fuel ret, tree_parse_loop fuel raw 20 ret = None).
    { induction fuel as [|f IH]; intros ret; [reflexivity |].
      cbn [tree_parse_loop].
      replace (20 <? len raw)%Z with true by (symmetry; apply Z.ltb_lt; exact Hlen).
      rewrite H20. cbn [lift mbind fst].
      rewrite (tree_parse_one_no_nul raw 20 p20 l20 Hnul H20). apply IH. }
    intros [|f]; [reflexivity |]. unfold tree_parse. cbn [tree_parse_loop].
    replace (0 <? len raw)%Z with true by (symmetry; apply Z.ltb_lt; lia).
    rewrite H0. cbn [lift mbind fst].
    rewrite (tree_parse_one_no_nul raw 0 p0 l0 Hnul H0). apply Hloop.
Qed.

Lemma tree_parse_no_nul_witness :
  tree_parse 1000 no_nul_bytes = None.
Proof.
  assert (Hn : NUL ∉ no_nul_bytes) by by_compute.
  assert (Hl : (20 < len no_nul_bytes)%Z) by reflexivity.
  destruct (tree_parse_no_nul no_nul_bytes Hn Hl) as [_ Hloop].
  destruct (tree_parse_one no_nul_bytes 0) as [r0|e0] eqn:E0;
    [| vm_compute in E0; discriminate].
  destruct (tree_parse_one no_nul_bytes 20) as [r20|e20] eqn:E20;
    [| vm_compute in E20; discriminate].
  exact (Hloop r0 r20 eq_refl eq_refl 1000).
Defined.

(** ** UTF-8 *)

Ltac divmod c k :=
  let H1 := fresh "Hdm" in let H2 := fresh "Hdm" in
  assert (H1 : (c = k * (c / k) + c mod k)%N) by (apply N.div_mod; lia);
  assert (H2 : (c mod k < k)%N) by (apply N.mod_lt; lia);
  generalize dependent (c mod k)%N; generalize dependent (c / k)%N; intros.

Ltac by_cases :=
  repeat (match goal with
          | |- context [(?a =? ?b)%N] => destruct (N.eqb_spec a b); try lia
          | |- context [(?a <? ?b)%N] => destruct (N.ltb_spec a b); try lia
          | |- context [(?a <=? ?b)%N] => destruct (N.leb_spec a b); try lia
          end; cbn [andb orb negb]).

Lemma in_range_chr lo hi n :
  (n < 256)%N -> in_range lo hi (chr n) = ((lo <=? n) && (n <=? hi))%N.
Proof. intros Hn. unfold in_range. rewrite ord_chr by exact Hn. reflexivity. Qed.

Lemma cont_chr n :
  (128 <= n <= 191)%N -> cont (chr n) = Some (n - 128)%N.
Proof.
  intros Hn. unfold cont. rewrite ord_chr by lia. by_cases. reflexivity.
Qed.

Lemma utf8_decode_cons b0 t :
  utf8_decode (b0 :: t)
  = (      let n0 := ord b0 in
      if (n0 <? 128)%N then cons n0 <$> utf8_decode t
      else if in_range 194 223 b0 then
        match t with
        | b1 :: t1 =>
            match cont b1 with
            | Some c1 => cons ((n0 - 192) * 64 + c1)%N <$> utf8_decode t1
            | None => None
            end
        | _ => None
        end
      else if in_range 224 239 b0 then
        match t with
        | b1 :: b2 :: t2 =>
            let lo := if (n0 =? 224)%N then 160%N else 128%N in
            let hi := if (n0 =? 237)%N then 159%N else 191%N in
            if in_range lo hi b1 then
              match cont b1, cont b2 with
              | Some c1, Some c2 =>
                  cons ((n0 - 224) * 4096 + c1 * 64 + c2)%N <$> utf8_decode t2
              | _, _ => None
              end
            else None
        | _ => None
        end
      else if in_range 240 244 b0 then
        match t with
        | b1 :: b2 :: b3 :: t3 =>
            let lo := if (n0 =? 240)%N then 144%N else 128%N in
            let hi := if (n0 =? 244)%N then 143%N else 191%N in
            if in_range lo hi b1 then
              match cont b1, cont b2, cont b3 with
              | Some c1, Some c2, Some c3 =>
                  cons ((n0 - 240) * 262144 + c1 * 4096 + c2 * 64 + c3)%N
                    <$> utf8_decode t3
              | _, _, _ => None
              end
            else None
        | _ => None
        end
      else None).
Proof. reflexivity. Qed.

Lemma utf8_decode_char c x rest :
  utf8_encode_char c = Some x ->
  utf8_decode (x ++ rest) = cons c <$> utf8_decode rest.
Proof.
  unfold utf8_encode_char.
  destruct (N.ltb_spec c 128) as [H1 | H1].
  { intros [= <-]. cbn [app]; rewrite utf8_decode_cons; cbv zeta. rewrite ord_chr by lia.
    by_cases. reflexivity. }
  destruct (N.ltb_spec c 2048) as [H2 | H2].
  { intros [= <-]. cbn [app]; rewrite utf8_decode_cons; cbv zeta.
    divmod c 64%N.
    rewrite in_range_chr, ord_chr, cont_chr by lia. by_cases.
    do 2 f_equal. lia. }
  destruct (N.ltb_spec c 65536) as [H3 | H3].
  { destruct (N.leb_spec 55296 c) as [H4 | H4];
      [destruct (N.leb_spec c 57343) as [H5 | H5] |]; cbn [andb];
      [discriminate | |]; intros [= <-]; cbn [app]; rewrite utf8_decode_cons; cbv zeta;
      assert (Hq : (c / 4096 = c / 64 / 64)%N)
        by (rewrite N.Div0.div_div; reflexivity);
      rewrite Hq; clear Hq;
      divmod (c / 64)%N 64%N; divmod c 64%N;
      rewrite !in_range_chr, ord_chr, !cont_chr by lia; by_cases;
      rewrite ?in_range_chr by lia; by_cases; do 2 f_equal; lia. }
  destruct (N.ltb_spec c 1114112) as [H4 | H4]; [| discriminate].
  intros [= <-]. cbn [app]; rewrite utf8_decode_cons; cbv zeta.
  assert (Hq : (c / 4096 = c / 64 / 64)%N)
    by (rewrite N.Div0.div_div; reflexivity).
  assert (Hq' : (c / 262144 = c / 64 / 64 / 64)%N)
    by (rewrite !N.Div0.div_div; reflexivity).
  rewrite Hq, Hq'; clear Hq Hq'.
  divmod (c / 64 / 64)%N 64%N. divmod (c / 64)%N 64%N. divmod c 64%N.
  rewrite !in_range_chr, ord_chr, !cont_chr by lia; by_cases;
    rewrite ?in_range_chr by lia; by_cases; do 2 f_equal; lia.
Qed.

Lemma utf8_decode_encode s : forall bs,
  utf8_encode s = Some bs -> utf8_decode bs = Some s.
Proof.
  induction s as [|c s IH]; intros bs; cbn [utf8_encode].
  - intros [= <-]. reflexivity.
  - destruct (utf8_encode_char c) as [x|] eqn:Hc; [| discriminate].
    destruct (utf8_encode s) as [y|]; [| discriminate].
    intros [= <-]. rewrite (utf8_decode_char c x y Hc), (IH y eq_refl).
    reflexivity.
Qed.

Lemma utf8_encode_char_scalar c :
  scalar c -> exists x, utf8_encode_char c = Some x.
Proof.
  intros Hc. unfold utf8_encode_char, scalar in *. by_cases; eauto.
Qed.

Lemma utf8_encode_scalar s :
  Forall scalar s -> exists bs, utf8_encode s = Some bs.
Proof.
  induction 1 as [|c s Hc _ [bs IH]]; cbn [utf8_encode]; [eauto |].
  destruct (utf8_encode_char_scalar c Hc) as [x ->]. rewrite IH. eauto.
Qed.

Lemma chr_not_nul n : (0 < n < 256)%N -> chr n <> NUL.
Proof.
  intros Hn Heq. apply (f_equal ord) in Heq. rewrite ord_chr in Heq by lia.
  vm_compute in Heq. lia.
Qed.

Lemma utf8_encode_char_no_nul c x :
  utf8_encode_char c = Some x -> c <> 0%N -> NUL ∉ x.
Proof.
  unfold utf8_encode_char. intros Hx Hc Hin.
  assert (Hall : Forall (fun y => y <> NUL) x).
  { revert Hx. by_cases; try discriminate; intros [= <-].
    - repeat constructor. apply chr_not_nul. lia.
    - divmod c 64%N. repeat constructor; apply chr_not_nul; lia.
    - assert (Hq : (c / 4096 = c / 64 / 64)%N)
        by (rewrite N.Div0.div_div; reflexivity).
      rewrite Hq. divmod (c / 64)%N 64%N. divmod c 64%N.
      repeat constructor; apply chr_not_nul; lia.
    - assert (Hq : (c / 4096 = c / 64 / 64)%N)
        by (rewrite N.Div0.div_div; reflexivity).
      rewrite Hq. divmod (c / 64)%N 64%N. divmod c 64%N.
      repeat constructor; apply chr_not_nul; lia.
    - assert (Hq : (c / 4096 = c / 64 / 64)%N)
        by (rewrite N.Div0.div_div; reflexivity).
      assert (Hq' : (c / 262144 = c / 64 / 64 / 64)%N)
        by (rewrite !N.Div0.div_div; reflexivity).
      rewrite Hq, Hq'; clear Hq Hq'.
      divmod (c / 64 / 64)%N 64%N. divmod (c / 64)%N 64%N. divmod c 64%N.
      repeat constructor; apply chr_not_nul; lia. }
  rewrite Forall_forall in Hall. exact (Hall NUL Hin eq_refl).
Qed.

Lemma utf8_encode_no_nul s : forall bs,
  utf8_encode s = Some bs -> 0%N ∉ s -> NUL ∉ bs.
Proof.
  induction s as [|c s IH]; intros bs; cbn [utf8_encode].
  - intros [= <-] _. apply not_elem_of_nil.
  - destruct (utf8_encode_char c) as [x|] eqn:Hc; [| discriminate].
    destruct (utf8_encode s) as [y|]; [| discriminate].
    intros [= <-] Hs Hin. apply elem_of_app in Hin as [Hin | Hin].
    + apply (utf8_encode_char_no_nul c x Hc); [| exact Hin].
      intros ->. apply Hs. left.
    + apply (IH y eq_refl); [| exact Hin].
      intros H0. apply Hs. right. exact H0.
Qed.

(** ** Identities as numbers *)

Lemma be_bytes_length k : forall n, length (be_bytes k n) = k.
Proof.
  induction k as [|k IH]; intros n; cbn [be_bytes]; [reflexivity |].
  rewrite length_app, IH. simpl. lia.
Qed.

Lemma from_bytes_snoc bs c :
  from_bytes (bs ++ [c]) = (from_bytes bs * 256 + Z.of_N (ord c))%Z.
Proof. unfold from_bytes. rewrite fold_left_app. reflexivity. Qed.

Lemma from_bytes_be_bytes k : forall n,
  (0 <= n)%Z -> from_bytes (be_bytes k n) = (n mod 256 ^ Z.of_nat k)%Z.
Proof.
  induction k as [|k IH]; intros n Hn; cbn [be_bytes].
  - rewrite Z.mod_1_r. reflexivity.
  - rewrite from_bytes_snoc, IH by (apply Z.div_pos; lia).
    unfold ord. rewrite N_ascii_embedding.
    2:{ pose proof (Z.mod_pos_bound n 256). lia. }
    rewrite Z2N.id by (pose proof (Z.mod_pos_bound n 256); lia).
    rewrite Nat2Z.inj_succ, Z.pow_succ_r by lia.
    assert (Hp : (0 < 256 ^ Z.of_nat k)%Z) by (apply Z.pow_pos_nonneg; lia).
    rewrite Z.rem_mul_r by lia. lia.
Qed.

Lemma digit_char_value c d :
  hexdigit c -> digit_value c = Some d -> digit_char d = c /\ (0 <= d < 16)%Z.
Proof.
  intros Hc. apply hexdigit_cases in Hc.
  repeat (apply elem_of_cons in Hc as [-> | Hc];
          [intros [= <-]; split; [reflexivity | lia] |]).
  apply elem_of_nil in Hc. contradiction.
Qed.

Lemma hexdigit_value c : hexdigit c -> exists d, digit_value c = Some d.
Proof.
  intros Hc. apply hexdigit_cases in Hc.
  repeat (apply elem_of_cons in Hc as [-> | Hc]; [eexists; reflexivity |]).
  apply elem_of_nil in Hc. contradiction.
Qed.

(** A string of hexadecimal digits is the fixed-width form of a number. *)
Lemma hex_number s :
  Forall hexdigit s ->
  exists n, (0 <= n < 16 ^ Z.of_nat (length s))%Z
            /\ digits_fixed 16 (length s) n = s.
Proof.
  induction s as [|c s IH] using rev_ind; intros Hs.
  - exists 0%Z. split; [simpl; lia | reflexivity].
  - apply Forall_app in Hs as [Hs Hc]. inversion Hc as [|? ? Hc' _]; subst.
    destruct (IH Hs) as (n & Hn & Hd).
    destruct (hexdigit_value c Hc') as [d Hv].
    destruct (digit_char_value c d Hc' Hv) as [Hdc Hdr].
    exists (n * 16 + d)%Z. rewrite length_app. cbn [length].
    replace (length s + 1) with (S (length s)) by lia.
    split.
    + rewrite Nat2Z.inj_succ, Z.pow_succ_r by lia. lia.
    + cbn [digits_fixed].
      replace ((n * 16 + d) / 16)%Z with n
        by (apply Z.div_unique with d; lia).
      replace ((n * 16 + d) mod 16)%Z with d
        by (apply Z.mod_unique with n; lia).
      rewrite Hd, Hdc. reflexivity.
Qed.

(** ** Serializing and parsing a tree *)

Lemma py_int_hex s n :
  (0 < length s)%nat -> (0 <= n < 16 ^ Z.of_nat (length s))%Z ->
  digits_fixed 16 (length s) n = s ->
  py_int s 16 = Ok n.
Proof.
  intros Hlen Hn Hd.
  assert (Hs : Forall hexdigit s)
    by (rewrite <- Hd; apply digits_fixed_hex; lia).
  rewrite py_int_digits; [| destruct s; [simpl in Hlen; lia | discriminate] | exact Hs].
  rewrite <- Hd at 1. rewrite <- (app_nil_r (digits_fixed _ _ _)).
  rewrite int_digits_fixed by lia. cbn [int_digits].
  replace (0 <? length s)%nat with true by (symmetry; apply Nat.ltb_lt; exact Hlen).
  cbn [orb]. rewrite Z.mod_small by exact Hn. reflexivity.
Qed.

Lemma tree_entry_good ret l :
  good_leaf l ->
  exists e, tree_entry ret l = Ok (ret ++ entry_bytes e)
            /\ good_entry e
            /\ decode_utf8 (e_path e) = Ok (path l)
            /\ entry_leaf e (path l) = l.
Proof.
  intros (Hm & Hsp & Hsc & Hnul & Hlen & Hhex).
  destruct (utf8_encode_scalar (path l) Hsc) as [bs Hbs].
  destruct (hex_number (sha l) Hhex) as (n & Hn & Hd).
  rewrite Hlen in Hn, Hd.
  assert (Hint : py_int (sha l) 16 = Ok n)
    by (apply py_int_hex; rewrite Hlen; [lia | exact Hn | exact Hd]).
  exists {| e_mode := mode l; e_path := bs; e_id := be_bytes 20 n |}.
  split; [| split; [| split]].
  - unfold tree_entry, encode_utf8, entry_bytes. cbn [e_mode e_path e_id].
    rewrite Hbs, Hint. cbn [rbind]. unfold to_bytes.
    replace ((n <? 0) || (256 ^ Z.of_nat 20 <=? n))%Z with false; [reflexivity |].
    symmetry. apply orb_false_iff. split; [apply Z.ltb_ge | apply Z.leb_gt]; lia.
  - unfold good_entry. cbn [e_mode e_path e_id].
    split; [right; exact Hm |]. split; [exact Hsp |].
    split; [apply (utf8_encode_no_nul (path l) bs Hbs Hnul) |].
    apply be_bytes_length.
  - cbn [e_path]. unfold decode_utf8.
    rewrite (utf8_decode_encode _ _ Hbs). reflexivity.
  - unfold entry_leaf. cbn [e_mode e_path e_id]. unfold len. rewrite Hm.
    replace (Z.of_nat 6 =? 5)%Z with false by reflexivity.
    rewrite from_bytes_be_bytes by lia.
    rewrite Z.mod_small by lia.
    rewrite format_040x_small by lia. rewrite Hd.
    destruct l; reflexivity.
Qed.

Lemma tree_fold_good its : forall ret,
  Forall good_leaf its ->
  exists es,
    fold_left (fun acc i => rbind acc (fun ret => tree_entry ret i)) its (Ok ret)
    = Ok (ret ++ flat_map entry_bytes es)
    /\ Forall good_entry es
    /\ Forall2 (fun e p => decode_utf8 (e_path e) = Ok p) es (map path its)
    /\ zip_with entry_leaf es (map path its) = its.
Proof.
  induction its as [|l its IH]; intros ret Hits.
  - exists []. cbn. rewrite app_nil_r. repeat split; constructor.
  - inversion Hits as [|? ? Hl Hrest]; subst.
    destruct (tree_entry_good ret l Hl) as (e & He & Hg & Hp & Hleaf).
    destruct (IH (ret ++ entry_bytes e) Hrest) as (es & Hf & Hgs & Hps & Hz).
    exists (e :: es). cbn [fold_left rbind]. rewrite He, Hf.
    cbn [flat_map map zip_with]. rewrite <- app_assoc, Hleaf, Hz.
    repeat split; constructor; assumption.
Qed.

(** X19: a list of leaves with six-byte modes, encodable paths without a
    NUL character and identities of forty lower-case hexadecimal digits
    is serialized, and the bytes are parsed back to the list in its
    canonical order. *)
Theorem tree_serialize_parse items fuel :
  Forall good_leaf items ->
  length items < fuel ->
  exists data,
    tree_serialize items = (sort_by tree_leaf_sort_key items, Ok data)
    /\ tree_parse fuel data = Some (Ok (sort_by tree_leaf_sort_key items)).
Proof.
  intros Hitems Hfuel.
  pose proof (sort_by_perm tree_leaf_sort_key items) as Hperm.
  assert (Hsorted : Forall good_leaf (sort_by tree_leaf_sort_key items))
    by (rewrite <- Hperm; exact Hitems).
  destruct (tree_fold_good _ [] Hsorted) as (es & Hf & Hgs & Hps & Hz).
  exists (flat_map entry_bytes es). split.
  - unfold tree_serialize. rewrite Hf. reflexivity.
  - rewrite (tree_parse_entries es _ fuel Hgs Hps), Hz; [reflexivity |].
    apply Forall2_length in Hps. rewrite Hps, length_map, <- Hperm. exact Hfuel.
Qed.

Lemma tree_serialize_parse_witness :
  exists data,
    tree_serialize [bar_dir; bar_txt] = ([bar_txt; bar_dir], Ok data)
    /\ tree_parse 3 data = Some (Ok [bar_txt; bar_dir]).
Proof.
  apply (tree_serialize_parse [bar_dir; bar_txt] 3); [by_compute | simpl; lia].
Defined.

(** ** Listing and checking out trees *)

Lemma abs_path_snoc names n :
  abs_path (names ++ [n]) = abs_path names ++ SLASH :: n.
Proof. unfold abs_path. rewrite flat_map_app. cbn. rewrite app_nil_r. reflexivity. Qed.

Lemma startswith_slash c :
  c <> [] -> SLASH ∉ c -> startswith c [SLASH] = false.
Proof.
  intros Hne Hs. destruct c as [|x c]; [congruence |].
  cbn [startswith]. destruct (decide (x = SLASH)) as [-> | Hx]; [| reflexivity].
  exfalso. apply Hs. left.
Qed.

Lemma abs_path_last dir :
  dir <> [] -> Forall plain_name dir ->
  exists x, last (abs_path dir) = Some x /\ x <> SLASH.
Proof.
  intros Hne Hdir. destruct dir as [|d dir _] using rev_ind; [congruence |].
  apply Forall_app in Hdir as [_ Hd]. inversion Hd as [|? ? (Hn & Hs & _) _]; subst.
  destruct d as [|x m _] using rev_ind; [congruence |].
  exists x. rewrite abs_path_snoc, app_comm_cons, app_assoc, last_snoc.
  split; [reflexivity |]. intros ->. apply Hs, elem_of_app. right. left.
Qed.

Lemma join1_abs_path dir n :
  dir <> [] -> Forall plain_name dir -> plain_name n ->
  join1 (abs_path dir) n = abs_path (dir ++ [n]).
Proof.
  intros Hne Hdir (Hn & Hs & _). unfold join1.
  rewrite (startswith_slash n Hn Hs).
  destruct (abs_path_last dir Hne Hdir) as (x & -> & Hx).
  replace (x =? SLASH)%N with false by (symmetry; apply N.eqb_neq; exact Hx).
  rewrite abs_path_snoc. reflexivity.
Qed.

Lemma name_split (a b X Y : pystr) :
  SLASH ∉ a -> SLASH ∉ b ->
  (X = [] \/ exists X', X = SLASH :: X') ->
  (Y = [] \/ exists Y', Y = SLASH :: Y') ->
  a ++ X = b ++ Y -> a = b /\ X = Y.
Proof.
  revert b. induction a as [|x a IH]; intros [|y b] Ha Hb HX HY Heq.
  - auto.
  - exfalso. cbn in Heq. destruct HX as [-> | [X' ->]]; [discriminate |].
    injection Heq as <- _. apply Hb. left.
  - exfalso. cbn in Heq. destruct HY as [-> | [Y' ->]]; [discriminate |].
    injection Heq as -> _. apply Ha. left.
  - cbn in Heq. injection Heq as -> Heq.
    destruct (IH b) as [-> ->]; try assumption; [| | auto].
    + intros H. apply Ha. right. exact H.
    + intros H. apply Hb. right. exact H.
Qed.

Lemma abs_path_head names :
  abs_path names = [] \/ exists t, abs_path names = SLASH :: t.
Proof. destruct names as [|n names]; [left; reflexivity | right; cbn; eauto]. Qed.

Lemma abs_path_inj ps : forall qs,
  Forall plain_name ps -> Forall plain_name qs ->
  abs_path ps = abs_path qs -> ps = qs.
Proof.
  induction ps as [|p ps IH]; intros [|q qs] Hps Hqs Heq;
    [reflexivity | discriminate | discriminate |].
  inversion Hps as [|? ? (_ & Hp & _) Hps']; subst.
  inversion Hqs as [|? ? (_ & Hq & _) Hqs']; subst.
  cbn in Heq. injection Heq as Heq.
  apply name_split in Heq as [-> Heq];
    [| assumption | assumption | apply abs_path_head | apply abs_path_head].
  f_equal. apply IH; assumption.
Qed.

Section TreeCommands.
Context `{Zlib}.

(** X20: [ls_tree] prints nothing: the tree that [object_read] returns
    has no entries. *)
Theorem ls_tree_prints_nothing fuel repo ref recursive prefix fs out out' r :
  ls_tree fuel repo ref recursive prefix fs out = Some (out', r) ->
  out' = out.
Proof.
  destruct fuel as [|f]; [discriminate |]. cbn [ls_tree]. unfold object_find.
  destruct (object_read f repo ref fs) as [[obj|e]|] eqn:Hr; [| | discriminate].
  - apply object_read_result in Hr
      as [-> | [-> | [-> | [-> | (c & data & ->)]]]];
      intros [= <- _]; reflexivity.
  - intros [= <- _]. reflexivity.
Qed.

(** [tree_checkout] changes the file system at the strings it joins and
    nowhere else. *)
Lemma tree_checkout_frame fuel repo its path_ fs fs' r q :
  tree_checkout fuel repo its path_ fs = Some (fs', r) ->
  (forall item, item ∈ its -> q <> join1 path_ (path item)) ->
  fs' !! q = fs !! q.
Proof.
  destruct fuel as [|f]; [discriminate |]. cbn [tree_checkout].
  revert fs. induction its as [|item rest IH]; intros fs Hc Hq.
  - injection Hc as <- _. reflexivity.
  - assert (Hne : q <> join1 path_ (path item))
      by (apply Hq, elem_of_cons; left; reflexivity).
    assert (Hrest : forall i, i ∈ rest -> q <> join1 path_ (path i))
      by (intros i Hi; apply Hq, elem_of_cons; right; exact Hi).
    destruct (object_read f repo (sha item) fs) as [[obj|e]|] eqn:Hr;
      [| injection Hc as <- _; reflexivity | discriminate].
    apply object_read_result in Hr
      as [-> | [-> | [-> | [-> | (c & data & ->)]]]].
    + apply (IH fs Hc Hrest).
    + unfold mkdir in Hc.
      destruct (fs !! join1 path_ (path item)) eqn:Hd;
        [injection Hc as <- _; reflexivity |].
      destruct f as [|f']; [discriminate |]. cbn [tree_checkout] in Hc.
      rewrite (IH _ Hc Hrest). apply lookup_insert_ne. congruence.
    + apply (IH fs Hc Hrest).
    + unfold write_file in Hc.
      destruct (fs !! join1 path_ (path item)) as [[|x]|];
        injection Hc as <- _; try reflexivity;
        apply lookup_insert_ne; congruence.
    + unfold write_file in Hc.
      destruct (fs !! join1 path_ (path item)) as [[|x]|];
        [injection Hc as <- _; reflexivity | |];
        rewrite (IH _ Hc Hrest); apply lookup_insert_ne; congruence.
Qed.

(** X21: [tree_checkout] into an absolute directory of plain names, with
    entries of plain names, changes the file system at the destinations
    of its entries, the directory with the name of the entry added, and
    at no other absolute path of plain names; so it writes nothing below
    a destination. *)
Theorem tree_checkout_shallow fuel repo its dir fs fs' r :
  dir <> [] -> Forall plain_name dir ->
  Forall (fun i => plain_name (path i)) its ->
  tree_checkout fuel repo its (abs_path dir) fs = Some (fs', r) ->
  (forall qs,
     Forall plain_name qs ->
     (forall i, i ∈ its -> qs <> dir ++ [path i]) ->
     fs' !! abs_path qs = fs !! abs_path qs)
  /\ (forall i rest,
      i ∈ its -> rest <> [] -> Forall plain_name rest ->
      fs' !! abs_path (dir ++ path i :: rest)
      = fs !! abs_path (dir ++ path i :: rest)).
Proof.
  intros Hne Hdir Hits Hc.
  assert (Hother : forall qs,
             Forall plain_name qs ->
             (forall i, i ∈ its -> qs <> dir ++ [path i]) ->
             fs' !! abs_path qs = fs !! abs_path qs).
  { intros qs Hqs Hq.
    apply (tree_checkout_frame fuel repo its (abs_path dir) fs fs' r _ Hc).
    intros i Hi Heq. rewrite Forall_forall in Hits.
    rewrite join1_abs_path in Heq by (auto using Hits).
    apply abs_path_inj in Heq; [exact (Hq i Hi Heq) | exact Hqs |].
    apply Forall_app. split; [exact Hdir |].
    apply List.Forall_cons; [apply Hits, Hi | apply List.Forall_nil]. }
  split; [exact Hother |].
  intros i rest Hi Hrest Hplain. apply Hother.
  - apply Forall_app. split; [exact Hdir |].
    apply List.Forall_cons; [| exact Hplain].
    rewrite Forall_forall in Hits. apply Hits, Hi.
  - intros j _ Heq. apply app_inv_head in Heq.
    injection Heq as _ Heq. contradiction.
Qed.
End TreeCommands.

Lemma ls_tree_prints_nothing_witness :
  ls_tree (H := stored_zlib) 8 repo0 tree_sha true []
    (put tree_sha tree_frame fs_empty) [u "header"]
  = Some ([u "header"], Ok tt)
  /\ [u "header"] = [u "header"].
Proof.
  assert (Hl : ls_tree (H := stored_zlib) 8 repo0 tree_sha true []
                 (put tree_sha tree_frame fs_empty) [u "header"]
               = Some ([u "header"], Ok tt)) by (vm_compute; reflexivity).
  split; [exact Hl |].
  exact (ls_tree_prints_nothing (H := stored_zlib) _ _ _ _ _ _ _ _ _ Hl).
Defined.

Lemma tree_checkout_shallow_witness :
  let fs := put hello_sha hello_frame fs_empty in
  let fs' := <[u "/w/hello.txt" := File hello]> fs in
  tree_checkout (H := stored_zlib) 8 repo0 [hello_leaf] (abs_path [u "w"]) fs
  = Some (fs', Ok tt)
  /\ fs' !! abs_path [u "w"; u ".git"; u "objects"] = Some Dir
  /\ fs' !! abs_path [u "w"; u "hello.txt"; u "x"] = None.
Proof.
  intros fs fs'.
  assert (Hc : tree_checkout (H := stored_zlib) 8 repo0 [hello_leaf]
                 (abs_path [u "w"]) fs
               = Some (fs', Ok tt)) by (vm_compute; reflexivity).
  split; [exact Hc |].
  destruct (tree_checkout_shallow (H := stored_zlib) 8 repo0 [hello_leaf]
              [u "w"] fs fs' (Ok tt)) as [Hother Hbelow];
    [discriminate | by_compute | by_compute | exact Hc |].
  split.
  - etrans; [apply (Hother [u "w"; u ".git"; u "objects"]) |].
    + by_compute.
    + intros i Hi. apply list_elem_of_singleton in Hi as ->. discriminate.
    + vm_compute. reflexivity.
  - etrans; [apply (Hbelow hello_leaf [u "x"]) |].
    + apply list_elem_of_singleton. reflexivity.
    + discriminate.
    + by_compute.
    + vm_compute. reflexivity.
Defined.

(** X22: an entry that [tree_parse_one] read with a five-byte mode is
    not accepted by [ls_tree]: the mode starts with the space it was
    padded with. *)
Theorem ls_tree_rejects_padded_mode e p t :
  length (e_mode e) = 5 -> decode_ascii (e_mode e) = Ok t ->
  ls_tree_type (entry_leaf e p)
  = Raise (Exception (u "Weird tree lead mode " ++ 32%N :: t)).
Proof.
  intros Hlen Hdec. unfold entry_leaf, ls_tree_type. cbn [mode].
  destruct (e_mode e) as [|a [|b0 [|c [|d [|e0 [|x m]]]]]]; try discriminate.
  change (len [a; b0; c; d; e0] =? 5)%Z with true. cbn iota.
  change (len [SP; a; b0; c; d; e0] =? 5)%Z with false. cbn iota.
  change (slice [SP; a; b0; c; d; e0] 0 2) with [SP; a].
  repeat (rewrite decide_False by discriminate).
  unfold decode_ascii in *. cbn [forallb map] in *.
  change (ord SP <? 128)%N with true. cbn [andb].
  destruct (_ && _); [| discriminate]. injection Hdec as <-. reflexivity.
Qed.

Lemma ls_tree_rejects_padded_mode_witness :
  entry_leaf dir_disk_entry (u "bar") = dir_leaf
  /\ ls_tree_type (entry_leaf dir_disk_entry (u "bar"))
     = Raise (Exception (u "Weird tree lead mode " ++ 32%N :: u "40000")).
Proof.
  split; [vm_compute; reflexivity |].
  apply (ls_tree_rejects_padded_mode dir_disk_entry (u "bar") (u "40000"));
    reflexivity.
Defined.

(** ** Paths of the repository *)

(** X23: [repo_dir] and [repo_file] keep what is in the file system and
    make no regular file; without [mkdir] they leave the file system as
    it is. *)
Theorem repo_file_keeps repo path_ mk fs :
  fs ⊆ (repo_dir repo path_ mk fs).1
  /\ files (repo_dir repo path_ mk fs).1 = files fs
  /\ (repo_dir repo path_ false fs).1 = fs
  /\ (repo_file repo path_ mk fs).1 = (repo_dir repo (removelast path_) mk fs).1.
Proof.
  assert (Hdir : forall p m,
             fs ⊆ (repo_dir repo p m fs).1
             /\ files (repo_dir repo p m fs).1 = files fs
             /\ (m = false -> (repo_dir repo p m fs).1 = fs)).
  { intros p m. unfold repo_dir, makedirs.
    destruct (fs !! repo_path repo p) as [[|c]|] eqn:E; cbn [fst];
      [auto | auto |].
    destruct m; cbn [fst]; [| auto].
    split; [apply insert_subseteq, E |].
    split; [apply files_insert_dir, E | discriminate]. }
  destruct (Hdir path_ mk) as (H1 & H2 & _).
  destruct (Hdir path_ false) as (_ & _ & H3).
  repeat split; [exact H1 | exact H2 | exact (H3 eq_refl) |].
  unfold repo_file.
  destruct (repo_dir repo (removelast path_) mk fs) as [fs' [[[|c p]|]|e]];
    reflexivity.
Qed.

Section WriteKeeps.
Context `{Zlib}.

Lemma object_write_subseteq obj repo fs : fs ⊆ (object_write obj repo fs).1.2.
Proof.
  unfold object_write. destruct (serialize obj) as [obj' [data|e]];
    cbn [rbind]; [| reflexivity].
  destruct (frame (fmt obj) data) as [raw|e]; [| reflexivity].
  generalize (Sha1.hexdigest raw). intros sha0.
  destruct repo as [repo|]; [| reflexivity].
  rewrite repo_file_object.
  destruct (fs !! object_dir repo sha0) as [[|c]|] eqn:Hd; cbn [fst snd];
    try reflexivity.
  - unfold exists_, write_file.
    destruct (fs !! object_file repo sha0) as [n|] eqn:Hf; cbn [fst snd];
      [reflexivity |].
    apply insert_subseteq, Hf.
  - unfold exists_, write_file.
    destruct (<[object_dir repo sha0 := Dir]> fs !! object_file repo sha0)
      as [n|] eqn:Hf; cbn [fst snd]; [apply insert_subseteq, Hd |].
    etrans; [apply insert_subseteq, Hd | apply insert_subseteq, Hf].
Qed.

Lemma object_read_weaken fuel repo sha_ fs fs' obj :
  fs ⊆ fs' ->
  object_read fuel repo sha_ fs = Some (Ok obj) ->
  object_read fuel repo sha_ fs' = Some (Ok obj).
Proof.
  intros Hsub. unfold object_read. rewrite !repo_file_object.
  destruct (fs !! object_dir repo sha_) as [[|c]|] eqn:Hd; cbn [snd lift mbind];
    [| discriminate | discriminate].
  rewrite (lookup_weaken _ _ _ _ Hd Hsub). cbn [snd lift mbind].
  destruct (fs !! object_file repo sha_) as [[|c]|] eqn:Hf;
    [discriminate | | discriminate].
  rewrite (lookup_weaken _ _ _ _ Hf Hsub). auto.
Qed.

(** X24: a write, whether it returns or raises and into whichever
    repository, loses no object: what [object_read] returned before the
    write it returns after it. *)
Theorem object_write_keeps_objects obj repo fs fuel repo' sha_ o :
  object_read fuel repo' sha_ fs = Some (Ok o) ->
  object_read fuel repo' sha_ (object_write obj repo fs).1.2 = Some (Ok o).
Proof. apply object_read_weaken, object_write_subseteq. Qed.
End WriteKeeps.

Lemma object_write_keeps_objects_witness :
  object_read (H := stored_zlib) 8 repo0 hello_sha
    (object_write (H := stored_zlib) tree2 (Some repo0)
       (put hello_sha hello_frame fs_empty)).1.2
  = Some (Ok (GitBlob (Some hello))).
Proof.
  apply (object_write_keeps_objects (H := stored_zlib) tree2 (Some repo0)
           (put hello_sha hello_frame fs_empty) 8 repo0 hello_sha).
  vm_compute. reflexivity.
Defined.
